(** * Voice turn-taking services of the AI tutor: a shallow embedding

    The development follows the TypeScript sources under
    [AITutor/Services]: [SimpleVoiceInput], [InterruptibleVoiceInput],
    [ReliableVoiceInput], [VoiceActivityDetection] and [TTSService].

    Every class becomes a record of its private fields.  A method or an
    event handler becomes a command: a function from the state to the new
    state and the list of observable effects it performed, in order
    (callback invocations, calls on the platform recognizer, console
    lines).  Pending [setTimeout] and [requestAnimationFrame] callbacks live
    in a table keyed by their handle, and the time of the event being
    handled is passed in explicitly. *)

From Stdlib Require Import ZArith QArith Qminmax Lia Strings.String Strings.Ascii.
From Stdlib Require SpecFloat.
From stdpp Require Import base tactics option list gmap.

Open Scope Z_scope.

(** ** JavaScript strings *)

Module Js.

(** A string is its sequence of UTF-16 code units, so [length] is the
    [.length] of the source. *)
Definition jsstring := list N.

Definition lit (s : String.string) : jsstring :=
  map Ascii.N_of_ascii (String.list_ascii_of_string s).
Arguments lit s%_string.

(** [WhiteSpace] and [LineTerminator] of ECMAScript: what [trim] strips and
    what the regular expression class [\s] matches. *)
Definition is_ws (c : N) : bool :=
  ((9 <=? c) && (c <=? 13) || (c =? 32) || (c =? 160) || (c =? 5760)
   || (8192 <=? c) && (c <=? 8202) || (c =? 8232) || (c =? 8233)
   || (c =? 8239) || (c =? 8287) || (c =? 12288) || (c =? 65279))%N.

Fixpoint drop_ws (s : jsstring) : jsstring :=
  match s with
  | c :: s' => if is_ws c then drop_ws s' else s
  | [] => []
  end.

(** [String.prototype.trim] *)
Definition trim (s : jsstring) : jsstring :=
  rev (drop_ws (rev (drop_ws s))).

(** Truthiness of a string: [if (s)] holds for the non-empty ones. *)
Definition truthy (s : jsstring) : bool :=
  match s with [] => false | _ :: _ => true end.

Definition str_eqb (a b : jsstring) : bool := bool_decide (a = b).

(** The character class [[.!?]]. *)
Definition is_terminator (c : N) : bool :=
  ((c =? 46) || (c =? 33) || (c =? 63))%N.

(** One entry of [event.results]: [results[i][0].transcript] and
    [results[i].isFinal]. *)
Record SpeechResult := { transcript : jsstring; isFinal : bool }.

(** The loop shared by the [onresult] handlers,
    [for (let i = event.resultIndex; i < event.results.length; i++)]:
    final transcripts are appended to the first component, the others to
    the second. *)
Fixpoint collect (rs : list SpeechResult) (fin inter : jsstring)
  : jsstring * jsstring :=
  match rs with
  | [] => (fin, inter)
  | r :: rs' =>
      if isFinal r then collect rs' (fin ++ transcript r) inter
      else collect rs' fin (inter ++ transcript r)
  end.

Definition scan_results (resultIndex : nat) (results : list SpeechResult)
  : jsstring * jsstring :=
  collect (drop resultIndex results) [] [].

End Js.
Import Js.

(** ** Commands: state passing with a trace of effects *)

Definition cmd (S E : Type) : Type := S -> S * list E.

Definition skip {S E} : cmd S E := fun s => (s, []).
Definition emit {S E} (e : E) : cmd S E := fun s => (s, [e]).
Definition modify {S E} (f : S -> S) : cmd S E := fun s => (f s, []).
Definition seq {S E} (c1 c2 : cmd S E) : cmd S E :=
  fun s => let r1 := c1 s in let r2 := c2 (fst r1) in
           (fst r2, snd r1 ++ snd r2).
(** A command that first reads the state. *)
Definition reading {S E} (k : S -> cmd S E) : cmd S E := fun s => k s s.
Definition when {S E} (b : S -> bool) (c : cmd S E) : cmd S E :=
  fun s => if b s then c s else (s, []).

Declare Scope cmd_scope.
Delimit Scope cmd_scope with cmd.
Notation "c1 ;; c2" := (seq c1 c2)
  (at level 100, c2 at level 200, right associativity) : cmd_scope.

(** A relation between the state before a command, the trace of the
    command and the state after it is compositional when doing nothing
    satisfies it and it survives doing one thing after another.  A command
    satisfies such a relation when every execution of it does. *)
Class Compositional {S E} (R : S -> list E -> S -> Prop) := {
  comp_refl : forall s, R s [] s;
  comp_trans : forall s t1 s1 t2 s2,
    R s t1 s1 -> R s1 t2 s2 -> R s (t1 ++ t2) s2
}.

Definition sat {S E} (R : S -> list E -> S -> Prop) (c : cmd S E) : Prop :=
  forall s, R s (snd (c s)) (fst (c s)).

(** Number of entries of a trace that satisfy [p]. *)
Fixpoint count {A} (p : A -> bool) (l : list A) : nat :=
  match l with
  | [] => 0
  | x :: l' => ((if p x then 1 else 0) + count p l')%nat
  end.

Definition b2n (b : bool) : nat := if b then 1%nat else 0%nat.

(** A command always ends in a state with the property [Q]. *)
Definition ends_in {S E} (Q : S -> Prop) (c : cmd S E) : Prop :=
  forall s, Q (fst (c s)).

(** A property of the state that, once it holds, is kept. *)
Definition preserved {S E} (Q : S -> Prop)
    (s : S) (tr : list E) (s' : S) : Prop :=
  Q s -> Q s'.

(** A command does the same on a state and on the state changed by [f],
    up to that change: it does not read what [f] changes. *)
Definition commutes {S E} (f : S -> S) (c : cmd S E) : Prop :=
  forall s, c (f s) = (f (fst (c s)), snd (c s)).

(** The head of the string, if there is one, is not white space. *)
Definition starts_clean (s : jsstring) : Prop :=
  match s with c :: _ => is_ws c = false | [] => True end.

(** A transcript fit to be reported: not empty, with no white space around
    it. *)
Definition trimmed_text (t : jsstring) : Prop := truthy t = true /\ trim t = t.

(** Every transcript that a trace reports is fit to be reported;
    [report_of] tells which effects report one. *)
Definition reports_trimmed {S E} (report_of : E -> option jsstring)
    (s : S) (tr : list E) (s' : S) : Prop :=
  forall x t, In x tr -> report_of x = Some t -> trimmed_text t.

(** ** Pending timers and animation frames *)

(** The delay that [setTimeout] makes of its argument.  The HTML standard
    reads the argument as a signed 32-bit integer, so that it wraps
    around, and counts a negative delay as 0: from 0 to 2^31 - 1 the
    delay is the argument, and from 2^31 to 2^32 - 1 it is 0. *)
Definition to_int32 (z : Z) : Z := (z + 2 ^ 31) mod 2 ^ 32 - 2 ^ 31.

Definition timer_delay (ms : Z) : Z := Z.max 0 (to_int32 ms).

Section Runtime.
Context {K : Type}.

(** A pending callback: when it is due and which callback it runs. *)
Record runtime := Runtime { pending : gmap nat (Z * K); next_id : nat }.

Definition rt_init : runtime := Runtime ∅ 1%nat.

(** [setTimeout(cb, due - now)] returns a fresh handle. *)
Definition rt_set (due : Z) (k : K) (rt : runtime) : nat * runtime :=
  (next_id rt,
   Runtime (<[next_id rt := (due, k)]> (pending rt)) (S (next_id rt))).

(** [clearTimeout(h)]: nothing happens when [h] is not pending. *)
Definition rt_clear (h : nat) (rt : runtime) : runtime :=
  Runtime (delete h (pending rt)) (next_id rt).

(** [if (slot) clearTimeout(slot)] on a slot holding a handle or null. *)
Definition rt_clear_opt (slot : option nat) (rt : runtime) : runtime :=
  match slot with Some h => rt_clear h rt | None => rt end.

(** Handles are handed out in increasing order. *)
Definition rt_fresh (rt : runtime) : Prop :=
  forall h v, pending rt !! h = Some v -> (h < next_id rt)%nat.

(** The pending callback that an ideal event loop runs next, among those
    of the kinds it drives: the one due first, the older handle winning a
    tie. *)
Definition earlier (a b : nat * (Z * K)) : bool :=
  (a.2.1 <? b.2.1) || ((a.2.1 =? b.2.1) && (a.1 <=? b.1)%nat).

Definition rt_next (driven : K -> bool) (rt : runtime)
  : option (nat * (Z * K)) :=
  foldr (fun x acc =>
           if driven x.2.2 then
             match acc with
             | Some y => if earlier x y then Some x else Some y
             | None => Some x
             end
           else acc) None (map_to_list (pending rt)).

End Runtime.
Arguments runtime : clear implicits.

(** Freshness can be checked by running over the timer table. *)
#[global] Instance rt_fresh_dec {K} (r : runtime K) : Decision (rt_fresh r).
Proof.
  refine (cast_if (decide (map_Forall
            (fun h (_ : Z * K) => (h < next_id r)%nat) (pending r)))).
  - intros h v Hl. exact (m h v Hl).
  - intros F. apply n. intros h v Hl. exact (F h v Hl).
Defined.

(** ** An ideal event loop

    [run_events] handles a list of events one after the other.
    [play_events] is the schedule of an event loop without jitter: every
    pending callback of a driven kind runs exactly when it is due, before
    an external event of the same time.  [settled] tells that the loop has
    nothing left to run up to a given time. *)

Section Loop.
Context {S E Ev K Env : Type}.
Variable rt_of : S -> runtime K.
Variable driven : K -> bool.
Variable time_of : Env -> Z.
Variable at_time : Z -> Env.
Variable fire : Env -> nat -> cmd S E.
Variable step : Env -> Ev -> cmd S E.

Fixpoint run_events (es : list (Env * Ev)) : cmd S E :=
  match es with
  | [] => skip
  | (e, ev) :: es' => seq (step e ev) (run_events es')
  end.

Fixpoint advance (fuel : nat) (clock until : Z) (s : S)
  : S * list (Z * E) :=
  match fuel with
  | O => (s, [])
  | Datatypes.S fuel' =>
      match rt_next driven (rt_of s) with
      | Some (h, (due, _)) =>
          if due <=? until then
            let t := Z.max clock due in
            let r := fire (at_time t) h s in
            let r' := advance fuel' t until (fst r) in
            (fst r', map (pair t) (snd r) ++ snd r')
          else (s, [])
      | None => (s, [])
      end
  end.

Fixpoint play_events (fuel : nat) (clock : Z) (es : list (Env * Ev))
    (horizon : Z) (s : S) : S * list (Z * E) :=
  match es with
  | [] => advance fuel clock horizon s
  | (e, ev) :: es' =>
      let r := advance fuel clock (time_of e) s in
      let r1 := step e ev (fst r) in
      let r2 := play_events fuel (time_of e) es' horizon (fst r1) in
      (fst r2, snd r ++ map (pair (time_of e)) (snd r1) ++ snd r2)
  end.

(** No callback of a driven kind is due at or before [until]. *)
Definition settled (until : Z) (s : S) : bool :=
  match rt_next driven (rt_of s) with
  | Some (_, (due, _)) => until <? due
  | None => true
  end.

End Loop.

(** ** SimpleVoiceInput *)

Module Simple.

(** The three [setTimeout] callbacks of the class: the overall timeout and
    the silence timer of [startTimers]/[resetSilenceTimer], and the
    untracked auto-restart of [complete]. *)
Inductive kind := KTimeout | KSilence | KRestart.

#[global] Instance kind_eq_dec : EqDecision kind.
Proof. solve_decision. Defined.

Record config := Config {
  language : jsstring;
  timeout : Z;          (* Auto-stop after this time *)
  silenceTimeout : Z    (* Stop after silence *)
}.

Definition default_config : config := Config (lit "en-US") 8000 2000.

Record state := State {
  recognition : bool;            (* [this.recognition !== null] *)
  isListening : bool;
  cfg : config;
  timeoutTimer : option nat;
  silenceTimer : option nat;
  finalTranscript : jsstring;
  rt : runtime kind
}.

(** The state left by the constructor. *)
Definition init (supported : bool) (c : config) : state :=
  State supported false c None None [] rt_init.

(** Console lines, named after their text. *)
Inductive log :=
| LogRecognitionStarted
| LogFinalTextReceived (newFinalText : jsstring)
| LogRecognitionEnded
| LogRecognitionError (error : jsstring)
| LogTimeoutReached
| LogSilenceTimeoutReached
| LogCompleting (finalTranscript : jsstring)
| LogAutoRestarting
| LogStarting
| LogFailedToStart
| LogStartRejected
| LogStopping
| LogAborting.

Inductive effect :=
| Console (l : log)
| OnStart
| OnTranscript (text : jsstring) (isFinal : bool)
| OnComplete (finalText : jsstring)
| OnError (error : jsstring)
| OnStop
| RecStart          (* [this.recognition.start()] *)
| RecStop           (* [this.recognition.stop()] *)
| RecAbort.         (* [this.recognition.abort()] *)

#[global] Instance log_eq_dec : EqDecision log.
Proof. solve_decision. Defined.
#[global] Instance effect_eq_dec : EqDecision effect.
Proof. solve_decision. Defined.

Abbreviation command := (cmd state effect).

Definition set_isListening (b : bool) (s : state) : state :=
  State (recognition s) b (cfg s) (timeoutTimer s) (silenceTimer s)
        (finalTranscript s) (rt s).
Definition set_timeoutTimer (t : option nat) (s : state) : state :=
  State (recognition s) (isListening s) (cfg s) t (silenceTimer s)
        (finalTranscript s) (rt s).
Definition set_silenceTimer (t : option nat) (s : state) : state :=
  State (recognition s) (isListening s) (cfg s) (timeoutTimer s) t
        (finalTranscript s) (rt s).
Definition set_finalTranscript (t : jsstring) (s : state) : state :=
  State (recognition s) (isListening s) (cfg s) (timeoutTimer s)
        (silenceTimer s) t (rt s).
Definition set_rt (r : runtime kind) (s : state) : state :=
  State (recognition s) (isListening s) (cfg s) (timeoutTimer s)
        (silenceTimer s) (finalTranscript s) r.

(** [slot = setTimeout(k, due - now)] *)
Definition setTimeout (due : Z) (k : kind)
    (store : option nat -> state -> state) : command :=
  fun s => let r := rt_set due k (rt s) in
           (store (Some (fst r)) (set_rt (snd r) s), []).

Definition clearTimeout (h : nat) : command :=
  modify (fun s => set_rt (rt_clear h (rt s)) s).

(** [if (this.slot) clearTimeout(this.slot)] *)
Definition clearSlot (slot : state -> option nat) : command :=
  modify (fun s => set_rt (rt_clear_opt (slot s) (rt s)) s).

Local Open Scope cmd_scope.

Definition resetSilenceTimer (now : Z) : command :=
  clearSlot silenceTimer ;;
  reading (fun s =>
    setTimeout (now + timer_delay (silenceTimeout (cfg s))) KSilence
               set_silenceTimer).

Definition startTimers (now : Z) : command :=
  reading (fun s =>
    setTimeout (now + timeout (cfg s)) KTimeout set_timeoutTimer) ;;
  resetSilenceTimer now.

Definition clearTimers : command :=
  clearSlot timeoutTimer ;; modify (set_timeoutTimer None) ;;
  clearSlot silenceTimer ;; modify (set_silenceTimer None).

Definition complete (now : Z) : command :=
  reading (fun s =>
    if negb (isListening s) then skip
    else
      emit (Console (LogCompleting (finalTranscript s))) ;;
      modify (set_isListening false) ;;
      clearTimers ;;
      when recognition (emit RecStop) ;;
      (let result := trim (finalTranscript s) in
       if truthy result then emit (OnComplete result) else skip) ;;
      emit OnStop ;;
      (* Auto-restart listening after 3 seconds *)
      setTimeout (now + 3000) KRestart (fun _ s' => s')).

(** [start()]; [throws] tells whether [recognition.start()] raises. *)
Definition start (throws : bool) : command :=
  reading (fun s =>
    if negb (recognition s) || isListening s then skip
    else
      emit (Console LogStarting) ;; emit RecStart ;;
      (if throws then emit (Console LogFailedToStart) else skip)).

Definition stop (now : Z) : command :=
  emit (Console LogStopping) ;; complete now.

Definition abort : command :=
  emit (Console LogAborting) ;;
  modify (set_isListening false) ;;
  clearTimers ;;
  when recognition (emit RecAbort) ;;
  emit OnStop.

Definition onstart (now : Z) : command :=
  emit (Console LogRecognitionStarted) ;;
  modify (set_isListening true) ;;
  modify (set_finalTranscript []) ;;
  emit OnStart ;;
  startTimers now.

Definition onresult (now : Z) (resultIndex : nat)
    (results : list SpeechResult) : command :=
  let newFinalText := fst (scan_results resultIndex results) in
  let interimTranscript := snd (scan_results resultIndex results) in
  (if truthy newFinalText then
     modify (fun s => set_finalTranscript (finalTranscript s ++ newFinalText) s) ;;
     emit (Console (LogFinalTextReceived newFinalText))
   else skip) ;;
  reading (fun s =>
    emit (OnTranscript (trim (finalTranscript s ++ interimTranscript))
                       (truthy newFinalText))) ;;
  (* Reset silence timer when we get new speech *)
  (if truthy newFinalText || truthy interimTranscript
   then resetSilenceTimer now else skip) ;;
  (* If we have enough final text, auto-complete *)
  reading (fun s =>
    if (5 <? length (trim (finalTranscript s)))%nat
    then complete now else skip).

Definition onend (now : Z) : command :=
  emit (Console LogRecognitionEnded) ;; complete now.

Definition onerror (error : jsstring) : command :=
  emit (Console (LogRecognitionError error)) ;;
  modify (set_isListening false) ;;
  clearTimers ;;
  emit (OnError error).

(** What the platform supplies while one event is handled. *)
Record env := Env { now : Z; start_throws : bool }.

Definition timer_callback (e : env) (k : kind) : command :=
  match k with
  | KTimeout => emit (Console LogTimeoutReached) ;; stop (now e)
  | KSilence => emit (Console LogSilenceTimeoutReached) ;; complete (now e)
  | KRestart =>
      reading (fun s =>
        if negb (isListening s)
        then
          emit (Console LogAutoRestarting) ;;
          start (start_throws e) ;;
          (* [.catch(console.error)] *)
          (if recognition s && start_throws e
           then emit (Console LogStartRejected) else skip)
        else skip)
  end.

(** The timer with handle [h] fires: it leaves the table and its callback
    runs.  A handle that is not pending, or not yet due, does nothing. *)
Definition fire (e : env) (h : nat) : command :=
  reading (fun s =>
    match pending (rt s) !! h with
    | Some (due, k) =>
        if due <=? now e then clearTimeout h ;; timer_callback e k else skip
    | None => skip
    end).

Inductive event :=
| EvStart                                   (* [recognition.onstart] *)
| EvResult (resultIndex : nat) (results : list SpeechResult)
| EvEnd                                     (* [recognition.onend] *)
| EvError (error : jsstring)                (* [recognition.onerror] *)
| EvTimer (h : nat)
| CallStart | CallStop | CallAbort.         (* the public methods *)

(** The recognizer's handlers exist only when [setupEvents] installed them. *)
Definition step (e : env) (ev : event) : command :=
  match ev with
  | EvStart => when recognition (onstart (now e))
  | EvResult i rs => when recognition (onresult (now e) i rs)
  | EvEnd => when recognition (onend (now e))
  | EvError err => when recognition (onerror err)
  | EvTimer h => fire e h
  | CallStart => start (start_throws e)
  | CallStop => stop (now e)
  | CallAbort => abort
  end.

Definition run := run_events step.
Definition play :=
  play_events rt (fun _ => true) now (fun t => Env t false) fire step.
Definition idle_until := settled rt (fun _ : kind => true).

(** *** Vocabulary of the properties *)

(** The finalize path is [complete] past its guard: it starts with the
    console line "Completing with transcript". *)
Definition is_finalize (x : effect) : bool :=
  match x with Console (LogCompleting _) => true | _ => false end.
Definition is_oncomplete (x : effect) : bool :=
  match x with OnComplete _ => true | _ => false end.
Definition is_console (x : effect) : bool :=
  match x with Console _ => true | _ => false end.
(** The silence timer's callback ran. *)
Definition is_silence_timeout (x : effect) : bool :=
  match x with Console LogSilenceTimeoutReached => true | _ => false end.

(** When the finalize path ran, in a timed trace. *)
Definition finalize_times (tl : list (Z * effect)) : list Z :=
  map fst (List.filter (fun x => is_finalize (snd x)) tl).

(** The three triggers of the finalize path, as the callbacks they run. *)
Inductive trigger := SilenceTimeout | MaxTimeout | PlatformEnd.

Definition pull (e : env) (t : trigger) : command :=
  match t with
  | SilenceTimeout => timer_callback e KSilence
  | MaxTimeout => timer_callback e KTimeout
  | PlatformEnd => onend (now e)
  end.

Definition pulls := run_events pull.

(** What [complete] does when the session is listening. *)
Definition completed (now : Z) (s : state) : state :=
  State (recognition s) false (cfg s) None None (finalTranscript s)
    (snd (rt_set (now + 3000) KRestart
       (rt_clear_opt (silenceTimer s)
          (rt_clear_opt (timeoutTimer s) (rt s))))).

Definition complete_trace (s : state) : list effect :=
  Console (LogCompleting (finalTranscript s))
  :: (if recognition s then [RecStop] else [])
  ++ (if truthy (trim (finalTranscript s))
      then [OnComplete (trim (finalTranscript s))] else [])
  ++ [OnStop].

(** One turn: a finalize uses up the listening flag. *)
Definition turn (s : state) (tr : list effect) (s' : state) : Prop :=
  (count is_finalize tr + b2n (isListening s') <= b2n (isListening s))%nat.

(** Every completion callback of a command is made by a finalize of it. *)
Definition reports_in_finalize (s : state) (tr : list effect) (s' : state)
  : Prop :=
  (count is_oncomplete tr <= count is_finalize tr)%nat.

(** Handles are fresh and the only silence timer that can be pending is the
    one in the [silenceTimer] slot. *)
Definition wf (s : state) : Prop :=
  rt_fresh (rt s) /\
  forall h d, pending (rt s) !! h = Some (d, KSilence) -> silenceTimer s = Some h.

Definition keeps_wf (s : state) (tr : list effect) (s' : state) : Prop :=
  wf s -> wf s'.

(** Well-formedness can be checked by running over the timer table. *)
#[global] Instance wf_dec (s : state) : Decision (wf s).
Proof.
  refine (cast_if (decide (map_Forall
            (fun h (v : Z * kind) =>
               (h < next_id (rt s))%nat /\
               (v.2 = KSilence -> silenceTimer s = Some h))
            (pending (rt s))))).
  - split.
    + intros h v Hl. exact (proj1 (m h v Hl)).
    + intros h d Hl. exact (proj2 (m h (d, KSilence) Hl) eq_refl).
  - intros [F U]. apply n. intros h [d k] Hl. split.
    + exact (F h (d, k) Hl).
    + simpl. intros ->. exact (U h d Hl).
Defined.

(** When the silence countdown runs out, if it is running. *)
Definition silence_due (s : state) : option Z :=
  match silenceTimer s with
  | Some h =>
      match pending (rt s) !! h with
      | Some (d, KSilence) => Some d
      | _ => None
      end
  | None => None
  end.

(** The silence timer is set with the delay [T] and no silence timer is
    due before [D]. *)
Definition silent_until (T D : Z) (s : state) : Prop :=
  timer_delay (silenceTimeout (cfg s)) = T /\
  forall h d, pending (rt s) !! h = Some (d, KSilence) -> D <= d.

Definition quiet (T D : Z) (s : state) (tr : list effect) (s' : state) : Prop :=
  silent_until T D s ->
  silent_until T D s' /\ count is_silence_timeout tr = 0%nat.

(** The transcript that an effect hands to the application. *)
Definition report_of (x : effect) : option jsstring :=
  match x with OnComplete t => Some t | _ => None end.



End Simple.

(** ** Audio level of one analyser frame *)

(** The numbers of the level computation are JavaScript numbers: IEEE 754
    double-precision floats, with every operation rounded to the nearest
    one, ties to even. *)
Module Double.

Definition t : Type := SpecFloat.spec_float.

Definition prec : Z := 53.
Definition emax : Z := 1024.

(** The number that an integer is: exact up to 2^53. *)
Definition of_int (z : Z) : t := SpecFloat.binary_normalize prec emax z 0 false.

(** [a / b] *)
Definition div (a b : t) : t := SpecFloat.SFdiv prec emax a b.

(** [a > b]: false when one of them is NaN. *)
Definition gtb (a b : t) : bool := SpecFloat.SFltb b a.

(** The number that a decimal literal with the digits [digits] and [scale]
    of them after the point denotes: the double nearest to
    [digits / 10^scale], which is what the division of the two integers
    gives. *)
Definition decimal (digits : Z) (scale : Z) : t :=
  div (of_int digits) (of_int (10 ^ scale)).

End Double.

(** [analyser.fftSize = 256], so [frequencyBinCount] is 128. *)
Definition bufferLength : Z := 128.

(** [dataArray.reduce((sum, value) => sum + value, 0) / bufferLength / 255]
    for the byte values that [getByteFrequencyData] wrote: the sum of the
    bytes is exact, and each of the two divisions rounds. *)
Definition normalizedVolume (dataArray : list N) : Double.t :=
  Double.div
    (Double.div (Double.of_int (Z.of_N (foldl N.add 0%N dataArray)))
                (Double.of_int bufferLength))
    (Double.of_int 255).

(** ** InterruptibleVoiceInput *)

Module Interruptible.

(** The silence timer, the untracked two-second timer of [processResult],
    and the animation frame of [detectInterrupt]. *)
Inductive kind := KSilence | KReset | KFrame.

#[global] Instance kind_eq_dec : EqDecision kind.
Proof. solve_decision. Defined.

Inductive status := Idle | Detecting | Listening | Processing.

#[global] Instance status_eq_dec : EqDecision status.
Proof. solve_decision. Defined.

Record config := Config {
  language : jsstring;
  silenceTimeout : Z;           (* Time to wait before processing *)
  voiceThreshold : Double.t;        (* Volume threshold for voice detection *)
  interruptSensitivity : Double.t   (* How quickly to interrupt AI *)
}.

Definition default_config : config :=
  Config (lit "en-US") 2000 (Double.decimal 2 2) (Double.decimal 15 3).

Record state := State {
  audioContext : bool;          (* non-null *)
  mediaStream : bool;           (* non-null *)
  analyser : bool;              (* non-null *)
  recognition : bool;           (* non-null *)
  isActive : bool;
  isListening : bool;
  isProcessing : bool;
  currentStatus : status;
  cfg : config;
  silenceTimer : option nat;
  animationFrame : option nat;
  finalTranscript : jsstring;
  rt : runtime kind
}.

(** After the constructor: [initialize] created the recognizer when speech
    recognition is supported, and the audio context unless that failed. *)
Definition init (speech audio : bool) (c : config) : state :=
  State audio false false speech false false false Idle c None None []
        rt_init.

Inductive log :=
| LogRecognitionStarted
| LogFinalText (newFinalText : jsstring)
| LogCurrentTranscript (text : jsstring)
| LogRecognitionEnded
| LogRecognitionError (error : jsstring)
| LogStartingSystem
| LogFailedToStart
| LogStoppingSystem
| LogAIStartedSpeaking
| LogUserSpeechDetected
| LogStartingToListen
| LogFailedToStartListening
| LogSilenceTimeout
| LogProcessingFinalResult (result : jsstring)
| LogRestartingDetection.

Inductive effect :=
| Console (l : log)
| OnUserSpeakingDetected       (* Called immediately when user starts speaking *)
| OnUserSpeechStart
| OnUserSpeechEnd (transcript : jsstring)
| OnError (error : jsstring)
| OnStatusChange (s : status)
| RecStart | RecStop | RecAbort
| GetUserMedia                 (* [navigator.mediaDevices.getUserMedia] *)
| StopTracks                   (* [track.stop()] on the media stream *)
| CloseAudioContext.

#[global] Instance log_eq_dec : EqDecision log.
Proof. solve_decision. Defined.
#[global] Instance effect_eq_dec : EqDecision effect.
Proof. solve_decision. Defined.

Abbreviation command := (cmd state effect).

Definition set_audioContext (b : bool) (s : state) : state :=
  State b (mediaStream s) (analyser s) (recognition s) (isActive s)
        (isListening s) (isProcessing s) (currentStatus s) (cfg s)
        (silenceTimer s) (animationFrame s) (finalTranscript s) (rt s).
Definition set_mediaStream (b : bool) (s : state) : state :=
  State (audioContext s) b (analyser s) (recognition s) (isActive s)
        (isListening s) (isProcessing s) (currentStatus s) (cfg s)
        (silenceTimer s) (animationFrame s) (finalTranscript s) (rt s).
Definition set_analyser (b : bool) (s : state) : state :=
  State (audioContext s) (mediaStream s) b (recognition s) (isActive s)
        (isListening s) (isProcessing s) (currentStatus s) (cfg s)
        (silenceTimer s) (animationFrame s) (finalTranscript s) (rt s).
Definition set_isActive (b : bool) (s : state) : state :=
  State (audioContext s) (mediaStream s) (analyser s) (recognition s) b
        (isListening s) (isProcessing s) (currentStatus s) (cfg s)
        (silenceTimer s) (animationFrame s) (finalTranscript s) (rt s).
Definition set_isListening (b : bool) (s : state) : state :=
  State (audioContext s) (mediaStream s) (analyser s) (recognition s)
        (isActive s) b (isProcessing s) (currentStatus s) (cfg s)
        (silenceTimer s) (animationFrame s) (finalTranscript s) (rt s).
Definition set_isProcessing (b : bool) (s : state) : state :=
  State (audioContext s) (mediaStream s) (analyser s) (recognition s)
        (isActive s) (isListening s) b (currentStatus s) (cfg s)
        (silenceTimer s) (animationFrame s) (finalTranscript s) (rt s).
Definition set_currentStatus (c : status) (s : state) : state :=
  State (audioContext s) (mediaStream s) (analyser s) (recognition s)
        (isActive s) (isListening s) (isProcessing s) c (cfg s)
        (silenceTimer s) (animationFrame s) (finalTranscript s) (rt s).
Definition set_silenceTimer (t : option nat) (s : state) : state :=
  State (audioContext s) (mediaStream s) (analyser s) (recognition s)
        (isActive s) (isListening s) (isProcessing s) (currentStatus s)
        (cfg s) t (animationFrame s) (finalTranscript s) (rt s).
Definition set_animationFrame (t : option nat) (s : state) : state :=
  State (audioContext s) (mediaStream s) (analyser s) (recognition s)
        (isActive s) (isListening s) (isProcessing s) (currentStatus s)
        (cfg s) (silenceTimer s) t (finalTranscript s) (rt s).
Definition set_finalTranscript (t : jsstring) (s : state) : state :=
  State (audioContext s) (mediaStream s) (analyser s) (recognition s)
        (isActive s) (isListening s) (isProcessing s) (currentStatus s)
        (cfg s) (silenceTimer s) (animationFrame s) t (rt s).
Definition set_rt (r : runtime kind) (s : state) : state :=
  State (audioContext s) (mediaStream s) (analyser s) (recognition s)
        (isActive s) (isListening s) (isProcessing s) (currentStatus s)
        (cfg s) (silenceTimer s) (animationFrame s) (finalTranscript s) r.

(** [slot = setTimeout(k, due - now)], and [requestAnimationFrame] for the
    kind [KFrame]. *)
Definition setTimeout (due : Z) (k : kind)
    (store : option nat -> state -> state) : command :=
  fun s => let r := rt_set due k (rt s) in
           (store (Some (fst r)) (set_rt (snd r) s), []).

(** [if (this.slot) clearTimeout(this.slot)], or [cancelAnimationFrame]. *)
Definition clearSlot (slot : state -> option nat) : command :=
  modify (fun s => set_rt (rt_clear_opt (slot s) (rt s)) s).

Definition clearTimeout (h : nat) : command :=
  modify (fun s => set_rt (rt_clear h (rt s)) s).

Local Open Scope cmd_scope.

Definition updateStatus (st : status) : command :=
  reading (fun s =>
    if bool_decide (currentStatus s = st) then skip
    else modify (set_currentStatus st) ;; emit (OnStatusChange st)).

Definition resetSilenceTimer (now : Z) : command :=
  clearSlot silenceTimer ;;
  reading (fun s =>
    setTimeout (now + timer_delay (silenceTimeout (cfg s))) KSilence
               set_silenceTimer).

Definition reset : command :=
  modify (set_isListening false) ;;
  modify (set_isProcessing false) ;;
  modify (set_finalTranscript []) ;;
  reading (fun s => updateStatus (if isActive s then Detecting else Idle)) ;;
  clearSlot silenceTimer ;; modify (set_silenceTimer None).

Definition processResult (now : Z) : command :=
  reading (fun s =>
    if isProcessing s then skip
    else
      modify (set_isProcessing true) ;;
      modify (set_isListening false) ;;
      updateStatus Processing ;;
      clearSlot silenceTimer ;; modify (set_silenceTimer None) ;;
      when recognition (emit RecStop) ;;
      (let result := trim (finalTranscript s) in
       emit (Console (LogProcessingFinalResult result)) ;;
       if truthy result then emit (OnUserSpeechEnd result) else skip) ;;
      (* Reset for next interaction *)
      setTimeout (now + 2000) KReset (fun _ s' => s')).

(** What the platform supplies while one event is handled: the time, whether
    [recognition.start()] raises, and the bytes that
    [getByteFrequencyData] writes. *)
Record env := Env { now : Z; start_throws : bool; dataArray : list N }.

Definition startUserListening (e : env) : command :=
  reading (fun s =>
    if isListening s || negb (recognition s) then skip
    else
      emit (Console LogStartingToListen) ;;
      emit OnUserSpeechStart ;;
      emit RecStart ;;
      if start_throws e
      then emit (Console LogFailedToStartListening) ;; reset
      else resetSilenceTimer (now e)).

(** The body of [detectInterrupt]. *)
Definition detectInterrupt (e : env) : command :=
  reading (fun s =>
    if negb (isActive s) || negb (analyser s) then skip
    else if Double.gtb (normalizedVolume (dataArray e))
                 (interruptSensitivity (cfg s))
            && negb (isListening s) && negb (isProcessing s)
    then
      (* User started speaking - interrupt AI and start listening *)
      emit (Console LogUserSpeechDetected) ;;
      emit OnUserSpeakingDetected ;;       (* Tell AI to stop *)
      startUserListening e
    else
      (* Continue monitoring *)
      setTimeout (now e) KFrame set_animationFrame).

Definition startInterruptDetection (e : env) : command :=
  reading (fun s =>
    if negb (analyser s) || negb (isActive s) then skip
    else detectInterrupt e).

Definition cleanup : command :=
  (* Stop animation frame *)
  clearSlot animationFrame ;; modify (set_animationFrame None) ;;
  (* Clear timers *)
  clearSlot silenceTimer ;; modify (set_silenceTimer None) ;;
  (* Stop recognition *)
  when recognition (emit RecAbort) ;;
  (* Close media stream *)
  when mediaStream (emit StopTracks ;; modify (set_mediaStream false)) ;;
  (* Close audio context *)
  when audioContext
    (emit CloseAudioContext ;; modify (set_audioContext false)).

Definition stop : command :=
  emit (Console LogStoppingSystem) ;;
  modify (set_isActive false) ;;
  cleanup ;;
  updateStatus Idle.

(** [start()] up to its [await]. *)
Definition start : command :=
  reading (fun s =>
    if isActive s then skip
    else emit (Console LogStartingSystem) ;; emit GetUserMedia).

(** [start()] after [getUserMedia] settled. *)
Definition start_resume (e : env) (granted : bool) : command :=
  if granted then
    modify (set_mediaStream true) ;;
    when audioContext
      (modify (set_analyser true) ;;
       modify (set_isActive true) ;;
       updateStatus Detecting ;;
       startInterruptDetection e)
  else
    emit (Console LogFailedToStart) ;;
    emit (OnError (lit "Failed to access microphone")).

Definition setAISpeaking (speaking : bool) : command :=
  if speaking
  then emit (Console LogAIStartedSpeaking) ;; updateStatus Detecting
  else skip.

Definition onstart : command :=
  emit (Console LogRecognitionStarted) ;;
  modify (set_isListening true) ;;
  updateStatus Listening ;;
  modify (set_finalTranscript []).

Definition onresult (now : Z) (resultIndex : nat)
    (results : list SpeechResult) : command :=
  let newFinalText := fst (scan_results resultIndex results) in
  let interimTranscript := snd (scan_results resultIndex results) in
  (if truthy newFinalText then
     modify (fun s => set_finalTranscript (finalTranscript s ++ newFinalText) s) ;;
     emit (Console (LogFinalText newFinalText))
   else skip) ;;
  (* Reset silence timer on any speech *)
  resetSilenceTimer now ;;
  reading (fun s =>
    emit (Console (LogCurrentTranscript (finalTranscript s ++ interimTranscript)))).

Definition onend (now : Z) : command :=
  emit (Console LogRecognitionEnded) ;; processResult now.

Definition onerror (error : jsstring) : command :=
  emit (Console (LogRecognitionError error)) ;;
  emit (OnError error) ;;
  reset ;;
  (* Don't restart if permission was denied *)
  if str_eqb error (lit "not-allowed") then stop else skip.

Definition timer_callback (e : env) (k : kind) : command :=
  match k with
  | KSilence => emit (Console LogSilenceTimeout) ;; processResult (now e)
  | KReset =>
      reset ;;
      when isActive
        (emit (Console LogRestartingDetection) ;; startInterruptDetection e)
  | KFrame => detectInterrupt e
  end.

(** The timer or animation frame with handle [h] fires. *)
Definition fire (e : env) (h : nat) : command :=
  reading (fun s =>
    match pending (rt s) !! h with
    | Some (due, k) =>
        if due <=? now e then clearTimeout h ;; timer_callback e k else skip
    | None => skip
    end).

Inductive event :=
| EvStart
| EvResult (resultIndex : nat) (results : list SpeechResult)
| EvEnd
| EvError (error : jsstring)
| EvTimer (h : nat)
| EvUserMedia (granted : bool)
| CallStart | CallStop
| CallSetAISpeaking (speaking : bool).

Definition step (e : env) (ev : event) : command :=
  match ev with
  | EvStart => when recognition onstart
  | EvResult i rs => when recognition (onresult (now e) i rs)
  | EvEnd => when recognition (onend (now e))
  | EvError err => when recognition (onerror err)
  | EvTimer h => fire e h
  | EvUserMedia granted => start_resume e granted
  | CallStart => start
  | CallStop => stop
  | CallSetAISpeaking b => setAISpeaking b
  end.

Definition run := run_events step.
(** The ideal loop drives the timers; animation frames are events of their
    own, with the bytes they sample. *)
Definition play :=
  play_events rt (fun k => negb (bool_decide (k = KFrame))) now
       (fun t => Env t false []) fire step.
Definition idle_until :=
  settled rt (fun k => negb (bool_decide (k = KFrame))).

(** *** Vocabulary of the properties *)

(** The finalize path is [processResult] past its guard: it writes the
    console line "Processing final result". *)
Definition is_finalize (x : effect) : bool :=
  match x with Console (LogProcessingFinalResult _) => true | _ => false end.
Definition is_speech_end (x : effect) : bool :=
  match x with OnUserSpeechEnd _ => true | _ => false end.
Definition is_console (x : effect) : bool :=
  match x with Console _ => true | _ => false end.
Definition is_detected (x : effect) : bool :=
  match x with OnUserSpeakingDetected => true | _ => false end.
Definition is_silence_timeout (x : effect) : bool :=
  match x with Console LogSilenceTimeout => true | _ => false end.

(** When the finalize path ran, in a timed trace. *)
Definition finalize_times (tl : list (Z * effect)) : list Z :=
  map fst (List.filter (fun x => is_finalize (snd x)) tl).

(** The class has no maximum-duration timer: its finalize triggers are the
    silence timer and the recognizer's end event. *)
Inductive trigger := SilenceTimeout | PlatformEnd.

Definition pull (e : env) (t : trigger) : command :=
  match t with
  | SilenceTimeout => timer_callback e KSilence
  | PlatformEnd => onend (now e)
  end.

Definition pulls := run_events pull.

(** What [processResult] does past its guard. *)
Definition processed (now : Z) (s : state) : state :=
  State (audioContext s) (mediaStream s) (analyser s) (recognition s)
        (isActive s) false true Processing (cfg s) None (animationFrame s)
        (finalTranscript s)
        (snd (rt_set (now + 2000) KReset
                (rt_clear_opt (silenceTimer s) (rt s)))).

Definition process_trace (s : state) : list effect :=
  (if bool_decide (currentStatus s = Processing) then []
   else [OnStatusChange Processing])
  ++ (if recognition s then [RecStop] else [])
  ++ Console (LogProcessingFinalResult (trim (finalTranscript s)))
  :: (if truthy (trim (finalTranscript s))
      then [OnUserSpeechEnd (trim (finalTranscript s))] else []).

(** The level of a frame is above the interrupt threshold. *)
Definition loud (s : state) (e : env) : bool :=
  Double.gtb (normalizedVolume (dataArray e)) (interruptSensitivity (cfg s)).

(** The condition under which a frame raises the barge-in signal. *)
Definition fired (s : state) (e : env) : bool :=
  isActive s && analyser s && loud s e && negb (isListening s)
  && negb (isProcessing s).

(** In a trace, every [recognition.start()] comes after a
    user-speaking-detected signal. *)
Fixpoint ordered_from (seen : bool) (tr : list effect) : bool :=
  match tr with
  | [] => true
  | OnUserSpeakingDetected :: tr' => ordered_from true tr'
  | RecStart :: tr' => seen && ordered_from seen tr'
  | _ :: tr' => ordered_from seen tr'
  end.

Definition signal_first (tr : list effect) : Prop :=
  forall pre post, tr = pre ++ RecStart :: post ->
                   In OnUserSpeakingDetected pre.

Definition ordered (s : state) (tr : list effect) (s' : state) : Prop :=
  ordered_from false tr = true.

(** The status events of a trace, in order. *)
Fixpoint statuses (tr : list effect) : list status :=
  match tr with
  | [] => []
  | OnStatusChange st :: tr' => st :: statuses tr'
  | _ :: tr' => statuses tr'
  end.

(** No element of [l] equals the one before it, [prev] coming first. *)
Fixpoint changes (prev : status) (l : list status) : Prop :=
  match l with
  | [] => True
  | st :: l' => prev <> st /\ changes st l'
  end.

(** The last element of [l], or [prev] when there is none. *)
Fixpoint last_status (prev : status) (l : list status) : status :=
  match l with
  | [] => prev
  | st :: l' => last_status st l'
  end.

(** The emitted statuses change at every event and lead from the status
    before the command to the status after it. *)
Definition status_chain (s : state) (tr : list effect) (s' : state) : Prop :=
  changes (currentStatus s) (statuses tr) /\
  last_status (currentStatus s) (statuses tr) = currentStatus s'.

(** A sequence of internal status updates. *)
Fixpoint updates (l : list status) : command :=
  match l with
  | [] => skip
  | st :: l' => updateStatus st ;; updates l'
  end.

Definition wf (s : state) : Prop :=
  rt_fresh (rt s) /\
  forall h d, pending (rt s) !! h = Some (d, KSilence) -> silenceTimer s = Some h.

Definition keeps_wf (s : state) (tr : list effect) (s' : state) : Prop :=
  wf s -> wf s'.

(** Well-formedness can be checked by running over the timer table. *)
#[global] Instance wf_dec (s : state) : Decision (wf s).
Proof.
  refine (cast_if (decide (map_Forall
            (fun h (v : Z * kind) =>
               (h < next_id (rt s))%nat /\
               (v.2 = KSilence -> silenceTimer s = Some h))
            (pending (rt s))))).
  - split.
    + intros h v Hl. exact (proj1 (m h v Hl)).
    + intros h d Hl. exact (proj2 (m h (d, KSilence) Hl) eq_refl).
  - intros [F U]. apply n. intros h [d k] Hl. split.
    + exact (F h (d, k) Hl).
    + simpl. intros ->. exact (U h d Hl).
Defined.

Definition silence_due (s : state) : option Z :=
  match silenceTimer s with
  | Some h =>
      match pending (rt s) !! h with
      | Some (d, KSilence) => Some d
      | _ => None
      end
  | None => None
  end.

Definition silent_until (T D : Z) (s : state) : Prop :=
  timer_delay (silenceTimeout (cfg s)) = T /\
  forall h d, pending (rt s) !! h = Some (d, KSilence) -> D <= d.

Definition quiet (T D : Z) (s : state) (tr : list effect) (s' : state) : Prop :=
  silent_until T D s ->
  silent_until T D s' /\ count is_silence_timeout tr = 0%nat.

(** The transcript that an effect hands to the application. *)
Definition report_of (x : effect) : option jsstring :=
  match x with OnUserSpeechEnd t => Some t | _ => None end.

Definition is_recstart (x : effect) : bool :=
  match x with RecStart => true | _ => false end.

(** The service is shut down: not active, and its audio context gone. *)
Definition shut (s : state) : Prop :=
  audioContext s = false /\ isActive s = false.

(** A service that is shut down stays so, starts no recognizer and raises
    no barge-in signal. *)
Definition stays_shut (s : state) (tr : list effect) (s' : state) : Prop :=
  shut s ->
  shut s' /\ count is_recstart tr = 0%nat /\ count is_detected tr = 0%nat.



(** Every speech-end callback of a command is made by a finalize of it. *)
Definition reports_in_finalize (s : state) (tr : list effect) (s' : state)
  : Prop :=
  (count is_speech_end tr <= count is_finalize tr)%nat.

(** A command that does not enter the finalize path. *)
Definition no_finalize (s : state) (tr : list effect) (s' : state) : Prop :=
  count is_finalize tr = 0%nat.

(** A command that neither enters the finalize path nor clears a
    processing flag that is set. *)
Definition keeps_processing (s : state) (tr : list effect) (s' : state)
  : Prop :=
  count is_finalize tr = 0%nat /\
  (isProcessing s = true -> isProcessing s' = true).

(** The state with another [voiceThreshold]. *)
Definition with_voiceThreshold (q : Double.t) (s : state) : state :=
  State (audioContext s) (mediaStream s) (analyser s) (recognition s)
        (isActive s) (isListening s) (isProcessing s) (currentStatus s)
        (Config (language (cfg s)) (silenceTimeout (cfg s)) q
                (interruptSensitivity (cfg s)))
        (silenceTimer s) (animationFrame s) (finalTranscript s) (rt s).

(** The status says no more than the flags hold: listening only while the
    listening flag is set, processing only while the processing flag is
    set and the listening flag is not. *)
Definition status_sound (s : state) : Prop :=
  (currentStatus s = Listening -> isListening s = true) /\
  (currentStatus s = Processing ->
   isProcessing s = true /\ isListening s = false).

End Interruptible.

(** ** ReliableVoiceInput *)

Module Reliable.

Inductive kind := KTimeout.

Record config := Config { language : jsstring; maxDuration : Z }.

Definition default_config : config := Config (lit "en-US") 10000.

Record state := State {
  supported : bool;             (* [ReliableVoiceInput.isSupported()] *)
  recognition : bool;           (* non-null *)
  isListening : bool;
  isEnabled : bool;
  cfg : config;
  timeoutTimer : option nat;
  rt : runtime kind
}.

(** After the constructor; [created] tells whether
    [new SpeechRecognition()] succeeded. *)
Definition init (supported created : bool) (c : config) : state :=
  State supported (supported && created) false true c None rt_init.

Inductive log :=
| LogStartedListening
| LogGotResult
| LogFinalTranscript (finalTranscript : jsstring)
| LogRecognitionEnded
| LogError (error : jsstring)
| LogTimeoutReached
| LogHandlingResult (transcript : jsstring)
| LogHandlingError (error : jsstring)
| LogCannotStart
| LogStartingSession
| LogFailedToStart
| LogStopping
| LogStopError
| LogAborting
| LogAbortError
| LogEnabled
| LogDisabled.

Inductive effect :=
| Console (l : log)
| OnListeningStart
| OnListeningEnd
| OnSpeechResult (transcript : jsstring)
| OnError (error : jsstring)
| RecStart | RecStop | RecAbort.

#[global] Instance log_eq_dec : EqDecision log.
Proof. solve_decision. Defined.
#[global] Instance effect_eq_dec : EqDecision effect.
Proof. solve_decision. Defined.

Abbreviation command := (cmd state effect).

Definition set_isListening (b : bool) (s : state) : state :=
  State (supported s) (recognition s) b (isEnabled s) (cfg s)
        (timeoutTimer s) (rt s).
Definition set_isEnabled (b : bool) (s : state) : state :=
  State (supported s) (recognition s) (isListening s) b (cfg s)
        (timeoutTimer s) (rt s).
Definition set_timeoutTimer (t : option nat) (s : state) : state :=
  State (supported s) (recognition s) (isListening s) (isEnabled s) (cfg s)
        t (rt s).
Definition set_rt (r : runtime kind) (s : state) : state :=
  State (supported s) (recognition s) (isListening s) (isEnabled s) (cfg s)
        (timeoutTimer s) r.

Definition setTimeout (due : Z) (k : kind)
    (store : option nat -> state -> state) : command :=
  fun s => let r := rt_set due k (rt s) in
           (store (Some (fst r)) (set_rt (snd r) s), []).

Definition clearSlot (slot : state -> option nat) : command :=
  modify (fun s => set_rt (rt_clear_opt (slot s) (rt s)) s).

Definition clearTimeout (h : nat) : command :=
  modify (fun s => set_rt (rt_clear h (rt s)) s).

Local Open Scope cmd_scope.

(** The time, and whether the calls on the recognizer raise. *)
Record env := Env {
  now : Z; start_throws : bool; stop_throws : bool; abort_throws : bool
}.

Definition startTimeout (now : Z) : command :=
  reading (fun s =>
    setTimeout (now + maxDuration (cfg s)) KTimeout set_timeoutTimer).

Definition cleanup : command :=
  modify (set_isListening false) ;;
  emit OnListeningEnd ;;
  clearSlot timeoutTimer ;; modify (set_timeoutTimer None).

Definition handleResult (transcript : jsstring) : command :=
  emit (Console (LogHandlingResult transcript)) ;;
  cleanup ;;
  emit (OnSpeechResult transcript).

Definition msg_denied : jsstring :=
  lit "Microphone access denied. Please enable microphone permissions in your browser settings.".
Definition msg_no_speech : jsstring :=
  lit "No speech detected. Please try speaking louder or closer to the microphone.".

Definition handleError (error : jsstring) : command :=
  emit (Console (LogHandlingError error)) ;;
  cleanup ;;
  if str_eqb error (lit "not-allowed") then
    modify (set_isEnabled false) ;; emit (OnError msg_denied)
  else if str_eqb error (lit "no-speech") then
    emit (OnError msg_no_speech)
  else emit (OnError error).

Definition startListening (e : env) : command :=
  reading (fun s =>
    if negb (isEnabled s) || negb (supported s) || isListening s then
      emit (Console LogCannotStart)
    else
      emit (Console LogStartingSession) ;;
      when recognition
        (emit RecStart ;;
         if start_throws e then
           emit (Console LogFailedToStart) ;;
           emit (OnError (lit "Failed to start voice recognition"))
         else skip)).

Definition stop (e : env) : command :=
  reading (fun s =>
    if negb (isListening s) then skip
    else
      emit (Console LogStopping) ;;
      when recognition
        (emit RecStop ;;
         if stop_throws e then emit (Console LogStopError) else skip)).

Definition abort (e : env) : command :=
  emit (Console LogAborting) ;;
  cleanup ;;
  when recognition
    (emit RecAbort ;;
     if abort_throws e then emit (Console LogAbortError) else skip).

Definition enable : command :=
  emit (Console LogEnabled) ;; modify (set_isEnabled true).

Definition disable (e : env) : command :=
  emit (Console LogDisabled) ;; modify (set_isEnabled false) ;; stop e.

Definition onstart (now : Z) : command :=
  emit (Console LogStartedListening) ;;
  modify (set_isListening true) ;;
  emit OnListeningStart ;;
  startTimeout now.

(** The loop of this handler starts at index 0 and keeps the final
    results only. *)
Definition onresult (results : list SpeechResult) : command :=
  let finalTranscript := fst (collect results [] []) in
  emit (Console LogGotResult) ;;
  emit (Console (LogFinalTranscript finalTranscript)) ;;
  if truthy (trim finalTranscript)
  then handleResult (trim finalTranscript) else skip.

Definition onend : command :=
  emit (Console LogRecognitionEnded) ;; cleanup.

Definition onerror (error : jsstring) : command :=
  emit (Console (LogError error)) ;; handleError error.

Definition timer_callback (e : env) (k : kind) : command :=
  match k with
  | KTimeout => emit (Console LogTimeoutReached) ;; stop e
  end.

Definition fire (e : env) (h : nat) : command :=
  reading (fun s =>
    match pending (rt s) !! h with
    | Some (due, k) =>
        if due <=? now e then clearTimeout h ;; timer_callback e k else skip
    | None => skip
    end).

Inductive event :=
| EvStart
| EvResult (results : list SpeechResult)
| EvEnd
| EvError (error : jsstring)
| EvTimer (h : nat)
| CallStartListening | CallStop | CallAbort | CallEnable | CallDisable.

Definition step (e : env) (ev : event) : command :=
  match ev with
  | EvStart => when recognition (onstart (now e))
  | EvResult rs => when recognition (onresult rs)
  | EvEnd => when recognition onend
  | EvError err => when recognition (onerror err)
  | EvTimer h => fire e h
  | CallStartListening => startListening e
  | CallStop => stop e
  | CallAbort => abort e
  | CallEnable => enable
  | CallDisable => disable e
  end.

Definition run := run_events step.

(** *** Vocabulary of the properties *)

Definition is_recstart (x : effect) : bool :=
  match x with RecStart => true | _ => false end.

Definition is_enable (x : env * event) : bool :=
  match x.2 with CallEnable => true | _ => false end.

(** The state after the platform's not-allowed error. *)
Definition denied (e : env) (s : state) : state :=
  fst (step e (EvError (lit "not-allowed")) s).

(** While voice input is disabled it stays disabled and the recognizer is
    not started. *)
Definition disabled (s : state) (tr : list effect) (s' : state) : Prop :=
  isEnabled s = false ->
  isEnabled s' = false /\ count is_recstart tr = 0%nat.

(** The transcript that an effect hands to the application. *)
Definition report_of (x : effect) : option jsstring :=
  match x with OnSpeechResult t => Some t | _ => None end.

Definition is_listening_end (x : effect) : bool :=
  match x with OnListeningEnd => true | _ => false end.
Definition is_speech_result (x : effect) : bool :=
  match x with OnSpeechResult _ => true | _ => false end.

(** The events whose handler runs [cleanup]: the end and error events of
    the recognizer, a result event with final text, and [abort()]. *)
Definition ends_session (ev : event) : bool :=
  match ev with
  | EvEnd | EvError _ | CallAbort => true
  | EvResult rs => truthy (trim (fst (collect rs [] [])))
  | _ => false
  end.

End Reliable.

(** ** VoiceActivityDetection *)

Module Vad.

(** The max-listen timer, the untracked restart timers of [handleVoiceEnd]
    (2000 ms) and of [onend] (100 ms), and the animation frame of
    [detectVoice]. *)
Inductive kind := KMaxListen | KRestartDetection | KEndRestart | KFrame.

#[global] Instance kind_eq_dec : EqDecision kind.
Proof. solve_decision. Defined.

Record config := Config {
  threshold : Double.t;   (* Volume threshold for voice detection *)
  debounceTime : Z;       (* Time to wait before stopping listening *)
  maxListenTime : Z;      (* Maximum continuous listening time *)
  sampleRate : Z          (* Audio sample rate *)
}.

Definition default_config : config :=
  Config (Double.decimal 1 2) 2000 10000 44100.

Record state := State {
  supported : bool;             (* [VoiceActivityDetection.isSupported()] *)
  audioContext : bool;
  mediaStream : bool;
  analyser : bool;
  recognition : bool;
  isActive : bool;
  isListening : bool;
  debounceTimer : option nat;
  maxListenTimer : option nat;
  animationFrame : option nat;
  cfg : config;
  finalTranscript : jsstring;   (* the variable closed over by [onresult] *)
  rt : runtime kind
}.

(** After the constructor: [initializeServices] creates the audio context
    first and the recognizer after it, inside one [try]. *)
Definition init (supported audio speech : bool) (c : config) : state :=
  State supported audio false false (audio && speech) false false
        None None None c [] rt_init.

Inductive log :=
| LogSpeechResult (currentFinal interimTranscript : jsstring)
| LogProcessingFinal (text : jsstring)
| LogProcessingInterim (text : jsstring)
| LogRecognitionError (error : jsstring)
| LogFailedToStart
| LogStartingRecognition
| LogFailedToStartRecognition
| LogMaxListenTime
| LogHandlingVoiceEnd (transcript : jsstring)
| LogSendingTranscript (text : jsstring)
| LogRestartingDetection.

Inductive effect :=
| Console (l : log)
| OnVoiceStart
| OnVoiceEnd (transcript : jsstring)
| OnListening (isListening : bool)
| OnError (error : jsstring)
| Raise (message : jsstring)        (* [throw new Error(message)] *)
| RecStart | RecStop
| GetUserMedia | StopTracks | CloseAudioContext.

#[global] Instance log_eq_dec : EqDecision log.
Proof. solve_decision. Defined.
#[global] Instance effect_eq_dec : EqDecision effect.
Proof. solve_decision. Defined.

Abbreviation command := (cmd state effect).

Definition set_audioContext (b : bool) (s : state) : state :=
  State (supported s) b (mediaStream s) (analyser s) (recognition s)
        (isActive s) (isListening s) (debounceTimer s) (maxListenTimer s)
        (animationFrame s) (cfg s) (finalTranscript s) (rt s).
Definition set_mediaStream (b : bool) (s : state) : state :=
  State (supported s) (audioContext s) b (analyser s) (recognition s)
        (isActive s) (isListening s) (debounceTimer s) (maxListenTimer s)
        (animationFrame s) (cfg s) (finalTranscript s) (rt s).
Definition set_analyser (b : bool) (s : state) : state :=
  State (supported s) (audioContext s) (mediaStream s) b (recognition s)
        (isActive s) (isListening s) (debounceTimer s) (maxListenTimer s)
        (animationFrame s) (cfg s) (finalTranscript s) (rt s).
Definition set_isActive (b : bool) (s : state) : state :=
  State (supported s) (audioContext s) (mediaStream s) (analyser s)
        (recognition s) b (isListening s) (debounceTimer s)
        (maxListenTimer s) (animationFrame s) (cfg s) (finalTranscript s)
        (rt s).
Definition set_isListening (b : bool) (s : state) : state :=
  State (supported s) (audioContext s) (mediaStream s) (analyser s)
        (recognition s) (isActive s) b (debounceTimer s) (maxListenTimer s)
        (animationFrame s) (cfg s) (finalTranscript s) (rt s).
Definition set_debounceTimer (t : option nat) (s : state) : state :=
  State (supported s) (audioContext s) (mediaStream s) (analyser s)
        (recognition s) (isActive s) (isListening s) t (maxListenTimer s)
        (animationFrame s) (cfg s) (finalTranscript s) (rt s).
Definition set_maxListenTimer (t : option nat) (s : state) : state :=
  State (supported s) (audioContext s) (mediaStream s) (analyser s)
        (recognition s) (isActive s) (isListening s) (debounceTimer s) t
        (animationFrame s) (cfg s) (finalTranscript s) (rt s).
Definition set_animationFrame (t : option nat) (s : state) : state :=
  State (supported s) (audioContext s) (mediaStream s) (analyser s)
        (recognition s) (isActive s) (isListening s) (debounceTimer s)
        (maxListenTimer s) t (cfg s) (finalTranscript s) (rt s).
Definition set_finalTranscript (t : jsstring) (s : state) : state :=
  State (supported s) (audioContext s) (mediaStream s) (analyser s)
        (recognition s) (isActive s) (isListening s) (debounceTimer s)
        (maxListenTimer s) (animationFrame s) (cfg s) t (rt s).
Definition set_rt (r : runtime kind) (s : state) : state :=
  State (supported s) (audioContext s) (mediaStream s) (analyser s)
        (recognition s) (isActive s) (isListening s) (debounceTimer s)
        (maxListenTimer s) (animationFrame s) (cfg s) (finalTranscript s) r.

Definition setTimeout (due : Z) (k : kind)
    (store : option nat -> state -> state) : command :=
  fun s => let r := rt_set due k (rt s) in
           (store (Some (fst r)) (set_rt (snd r) s), []).

Definition clearSlot (slot : state -> option nat) : command :=
  modify (fun s => set_rt (rt_clear_opt (slot s) (rt s)) s).

Definition clearTimeout (h : nat) : command :=
  modify (fun s => set_rt (rt_clear h (rt s)) s).

Local Open Scope cmd_scope.

Record env := Env { now : Z; start_throws : bool; dataArray : list N }.

Definition stopListening : command :=
  reading (fun s =>
    if negb (isListening s) then skip
    else
      modify (set_isListening false) ;;
      when recognition (emit RecStop) ;;
      clearSlot maxListenTimer ;; modify (set_maxListenTimer None)).

Definition handleVoiceEnd (now : Z) (transcript : jsstring) : command :=
  emit (Console (LogHandlingVoiceEnd transcript)) ;;
  stopListening ;;
  (* Clear any existing debounce timer *)
  clearSlot debounceTimer ;;
  (* Process immediately if we have a transcript *)
  (if truthy (trim transcript) then
     emit (Console (LogSendingTranscript (trim transcript))) ;;
     emit (OnVoiceEnd (trim transcript))
   else skip) ;;
  (* Restart voice detection after processing *)
  setTimeout (now + 2000) KRestartDetection (fun _ s' => s').

Definition startListening (e : env) : command :=
  reading (fun s =>
    if isListening s || negb (recognition s) then skip
    else
      emit (Console LogStartingRecognition) ;;
      modify (set_isListening true) ;;
      emit OnVoiceStart ;;
      emit RecStart ;;
      if start_throws e then
        emit (Console LogFailedToStartRecognition) ;; stopListening
      else
        (* Set maximum listening time *)
        reading (fun s' =>
          setTimeout (now e + maxListenTime (cfg s')) KMaxListen
                     set_maxListenTimer)).

(** The body of [detectVoice]. *)
Definition detectVoice (e : env) : command :=
  reading (fun s =>
    if negb (isActive s) || negb (analyser s) then skip
    else
      (* Voice detected *)
      (if Double.gtb (normalizedVolume (dataArray e)) (threshold (cfg s))
          && negb (isListening s)
       then startListening e else skip) ;;
      (* Continue monitoring *)
      setTimeout (now e) KFrame set_animationFrame).

Definition startVoiceDetection (e : env) : command :=
  reading (fun s =>
    if negb (analyser s) || negb (isActive s) then skip
    else detectVoice e).

(** [/[.!?]$/.test(s)] *)
Definition ends_with_terminator (s : jsstring) : bool :=
  match last s with Some c => is_terminator c | None => false end.

Definition onresult (now : Z) (resultIndex : nat)
    (results : list SpeechResult) : command :=
  let currentFinal := fst (scan_results resultIndex results) in
  let interimTranscript := snd (scan_results resultIndex results) in
  modify (fun s => set_finalTranscript (finalTranscript s ++ currentFinal) s) ;;
  emit (Console (LogSpeechResult currentFinal interimTranscript)) ;;
  (* If we have a final result, process it immediately *)
  if truthy (trim currentFinal) then
    emit (Console (LogProcessingFinal (trim currentFinal))) ;;
    handleVoiceEnd now (trim currentFinal)
  else if truthy (trim interimTranscript)
          && (10 <? length (trim interimTranscript))%nat
          && ends_with_terminator (trim interimTranscript)
  then
    emit (Console (LogProcessingInterim (trim interimTranscript))) ;;
    handleVoiceEnd now (trim interimTranscript)
  else skip.

Definition onerror (error : jsstring) : command :=
  emit (Console (LogRecognitionError error)) ;;
  emit (OnError error) ;;
  stopListening.

Definition onend (now : Z) : command :=
  reading (fun s =>
    if isActive s && negb (isListening s)
    then setTimeout (now + 100) KEndRestart (fun _ s' => s')
    else skip).

Definition cleanup : command :=
  clearSlot animationFrame ;; modify (set_animationFrame None) ;;
  clearSlot debounceTimer ;; modify (set_debounceTimer None) ;;
  clearSlot maxListenTimer ;; modify (set_maxListenTimer None) ;;
  when recognition (emit RecStop) ;;
  when mediaStream (emit StopTracks ;; modify (set_mediaStream false)) ;;
  when audioContext
    (emit CloseAudioContext ;; modify (set_audioContext false)).

Definition stop : command :=
  modify (set_isActive false) ;;
  stopListening ;;
  cleanup ;;
  emit (OnListening false).

(** [start()] up to its [await]. *)
Definition start : command :=
  reading (fun s =>
    if negb (supported s)
    then emit (Raise (lit "Voice Activity Detection not supported"))
    else emit GetUserMedia).

(** [start()] after [getUserMedia] settled. *)
Definition start_resume (e : env) (granted : bool) : command :=
  if granted then
    modify (set_mediaStream true) ;;
    when audioContext
      (modify (set_analyser true) ;;
       modify (set_isActive true) ;;
       startVoiceDetection e ;;
       emit (OnListening true))
  else
    emit (Console LogFailedToStart) ;;
    emit (OnError (lit "Failed to access microphone")).

Definition timer_callback (e : env) (k : kind) : command :=
  match k with
  | KMaxListen =>
      emit (Console LogMaxListenTime) ;;
      when isListening
        (stopListening ;;
         (* Force end with empty transcript if no speech was captured *)
         handleVoiceEnd (now e) [])
  | KRestartDetection =>
      when isActive
        (emit (Console LogRestartingDetection) ;; startVoiceDetection e)
  | KEndRestart => when isActive (startVoiceDetection e)
  | KFrame => detectVoice e
  end.

Definition fire (e : env) (h : nat) : command :=
  reading (fun s =>
    match pending (rt s) !! h with
    | Some (due, k) =>
        if due <=? now e then clearTimeout h ;; timer_callback e k else skip
    | None => skip
    end).

Inductive event :=
| EvResult (resultIndex : nat) (results : list SpeechResult)
| EvEnd
| EvError (error : jsstring)
| EvTimer (h : nat)
| EvUserMedia (granted : bool)
| CallStart | CallStop.

Definition step (e : env) (ev : event) : command :=
  match ev with
  | EvResult i rs => when recognition (onresult (now e) i rs)
  | EvEnd => when recognition (onend (now e))
  | EvError err => when recognition (onerror err)
  | EvTimer h => fire e h
  | EvUserMedia granted => start_resume e granted
  | CallStart => start
  | CallStop => stop
  end.

Definition run := run_events step.

(** *** Vocabulary of the properties *)

Definition is_voice_start (x : effect) : bool :=
  match x with OnVoiceStart => true | _ => false end.

(** The frames of the detection loop, as the callback they run. *)
Definition frames := run_events (fun (e : env) (_ : unit) => detectVoice e).

(** The level of a frame is above the detection threshold. *)
Definition loud (s : state) (e : env) : bool :=
  Double.gtb (normalizedVolume (dataArray e)) (threshold (cfg s)).

(** The condition under which a frame raises the voice-start signal. *)
Definition fired (s : state) (e : env) : bool :=
  isActive s && analyser s && loud s e && negb (isListening s)
  && recognition s.

(** The service can raise the signal: it is active and has an analyser
    and a recognizer. *)
Definition equipped (s : state) : bool :=
  isActive s && analyser s && recognition s.

(** The transcript that an effect hands to the application. *)
Definition report_of (x : effect) : option jsstring :=
  match x with OnVoiceEnd t => Some t | _ => None end.

Definition is_recstart (x : effect) : bool :=
  match x with RecStart => true | _ => false end.

(** The service is shut down: not active, and its audio context gone. *)
Definition shut (s : state) : Prop :=
  audioContext s = false /\ isActive s = false.

(** A service that is shut down stays so, starts no recognizer and raises
    no voice-start signal. *)
Definition stays_shut (s : state) (tr : list effect) (s' : state) : Prop :=
  shut s ->
  shut s' /\ count is_recstart tr = 0%nat /\ count is_voice_start tr = 0%nat.

Definition is_frame (k : kind) : bool :=
  match k with KFrame => true | _ => false end.

(** The two timers whose callback calls [startVoiceDetection]. *)
Definition is_restart (k : kind) : bool :=
  match k with KRestartDetection | KEndRestart => true | _ => false end.

(** How many animation frames are pending: one for every [detectVoice]
    loop that is running. *)
Definition frames_pending (s : state) : nat :=
  count (fun x : nat * (Z * kind) => is_frame x.2.2)
        (map_to_list (pending (rt s))).

(** The state with another [debounceTime] and [sampleRate]. *)
Definition with_unread (debounce rate : Z) (s : state) : state :=
  State (supported s) (audioContext s) (mediaStream s) (analyser s)
        (recognition s) (isActive s) (isListening s) (debounceTimer s)
        (maxListenTimer s) (animationFrame s)
        (Config (threshold (cfg s)) debounce (maxListenTime (cfg s)) rate)
        (finalTranscript s) (rt s).

End Vad.

(** ** TTSService *)

Module Tts.

(** A JavaScript number: a rational, an infinity, or NaN. *)
Inductive jsnum := Num (q : Q) | PosInf | NegInf | NaN.

(** [Math.min(a, b)] *)
Definition math_min (a b : jsnum) : jsnum :=
  match a, b with
  | NaN, _ | _, NaN => NaN
  | NegInf, _ | _, NegInf => NegInf
  | PosInf, x | x, PosInf => x
  | Num p, Num q => if Qle_bool p q then Num p else Num q
  end.

(** [Math.max(a, b)] *)
Definition math_max (a b : jsnum) : jsnum :=
  match a, b with
  | NaN, _ | _, NaN => NaN
  | PosInf, _ | _, PosInf => PosInf
  | NegInf, x | x, NegInf => x
  | Num p, Num q => if Qle_bool p q then Num q else Num p
  end.

Record config := Config {
  enabled : bool;
  rate : jsnum;
  pitch : jsnum;
  volume : jsnum;
  voice : option nat            (* index into [voices], when one is chosen *)
}.

Definition default_config : config :=
  Config true (Num (9 # 10)) (Num 1) (Num (8 # 10)) None.

Record utterance := Utterance {
  u_text : jsstring;
  u_rate : jsnum;
  u_pitch : jsnum;
  u_volume : jsnum;
  u_voice : option nat
}.

Record state := State {
  cfg : config;
  synthesis : bool;                      (* [this.synthesis !== null] *)
  currentUtterance : option utterance;
  (* the platform's [speechSynthesis]: its utterance queue, the head being
     spoken, and whether it is paused *)
  queue : list utterance;
  paused : bool
}.

Definition init (available : bool) (c : config) : state :=
  State c available None [] false.

Inductive effect :=
| SynthCancel
| SynthSpeak (u : utterance)
| SynthPause
| SynthResume
| Resolved                          (* the promise of [speak] resolves *)
| Rejected.                         (* the promise of [speak] rejects *)

Abbreviation command := (cmd state effect).

Definition set_cfg (c : config) (s : state) : state :=
  State c (synthesis s) (currentUtterance s) (queue s) (paused s).
Definition set_currentUtterance (u : option utterance) (s : state) : state :=
  State (cfg s) (synthesis s) u (queue s) (paused s).
Definition set_queue (q : list utterance) (s : state) : state :=
  State (cfg s) (synthesis s) (currentUtterance s) q (paused s).
Definition set_paused (b : bool) (s : state) : state :=
  State (cfg s) (synthesis s) (currentUtterance s) (queue s) b.

Definition set_enabled (b : bool) (c : config) : config :=
  Config b (rate c) (pitch c) (volume c) (voice c).
Definition set_rate (r : jsnum) (c : config) : config :=
  Config (enabled c) r (pitch c) (volume c) (voice c).
Definition set_pitch (r : jsnum) (c : config) : config :=
  Config (enabled c) (rate c) r (volume c) (voice c).
Definition set_volume (r : jsnum) (c : config) : config :=
  Config (enabled c) (rate c) (pitch c) r (voice c).

Local Open Scope cmd_scope.

(** [speechSynthesis.speaking] *)
Definition isSpeaking (s : state) : bool :=
  synthesis s && match queue s with [] => false | _ :: _ => true end.

(** [synthesis.cancel()] removes every utterance from the queue and leaves
    the paused state as it is. *)
Definition stop : command :=
  when synthesis
    (emit SynthCancel ;;
     modify (set_queue []) ;;
     modify (set_currentUtterance None)).

Definition pause : command :=
  reading (fun s =>
    if isSpeaking s && negb (paused s)
    then emit SynthPause ;; modify (set_paused true) else skip).

Definition resume : command :=
  reading (fun s =>
    if synthesis s && paused s
    then emit SynthResume ;; modify (set_paused false) else skip).

Definition setRate (rate : jsnum) : command :=
  modify (fun s =>
    set_cfg (set_rate (math_max (Num (1 # 10)) (math_min (Num 10) rate))
                      (cfg s)) s).

Definition setPitch (pitch : jsnum) : command :=
  modify (fun s =>
    set_cfg (set_pitch (math_max (Num 0) (math_min (Num 2) pitch)) (cfg s)) s).

Definition setVolume (volume : jsnum) : command :=
  modify (fun s =>
    set_cfg (set_volume (math_max (Num 0) (math_min (Num 1) volume))
                        (cfg s)) s).

Definition enable : command :=
  modify (fun s => set_cfg (set_enabled true (cfg s)) s).

Definition disable : command :=
  modify (fun s => set_cfg (set_enabled false (cfg s)) s) ;; stop.

(** [toggle()]; it returns the flag that it leaves. *)
Definition toggle : command :=
  modify (fun s => set_cfg (set_enabled (negb (enabled (cfg s))) (cfg s)) s) ;;
  reading (fun s => if negb (enabled (cfg s)) then stop else skip).

Definition toggle_result (s : state) : bool :=
  enabled (cfg (fst (toggle s))).

(** *** Choice of the voice *)

(** What [selectBestVoice] reads of a [SpeechSynthesisVoice]. *)
Record voice_info := Voice {
  v_lang : jsstring;
  v_name : jsstring;
  v_default : bool
}.

(** [s.startsWith(p)] *)
Definition startsWith (p s : jsstring) : bool :=
  bool_decide (take (length p) s = p).

(** [s.includes(p)] *)
Fixpoint includes (p s : jsstring) : bool :=
  startsWith p s
  || match s with [] => false | _ :: s' => includes p s' end.

(** [toLowerCase] on the letters A to Z.  The words searched for below
    are made of the letters a, e, f, l and m, and the only characters that
    [toLowerCase] turns into one of these are A, E, F, L and M, so the
    search meets no other case mapping. *)
Definition lower (c : N) : N :=
  if ((65 <=? c) && (c <=? 90))%N then (c + 32)%N else c.

Definition toLowerCase (s : jsstring) : jsstring := map lower s.

(** The index of what [voices.find(p)] returns. *)
Fixpoint find_index {A} (p : A -> bool) (l : list A) : option nat :=
  match l with
  | [] => None
  | x :: l' => if p x then Some 0%nat else option_map S (find_index p l')
  end.

Definition is_english (v : voice_info) : bool :=
  startsWith (lit "en") (v_lang v).

(** Preference order: female English voice, then any English, then
    default. *)
Definition preferences : list (voice_info -> bool) :=
  [ (fun v => is_english v
              && includes (lit "female") (toLowerCase (v_name v)));
    (fun v => is_english v
              && negb (includes (lit "male") (toLowerCase (v_name v))));
    is_english;
    v_default;
    (fun _ => true) (* fallback to first available *) ].

(** The loop over the preferences: the first one that finds a voice
    decides. *)
Fixpoint first_choice (prefs : list (voice_info -> bool))
    (voices : list voice_info) : option nat :=
  match prefs with
  | [] => None
  | p :: prefs' =>
      match find_index p voices with
      | Some i => Some i
      | None => first_choice prefs' voices
      end
  end.

Definition set_voice (v : option nat) (c : config) : config :=
  Config (enabled c) (rate c) (pitch c) (volume c) v.

(** [selectBestVoice()] over [this.voices]. *)
Definition selectBestVoice (voices : list voice_info) : command :=
  match voices with
  | [] => skip
  | _ :: _ =>
      match first_choice preferences voices with
      | Some i => modify (fun s => set_cfg (set_voice (Some i) (cfg s)) s)
      | None => skip
      end
  end.

Section Speak.
(** [cleanTextForSpeech], a chain of regular-expression replacements whose
    result is only handed to the utterance. *)
Variable cleanTextForSpeech : jsstring -> jsstring.

(** [speak(text)] up to the [synthesis.speak] call; [throws] tells whether
    that call raises. *)
Definition speak (throws : bool) (text : jsstring) : command :=
  reading (fun s =>
    if negb (enabled (cfg s)) || negb (synthesis s) || negb (truthy (trim text))
    then emit Resolved
    else
      (* Stop any current speech *)
      stop ;;
      (let u := Utterance (cleanTextForSpeech text) (rate (cfg s))
                          (pitch (cfg s)) (volume (cfg s)) (voice (cfg s)) in
       modify (set_currentUtterance (Some u)) ;;
       emit (SynthSpeak u) ;;
       if throws
       then modify (set_currentUtterance None) ;; emit Rejected
       else modify (fun s' => set_queue (queue s' ++ [u]) s'))).
End Speak.

(** The utterance's [onend] and [onerror] handlers. *)
Definition onend : command :=
  modify (fun s => set_queue (tail (queue s)) s) ;;
  modify (set_currentUtterance None) ;; emit Resolved.

Definition onerror : command :=
  modify (fun s => set_queue (tail (queue s)) s) ;;
  modify (set_currentUtterance None) ;; emit Rejected.

(** *** The end of [cleanTextForSpeech] *)

(** [s.replace(/\s+/g, " ")]: every maximal run of white space becomes
    one space.  [in_run] tells that the character before was white
    space. *)
Fixpoint collapse_go (in_run : bool) (s : jsstring) : jsstring :=
  match s with
  | [] => []
  | c :: s' =>
      if is_ws c
      then (if in_run then [] else lit " ") ++ collapse_go true s'
      else c :: collapse_go false s'
  end.

Definition collapse_ws (s : jsstring) : jsstring := collapse_go false s.

(** [cleanTextForSpeech]: the chain of replacements ends by collapsing
    white space and trimming; [reword] stands for the replacements of
    formatting, abbreviations and punctuation that come before. *)
Definition cleanTextForSpeech (reword : jsstring -> jsstring)
    (text : jsstring) : jsstring :=
  trim (collapse_ws (reword text)).

(** *** Chunked speech *)

Fixpoint take_while (p : N -> bool) (s : jsstring) : jsstring :=
  match s with
  | c :: s' => if p c then c :: take_while p s' else []
  | [] => []
  end.

(** A match of [[.!?]+\s+] that starts at the head of [s]: both runs are
    greedy, and giving back terminators cannot help, since none of them
    is white space. *)
Definition sep_match (s : jsstring) : option jsstring :=
  let p := take_while is_terminator s in
  let w := take_while is_ws (drop (length p) s) in
  if truthy p && truthy w then Some (p ++ w) else None.

(** [text.split(/([.!?]+\s+)/)]: the pieces between the matches, with each
    match (the capture group) inserted after the piece it ends.  [skip]
    counts the characters of the current match still to pass over and
    [piece] is the text since the end of the last match. *)
Fixpoint split_go (s : jsstring) (skip : nat) (piece : jsstring)
  : list jsstring :=
  match s with
  | [] => [piece]
  | c :: s' =>
      match skip with
      | S k => split_go s' k piece
      | O =>
          match sep_match s with
          | Some sep => piece :: sep :: split_go s' (length sep - 1) []
          | None => split_go s' 0 (piece ++ [c])
          end
      end
  end.

Definition split_sentences_regex (text : jsstring) : list jsstring :=
  split_go text 0 [].

Definition splitIntoSentences (text : jsstring) : list jsstring :=
  List.filter (fun part => (0 <? length (trim part))%nat)
              (split_sentences_regex text).

(** What [speakLongText] awaits, in order. *)
Inductive action :=
| Speak (chunk : jsstring)          (* [await this.speak(chunk)] *)
| Delay (ms : Z).                   (* [await this.delay(ms)] *)

(** The [for] loop over the sentences and the final flush. *)
Fixpoint chunk_loop (chunkSize : Z) (sentences : list jsstring)
    (currentChunk : jsstring) : list action :=
  match sentences with
  | [] =>
      if truthy (trim currentChunk) then [Speak (trim currentChunk)] else []
  | sentence :: rest =>
      if chunkSize <? Z.of_nat (length currentChunk + length sentence) then
        (if truthy (trim currentChunk)
         then [Speak (trim currentChunk); Delay 300]   (* Short pause between chunks *)
         else [])
        ++ chunk_loop chunkSize rest sentence
      else
        chunk_loop chunkSize rest
          (currentChunk ++ (if truthy currentChunk then lit " " else [])
                        ++ sentence)
  end.

(** The actions of [speakLongText] in their order, as long as every
    awaited promise resolves. *)
Definition speakLongText (s : state) (text : jsstring) (chunkSize : Z)
  : list action :=
  if negb (enabled (cfg s)) || negb (truthy (trim text)) then []
  else chunk_loop chunkSize (splitIntoSentences text) [].

(** The script is awaited action by action, and nothing catches a
    rejection: the first [speak] whose promise is rejected (by the
    utterance's [onerror], or by a [synthesis.speak] that raises) ends the
    run and rejects the promise of [speakLongText].  [rejected] tells, for
    the calls of [speak] in their order, whether the promise is rejected;
    the calls beyond the list resolve.  The result is the actions that
    were begun, and whether the run came to its end. *)
Fixpoint await_script (script : list action) (rejected : list bool)
  : list action * bool :=
  match script with
  | [] => ([], true)
  | Delay ms :: rest =>
      let r := await_script rest rejected in (Delay ms :: fst r, snd r)
  | Speak chunk :: rest =>
      match rejected with
      | true :: _ => ([Speak chunk], false)
      | _ =>
          let r := await_script rest (tail rejected) in
          (Speak chunk :: fst r, snd r)
      end
  end.

Definition speakLongText_run (s : state) (text : jsstring) (chunkSize : Z)
    (rejected : list bool) : list action * bool :=
  await_script (speakLongText s text chunkSize) rejected.

(** *** Vocabulary of the properties *)

(** The number [n] is the rational [q]. *)
Definition value_is (n : jsnum) (q : Q) : Prop :=
  match n with Num r => Qeq r q | _ => False end.

(** The chunks handed to [speak], in order. *)
Fixpoint chunks (script : list action) : list jsstring :=
  match script with
  | [] => []
  | Speak c :: script' => c :: chunks script'
  | Delay _ :: script' => chunks script'
  end.

(** [Math.max(lo, Math.min(hi, x))], the clamp of the three setters. *)
Definition clamp (lo hi : Q) (x : jsnum) : jsnum :=
  math_max (Num lo) (math_min (Num hi) x).

(** Every white space character of the string is a plain space, and no
    two of them are adjacent; [after_ws] tells that the character before
    the string was white space. *)
Fixpoint spaced (after_ws : bool) (s : jsstring) : bool :=
  match s with
  | [] => true
  | c :: s' =>
      if is_ws c then (c =? 32)%N && negb after_ws && spaced true s'
      else spaced false s'
  end.

(** The characters of a string that are not white space. *)
Definition visible (s : jsstring) : jsstring :=
  List.filter (fun c => negb (is_ws c)) s.

(** A script that is empty, or speaks chunks with one pause of 300 ms
    between each two of them and none after the last. *)
Fixpoint paused_between (script : list action) : bool :=
  match script with
  | [] => true
  | Speak _ :: rest =>
      match rest with
      | [] => true
      | Delay ms :: rest' =>
          (ms =? 300)
          && match rest' with Speak _ :: _ => paused_between rest' | _ => false end
      | Speak _ :: _ => false
      end
  | Delay _ :: _ => false
  end.

End Tts.

(** ** Barge-in: the recognizer of [InterruptibleVoiceInput] next to the
    speech of [TTSService] *)

Module BargeIn.

(** Modelled from the spec: the handler that the application registers
    with [onUserSpeakingDetected] cancels playback through
    [TTSService.stop] (the source names the callback "Tell AI to stop" and
    registers nothing itself).  Every other effect of the recognizer leaves
    the speech service alone. *)
Definition deliver (e : Interruptible.effect) : cmd Tts.state Tts.effect :=
  match e with
  | Interruptible.OnUserSpeakingDetected => Tts.stop
  | _ => skip
  end.

(** A trace of the recognizer played against the speech service: each
    effect comes with whether the synthesizer is speaking once the effect
    has been delivered. *)
Fixpoint wire (tr : list Interruptible.effect) (t : Tts.state)
  : list (Interruptible.effect * bool) :=
  match tr with
  | [] => []
  | e :: tr' =>
      let t' := fst (deliver e t) in
      (e, Tts.isSpeaking t') :: wire tr' t'
  end.

End BargeIn.

(** ** Scenarios *)

Module Scenario.

Definition final (s : String.string) : SpeechResult :=
  Build_SpeechResult (lit s) true.
Definition interim (s : String.string) : SpeechResult :=
  Build_SpeechResult (lit s) false.

(** A frame in which every frequency bin reads 200 of 255. *)
Definition loud_frame : list N := replicate 128 200%N.

(** *** SimpleVoiceInput *)

Definition simple_at (t : Z) : Simple.env := Simple.Env t false.

Definition simple_fresh : Simple.state :=
  Simple.init true Simple.default_config.

(** Listening, nothing heard yet. *)
Definition simple_listening : Simple.state :=
  fst (Simple.run [(simple_at 0, Simple.EvStart)] simple_fresh).

(** Listening, with the final text "hi". *)
Definition simple_heard : Simple.state :=
  fst (Simple.run [(simple_at 0, Simple.EvStart);
                   (simple_at 100, Simple.EvResult 0 [final "hi"])]
                  simple_fresh).


(** A turn completes, the user starts the next one by hand while the
    auto-restart of the first is still pending, and the platform denies
    the microphone. *)
Definition simple_denied : list (Simple.env * Simple.event) :=
  [(simple_at 0, Simple.EvStart);
   (simple_at 1000, Simple.EvResult 0 [final "hello world"]);
   (simple_at 2000, Simple.CallStart);
   (simple_at 2010, Simple.EvError (lit "not-allowed"))].

(** Fragments at 0, 500 and 1800 ms, the second one a final result. *)
Definition simple_fragments_final : list (Simple.env * Simple.event) :=
  [(simple_at 0, Simple.EvStart);
   (simple_at 0, Simple.EvResult 0 [interim "he"]);
   (simple_at 500, Simple.EvResult 0 [final "hello there"]);
   (simple_at 1800, Simple.EvResult 1 [interim "how"])].

(** Fragments at 0, 500 and 1800 ms that leave five characters of final
    text. *)
Definition simple_fragments : list (Simple.env * Simple.event) :=
  [(simple_at 0, Simple.EvStart);
   (simple_at 0, Simple.EvResult 0 [interim "he"]);
   (simple_at 500, Simple.EvResult 0 [interim "hell"]);
   (simple_at 1800, Simple.EvResult 0 [final "hello"])].

(** Configured with a silence timeout of 2^31 ms. *)
Definition simple_huge_timeout : Simple.state :=
  Simple.init true (Simple.Config (lit "en-US") 8000 (2 ^ 31)).

(** A result event whose only transcript is the empty string. *)
Definition simple_empty_fragment : Simple.event :=
  Simple.EvResult 0 [interim ""].

(** *** InterruptibleVoiceInput *)

Definition inter_at (t : Z) : Interruptible.env :=
  Interruptible.Env t false [].
Definition inter_loud (t : Z) : Interruptible.env :=
  Interruptible.Env t false loud_frame.

Definition inter_fresh : Interruptible.state :=
  Interruptible.init true true Interruptible.default_config.

(** Configured with a silence timeout of 2^31 ms. *)
Definition inter_huge_timeout : Interruptible.state :=
  Interruptible.init true true
    (Interruptible.Config (lit "en-US") (2 ^ 31) (Double.decimal 2 2)
                          (Double.decimal 15 3)).

(** Started, microphone granted, the first frame silent: monitoring. *)
Definition inter_monitoring : Interruptible.state :=
  fst (Interruptible.run
         [(inter_at 0, Interruptible.CallStart);
          (inter_at 0, Interruptible.EvUserMedia true)] inter_fresh).

(** After a barge-in, the recognizer running, nothing heard yet. *)
Definition inter_listening : Interruptible.state :=
  fst (Interruptible.run
         [(inter_loud 16, Interruptible.EvTimer 1);
          (inter_at 20, Interruptible.EvStart)] inter_monitoring).

Definition inter_heard : Interruptible.state :=
  fst (Interruptible.run
         [(inter_at 100, Interruptible.EvResult 0 [final "hi"])]
         inter_listening).

(** Started, the very first frame loud: the recognizer runs from time 0. *)
Definition inter_started : Interruptible.state :=
  fst (Interruptible.run
         [(inter_at 0, Interruptible.CallStart);
          (inter_loud 0, Interruptible.EvUserMedia true);
          (inter_at 0, Interruptible.EvStart)] inter_fresh).


(** Interim fragments at 0, 500 and 1800 ms after the recognizer started
    (it is not continuous: a final result would make it end). *)
Definition inter_fragments : list (Interruptible.env * Interruptible.event) :=
  [(inter_at 0, Interruptible.EvResult 0 [interim "he"]);
   (inter_at 500, Interruptible.EvResult 0 [interim "hello"]);
   (inter_at 1800, Interruptible.EvResult 0 [interim "hello there"])].



(** Noise that never stops: every frame is loud, the session ends, and the
    detection restarts two seconds later. *)
Definition inter_noise : list (Interruptible.env * Interruptible.event) :=
  [(inter_loud 0, Interruptible.CallStart);
   (inter_loud 0, Interruptible.EvUserMedia true);
   (inter_loud 10, Interruptible.EvStart);
   (inter_loud 1500, Interruptible.EvEnd);
   (inter_loud 3500, Interruptible.EvTimer 2)].

(** *** VoiceActivityDetection *)

Definition vad_loud (t : Z) : Vad.env := Vad.Env t false loud_frame.

(** A frame in which every frequency bin reads 0. *)
Definition vad_quiet (t : Z) : Vad.env :=
  Vad.Env t false (replicate 128 0%N).

(** A loud frame during which [recognition.start()] raises. *)
Definition vad_loud_failing (t : Z) : Vad.env := Vad.Env t true loud_frame.

Definition vad_fresh : Vad.state :=
  Vad.init true true true Vad.default_config.

(** Started, microphone granted, the first frame silent: monitoring. *)
Definition vad_monitoring : Vad.state :=
  fst (Vad.run [(vad_quiet 0, Vad.CallStart);
                (vad_quiet 0, Vad.EvUserMedia true)] vad_fresh).

(** Every frame is loud; a final result ends the first session between
    two frames. *)
Definition vad_noise : list (Vad.env * Vad.event) :=
  [(vad_loud 0, Vad.CallStart);
   (vad_loud 0, Vad.EvUserMedia true);
   (vad_loud 16, Vad.EvTimer 2);
   (vad_loud 32, Vad.EvTimer 3);
   (vad_loud 1000, Vad.EvResult 0 [final "hi"]);
   (vad_loud 1016, Vad.EvTimer 4)].

(** *** ReliableVoiceInput *)

Definition reliable_at (t : Z) : Reliable.env :=
  Reliable.Env t false false false.

Definition reliable_fresh : Reliable.state :=
  Reliable.init true true Reliable.default_config.

(** After the denial: the application retries, the timer and the
    recognizer report, the user stops and aborts, but nobody enables. *)
Definition reliable_retries : list (Reliable.env * Reliable.event) :=
  [(reliable_at 10, Reliable.CallStartListening);
   (reliable_at 20, Reliable.EvEnd);
   (reliable_at 30, Reliable.CallStartListening);
   (reliable_at 40, Reliable.CallStop);
   (reliable_at 50, Reliable.CallAbort);
   (reliable_at 60, Reliable.CallStartListening)].

(** *** TTSService *)

Definition tts_fresh : Tts.state := Tts.init true Tts.default_config.

(** A synthesizer in the middle of an utterance. *)
Definition tts_speaking : Tts.state :=
  let u := Tts.Utterance (lit "Let me explain.") (Tts.Num (9 # 10))
                         (Tts.Num 1) (Tts.Num (8 # 10)) None in
  Tts.State Tts.default_config true (Some u) [u] false.

End Scenario.

(** * Properties *)

(** ** The delay of a timer *)

Lemma timer_delay_in_range ms : 0 <= ms < 2 ^ 31 -> timer_delay ms = ms.
Proof.
  intros H. unfold timer_delay, to_int32.
  rewrite Z.mod_small by lia. lia.
Qed.

Lemma timer_delay_wraps ms : 2 ^ 31 <= ms < 2 ^ 32 -> timer_delay ms = 0.
Proof.
  intros H. unfold timer_delay, to_int32.
  replace (ms + 2 ^ 31) with (ms - 2 ^ 31 + 1 * 2 ^ 32) by lia.
  rewrite Z.mod_add by lia. rewrite Z.mod_small by lia. lia.
Qed.

Lemma timer_delay_nonneg ms : 0 <= timer_delay ms.
Proof. unfold timer_delay. lia. Qed.

Lemma count_app {A} (p : A -> bool) (l1 l2 : list A) :
  count p (l1 ++ l2) = (count p l1 + count p l2)%nat.
Proof. induction l1 as [|x l1 IH]; simpl; [done|]. rewrite IH. lia. Qed.

(** ** The timer table *)

Section RuntimeFacts.
Context {K : Type}.
Implicit Types rt : runtime K.

Lemma rt_fresh_init : rt_fresh (@rt_init K).
Proof. intros h v. simpl. rewrite lookup_empty. discriminate. Qed.

Lemma rt_fresh_set due k rt : rt_fresh rt -> rt_fresh (snd (rt_set due k rt)).
Proof.
  intros F h v. simpl. rewrite lookup_insert. case_decide.
  - intros _. subst. lia.
  - intros Hl. apply F in Hl. lia.
Qed.

Lemma rt_fresh_clear h rt : rt_fresh rt -> rt_fresh (rt_clear h rt).
Proof.
  intros F h' v. simpl. rewrite lookup_delete. case_decide; [discriminate|].
  apply F.
Qed.

Lemma rt_fresh_clear_opt o rt : rt_fresh rt -> rt_fresh (rt_clear_opt o rt).
Proof. destruct o; simpl; [apply rt_fresh_clear | done]. Qed.

Lemma rt_clear_opt_lookup o rt h v :
  pending (rt_clear_opt o rt) !! h = Some v ->
  pending rt !! h = Some v /\ o <> Some h.
Proof.
  destruct o as [h'|]; simpl.
  - rewrite lookup_delete. case_decide; [discriminate|].
    intros H'. split; [done|]. congruence.
  - intros H'. split; [done | discriminate].
Qed.

End RuntimeFacts.

(** ** Commands and compositional relations *)

Section SatFacts.
Context {S E : Type} (R : S -> list E -> S -> Prop) `{!Compositional R}.

Lemma sat_skip : sat R skip.
Proof. intros s. apply comp_refl. Qed.

Lemma sat_seq c1 c2 : sat R c1 -> sat R c2 -> sat R (seq c1 c2).
Proof.
  intros H1 H2 s. unfold seq. simpl.
  eapply comp_trans; [apply H1 | apply H2].
Qed.

Lemma sat_reading (k : S -> cmd S E) :
  (forall s0, sat R (k s0)) -> sat R (reading k).
Proof. intros H s. apply (H s). Qed.

Lemma sat_when b c : sat R c -> sat R (when b c).
Proof. intros H s. unfold when. destruct (b s); [apply H | apply comp_refl]. Qed.

Lemma sat_if (b : bool) c1 c2 :
  sat R c1 -> sat R c2 -> sat R (if b then c1 else c2).
Proof. destruct b; auto. Qed.

Lemma sat_run {Env Ev} (step : Env -> Ev -> cmd S E) es :
  (forall e ev, In (e, ev) es -> sat R (step e ev)) -> sat R (run_events step es).
Proof.
  induction es as [|[e ev] es IH]; simpl; intros H.
  - apply sat_skip.
  - apply sat_seq; [apply H; by left | apply IH; intros; apply H; by right].
Qed.

Lemma sat_seq_assoc c1 c2 c3 :
  sat R (seq (seq c1 c2) c3) -> sat R (seq c1 (seq c2 c3)).
Proof.
  intros H s. specialize (H s). unfold seq in *. simpl in *.
  by rewrite app_assoc.
Qed.
End SatFacts.

(** Peels a command along its structure, leaving the primitive steps. *)
Ltac sat_structure :=
  repeat (cbv zeta;
    lazymatch goal with
    | |- sat _ skip => apply sat_skip
    | |- sat _ (seq _ _) => apply sat_seq
    | |- sat _ (reading _) => apply sat_reading; intro
    | |- sat _ (when _ _) => apply sat_when
    | |- sat _ (if _ then _ else _) => apply sat_if
    | |- Compositional _ => exact _
    end).

(** ** SimpleVoiceInput *)

Module SimpleFacts.
Import Simple.

Lemma complete_idle now s : isListening s = false -> complete now s = (s, []).
Proof. intros H. unfold complete, reading. by rewrite H. Qed.

Lemma complete_live now s :
  isListening s = true -> complete now s = (completed now s, complete_trace s).
Proof.
  intros H. unfold complete, reading. rewrite H.
  unfold completed, complete_trace.
  destruct s as [r l c tt st ft rt0]; simpl in *.
  destruct r, (truthy (trim ft)); reflexivity.
Qed.

#[export] Instance turn_comp : Compositional turn.
Proof.
  split; unfold turn.
  - intros s. simpl. lia.
  - intros s t1 s1 t2 s2 H1 H2. rewrite count_app. lia.
Qed.











(** A trigger that finds the session finalized changes nothing: it only
    writes its own console line. *)
Lemma pull_idle e t s :
  isListening s = false ->
  fst (pull e t s) = s /\
  Forall (fun x => is_console x = true) (snd (pull e t s)) /\
  count is_finalize (snd (pull e t s)) = 0%nat.
Proof.
  intros L.
  destruct t; unfold pull, timer_callback, stop, onend, seq, emit;
    cbn [fst snd]; rewrite complete_idle by done; cbn [fst snd];
    (split; [done|]); (split; [repeat constructor | done]).
Qed.

Lemma pulls_idle ts s :
  isListening s = false ->
  fst (pulls ts s) = s /\
  Forall (fun x => is_console x = true) (snd (pulls ts s)) /\
  count is_finalize (snd (pulls ts s)) = 0%nat.
Proof.
  intros L. induction ts as [|[e t] ts IH].
  - split; [done | split; [constructor | done]].
  - unfold pulls in *. simpl. unfold seq. cbn [fst snd].
    destruct (pull_idle e t s L) as (-> & F & C).
    destruct IH as (-> & F' & C').
    split; [done|]. split; [by apply Forall_app|].
    rewrite count_app. lia.
Qed.

Lemma console_not_oncomplete tr :
  Forall (fun x => is_console x = true) tr ->
  count is_oncomplete tr = 0%nat.
Proof.
  induction 1 as [|x tr Hx _ IH]; [done|].
  destruct x; done.
Qed.


(** *** The silence timer *)

#[export] Instance keeps_wf_comp : Compositional keeps_wf.
Proof. split; unfold keeps_wf; auto. Qed.

Lemma wf_init supported c : wf (init supported c).
Proof.
  split; [apply rt_fresh_init|]. intros h d. simpl.
  rewrite lookup_empty. discriminate.
Qed.

Lemma wf_emit e : sat keeps_wf (emit e).
Proof. intros s W. exact W. Qed.

Lemma wf_modify f :
  (forall s, rt (f s) = rt s /\ silenceTimer (f s) = silenceTimer s) ->
  sat keeps_wf (modify f).
Proof.
  intros H s [F U]. simpl. destruct (H s) as [Hr Hs].
  split; rewrite Hr; [done|]. intros h d. rewrite Hs. apply U.
Qed.

Lemma wf_clearSlot slot : sat keeps_wf (clearSlot slot).
Proof.
  intros s [F U]. split; simpl.
  - by apply rt_fresh_clear_opt.
  - intros h d Hl. apply rt_clear_opt_lookup in Hl as [Hl _].
    by apply (U h d).
Qed.

Lemma wf_clearTimeout h : sat keeps_wf (clearTimeout h).
Proof. apply (wf_clearSlot (fun _ => Some h)). Qed.

Lemma wf_setTimeout due k store :
  k <> KSilence ->
  (forall o s, rt (store o s) = rt s /\ silenceTimer (store o s) = silenceTimer s) ->
  sat keeps_wf (setTimeout due k store).
Proof.
  intros Hk H s [F U]. unfold setTimeout. cbn [fst snd].
  set (s1 := set_rt (rt_set due k (rt s)).2 s).
  set (o := Some (rt_set due k (rt s)).1).
  destruct (H o s1) as [Hr Hs]. split.
  - rewrite Hr. apply (rt_fresh_set due k), F.
  - intros h d. rewrite Hr, Hs. subst s1. simpl.
    rewrite lookup_insert. case_decide.
    + intros E. inversion E. by subst.
    + apply U.
Qed.

(** After [clearSlot silenceTimer] no silence timer is pending. *)
Lemma silence_cleared s h d :
  wf s ->
  pending (rt_clear_opt (silenceTimer s) (rt s)) !! h = Some (d, KSilence) ->
  False.
Proof.
  intros [F U] Hl. apply rt_clear_opt_lookup in Hl as [Hl Hne].
  apply U in Hl. done.
Qed.

Lemma wf_drop_silence :
  sat keeps_wf (seq (clearSlot silenceTimer) (modify (set_silenceTimer None))).
Proof.
  intros s W. split; simpl.
  - apply rt_fresh_clear_opt, W.
  - intros h d Hl. by destruct (silence_cleared s h d W Hl).
Qed.

(** [resetSilenceTimer] leaves exactly one silence timer pending, the one
    in the slot, due a full [silenceTimeout] after [now]. *)
Lemma resetSilenceTimer_due now s :
  wf s ->
  wf (fst (resetSilenceTimer now s)) /\
  silence_due (fst (resetSilenceTimer now s))
  = Some (now + timer_delay (silenceTimeout (cfg s))) /\
  forall h d,
    pending (rt (fst (resetSilenceTimer now s))) !! h = Some (d, KSilence) ->
    d = now + timer_delay (silenceTimeout (cfg s)).
Proof.
  intros W. unfold resetSilenceTimer, seq, reading, clearSlot, modify,
    setTimeout, silence_due. cbn [fst snd]. simpl.
  rewrite lookup_insert_eq. split; [split|split; [done|]]; simpl.
  - apply (rt_fresh_set _ KSilence (rt_clear_opt (silenceTimer s) (rt s))).
    apply rt_fresh_clear_opt, W.
  - intros h d. rewrite lookup_insert. case_decide; [by intros; subst|].
    intros Hl. by destruct (silence_cleared s h d W Hl).
  - intros h d. rewrite lookup_insert. case_decide.
    + intros E. by inversion E.
    + intros Hl. by destruct (silence_cleared s h d W Hl).
Qed.

Lemma wf_resetSilenceTimer now : sat keeps_wf (resetSilenceTimer now).
Proof. intros s W. by apply resetSilenceTimer_due. Qed.

Ltac wf_auto :=
  repeat (cbv zeta;
    lazymatch goal with
    | |- sat _ (seq (clearSlot silenceTimer) (modify (set_silenceTimer None))) =>
        apply wf_drop_silence
    | |- sat _ (seq (clearSlot silenceTimer)
                    (seq (modify (set_silenceTimer None)) _)) =>
        apply sat_seq_assoc
    | |- sat _ (resetSilenceTimer _) => apply wf_resetSilenceTimer
    | |- sat _ skip => apply sat_skip
    | |- sat _ (seq _ _) => apply sat_seq
    | |- sat _ (reading _) => apply sat_reading; intro
    | |- sat _ (when _ _) => apply sat_when
    | |- sat _ (if _ then _ else _) => apply sat_if
    | |- Compositional _ => exact _
    | |- sat _ (emit _) => apply wf_emit
    | |- sat _ (modify _) => apply wf_modify; intros; split; reflexivity
    | |- sat _ (clearSlot _) => apply wf_clearSlot
    | |- sat _ (clearTimeout _) => apply wf_clearTimeout
    | |- sat _ (setTimeout _ _ _) =>
        apply wf_setTimeout; [discriminate | intros; split; reflexivity]
    end).

Lemma wf_complete now : sat keeps_wf (complete now).
Proof. unfold complete, clearTimers. wf_auto. Qed.

Lemma wf_step e ev : sat keeps_wf (step e ev).
Proof.
  destruct ev; unfold step.
  - unfold onstart, startTimers. wf_auto.
  - unfold onresult. wf_auto; apply wf_complete.
  - unfold onend. wf_auto. apply wf_complete.
  - unfold onerror, clearTimers. wf_auto.
  - unfold fire. apply sat_reading. intros s0.
    destruct (pending (rt s0) !! h) as [[due k]|]; [|wf_auto].
    destruct (due <=? now e); [|wf_auto].
    destruct k; unfold timer_callback, stop, start; wf_auto;
      apply wf_complete.
  - unfold start. wf_auto.
  - unfold stop. wf_auto. apply wf_complete.
  - unfold abort, clearTimers. wf_auto.
Qed.

(** Every state the service can reach is well formed. *)
Lemma wf_run es s : wf s -> wf (fst (run es s)).
Proof. apply (sat_run keeps_wf). intros. apply wf_step. Qed.

(** *** No silence timeout before its time *)

Section Quiet.
Variables T D : Z.

#[export] Instance quiet_comp : Compositional (quiet T D).
Proof.
  split; unfold quiet.
  - intros s H. by split.
  - intros s t1 s1 t2 s2 H1 H2 H. destruct (H1 H) as [H' C1].
    destruct (H2 H') as [H'' C2]. split; [done|].
    rewrite count_app. lia.
Qed.

Lemma quiet_emit e : is_silence_timeout e = false -> sat (quiet T D) (emit e).
Proof. intros H s Hs. split; [done|]. simpl. by rewrite H. Qed.

Lemma quiet_modify f :
  (forall s, cfg (f s) = cfg s /\ rt (f s) = rt s) ->
  sat (quiet T D) (modify f).
Proof.
  intros H s [Hc Hp]. split; [|done]. unfold silent_until. simpl.
  destruct (H s) as [-> ->]. by split.
Qed.

Lemma quiet_clearSlot slot : sat (quiet T D) (clearSlot slot).
Proof.
  intros s [Hc Hp]. split; [|done]. split; [done|]. simpl.
  intros h d Hl. apply rt_clear_opt_lookup in Hl as [Hl _]. by apply (Hp h).
Qed.

Lemma quiet_clearTimeout h : sat (quiet T D) (clearTimeout h).
Proof. apply (quiet_clearSlot (fun _ => Some h)). Qed.

Lemma quiet_setTimeout due k store :
  (k = KSilence -> D <= due) ->
  (forall o s, cfg (store o s) = cfg s /\ rt (store o s) = rt s) ->
  sat (quiet T D) (setTimeout due k store).
Proof.
  intros Hk H s [Hc Hp]. split; [|done]. unfold setTimeout. cbn [fst snd].
  set (s1 := set_rt (rt_set due k (rt s)).2 s).
  set (o := Some (rt_set due k (rt s)).1).
  destruct (H o s1) as [Hcfg Hr]. split; [by rewrite Hcfg|].
  intros h d. rewrite Hr. subst s1. simpl.
  rewrite lookup_insert. case_decide.
  - intros E. inversion E. subst. by apply Hk.
  - apply Hp.
Qed.

Lemma quiet_resetSilenceTimer now :
  D <= now + T -> sat (quiet T D) (resetSilenceTimer now).
Proof.
  intros Hn. unfold resetSilenceTimer. apply sat_seq; [exact _ | |].
  - apply quiet_clearSlot.
  - intros s Hs. unfold reading.
    apply (quiet_setTimeout (now + timer_delay (silenceTimeout (cfg s)))
             KSilence); [|done|done].
    intros _. destruct Hs as [-> _]. done.
Qed.

Ltac quiet_auto :=
  repeat (cbv zeta;
    lazymatch goal with
    | |- sat _ (resetSilenceTimer _) => apply quiet_resetSilenceTimer; lia
    | |- sat _ skip => apply sat_skip
    | |- sat _ (seq _ _) => apply sat_seq
    | |- sat _ (reading _) => apply sat_reading; intro
    | |- sat _ (when _ _) => apply sat_when
    | |- sat _ (if _ then _ else _) => apply sat_if
    | |- Compositional _ => exact _
    | |- sat _ (emit _) => apply quiet_emit; reflexivity
    | |- sat _ (modify _) => apply quiet_modify; intros; split; reflexivity
    | |- sat _ (clearSlot _) => apply quiet_clearSlot
    | |- sat _ (clearTimeout _) => apply quiet_clearTimeout
    | |- sat _ (setTimeout _ _ _) =>
        apply quiet_setTimeout; [discriminate | intros; split; reflexivity]
    end).

Lemma quiet_complete now : sat (quiet T D) (complete now).
Proof. unfold complete, clearTimers. quiet_auto. Qed.

(** Before [D] no silence timer can fire. *)
Lemma quiet_fire e h : now e < D -> sat (quiet T D) (fire e h).
Proof.
  intros Hn.
  assert (forall k, k <> KSilence ->
            sat (quiet T D) (seq (clearTimeout h) (timer_callback e k))) as Hk.
  { intros k Hne. destruct k; [|done|];
      unfold timer_callback, stop, start; quiet_auto; apply quiet_complete. }
  intros s. unfold fire, reading.
  destruct (pending (rt s) !! h) as [[due k]|] eqn:Hl;
    [|apply (sat_skip (quiet T D))].
  destruct (due <=? now e) eqn:Hd; [|apply (sat_skip (quiet T D))].
  destruct k; [by apply Hk | | by apply Hk].
  intros [_ Hp]. apply Hp in Hl. lia.
Qed.

Lemma quiet_step e ev :
  now e < D -> D <= now e + T -> sat (quiet T D) (step e ev).
Proof.
  intros Hn Hd. destruct ev; unfold step.
  - unfold onstart, startTimers. quiet_auto.
  - unfold onresult. quiet_auto; apply quiet_complete.
  - unfold onend. quiet_auto. apply quiet_complete.
  - unfold onerror, clearTimers. quiet_auto.
  - by apply quiet_fire.
  - unfold start. quiet_auto.
  - unfold stop. quiet_auto. apply quiet_complete.
  - unfold abort, clearTimers. quiet_auto.
Qed.

(** While the clock stays below [D], and at most [T] below it, no run of
    events reaches the silence timer's callback. *)
Lemma quiet_run es s :
  silent_until T D s ->
  (forall e ev, In (e, ev) es -> now e < D /\ D <= now e + T) ->
  count is_silence_timeout (snd (run es s)) = 0%nat.
Proof.
  intros Hs Hes.
  assert (sat (quiet T D) (run es)) as H.
  { apply (sat_run (quiet T D)). intros e ev Hin.
    destruct (Hes e ev Hin). by apply quiet_step. }
  by destruct (H s Hs).
Qed.

End Quiet.

(** *** Result events *)

Lemma long_truthy (x : jsstring) :
  (5 <? length x)%nat = true -> truthy x = true.
Proof. by destruct x. Qed.

(** A result event that leaves more than five characters of final text in
    a listening session runs [complete] before it returns. *)
Lemma onresult_completes now i rs s :
  isListening s = true ->
  (5 <? length (trim (finalTranscript s ++ fst (scan_results i rs))))%nat
  = true ->
  isListening (fst (onresult now i rs s)) = false /\
  timeoutTimer (fst (onresult now i rs s)) = None /\
  silenceTimer (fst (onresult now i rs s)) = None /\
  count is_finalize (snd (onresult now i rs s)) = 1%nat /\
  count is_oncomplete (snd (onresult now i rs s)) = 1%nat /\
  (recognition s = true -> In RecStop (snd (onresult now i rs s))) /\
  In (OnComplete (trim (finalTranscript s ++ fst (scan_results i rs))))
     (snd (onresult now i rs s)) /\
  In OnStop (snd (onresult now i rs s)).
Proof.
  intros L H. pose proof (long_truthy _ H) as T. unfold onresult.
  set (new := fst (scan_results i rs)) in *.
  set (inter := snd (scan_results i rs)) in *.
  destruct s as [r l c tt st ft rt0]. simpl in L, H, T. subst l.
  cbn [recognition finalTranscript].
  assert (forall s1 pre,
    isListening s1 = true ->
    recognition s1 = r ->
    finalTranscript s1 = ft ++ new ->
    count is_finalize pre = 0%nat ->
    count is_oncomplete pre = 0%nat ->
    isListening (completed now s1) = false /\
    timeoutTimer (completed now s1) = None /\
    silenceTimer (completed now s1) = None /\
    count is_finalize (pre ++ complete_trace s1) = 1%nat /\
    count is_oncomplete (pre ++ complete_trace s1) = 1%nat /\
    (r = true -> In RecStop (pre ++ complete_trace s1)) /\
    In (OnComplete (trim (ft ++ new))) (pre ++ complete_trace s1) /\
    In OnStop (pre ++ complete_trace s1)) as K.
  { intros s1 pre L1 R1 F1 C1 C2. unfold complete_trace.
    rewrite F1, R1, T, !count_app, C1, C2.
    repeat split; try done.
    - destruct r; reflexivity.
    - destruct r; reflexivity.
    - intros ->. apply in_or_app. right. simpl. auto.
    - apply in_or_app. right. destruct r; simpl; auto.
    - apply in_or_app. right. destruct r; simpl; auto. }
  destruct new as [|ch new].
  - rewrite app_nil_r in *.
    destruct (truthy inter) eqn:TI.
    + cbn [truthy orb].
      unfold seq, skip, reading, emit, resetSilenceTimer, clearSlot, modify,
        setTimeout, seq, reading.
      cbn [fst snd finalTranscript set_silenceTimer set_rt cfg silenceTimer
           rt recognition isListening timeoutTimer app].
      rewrite H. rewrite complete_live by reflexivity. cbn [fst snd].
      match goal with
      | |- context [?p :: complete_trace ?s1] => apply (K s1 [p])
      end; reflexivity.
    + cbn [truthy orb]. unfold seq, skip, reading, emit.
      cbn [fst snd finalTranscript app].
      rewrite H. rewrite complete_live by reflexivity. cbn [fst snd].
      match goal with
      | |- context [?p :: complete_trace ?s1] => apply (K s1 [p])
      end; reflexivity.
  - cbn [truthy orb].
    unfold seq, skip, reading, emit, resetSilenceTimer, clearSlot, modify,
      setTimeout, seq, reading.
    cbn [fst snd finalTranscript set_silenceTimer set_finalTranscript set_rt
         cfg silenceTimer rt recognition isListening timeoutTimer app].
    rewrite H. rewrite complete_live by reflexivity. cbn [fst snd].
    match goal with
    | |- context [?p :: ?q :: complete_trace ?s1] => apply (K s1 [p; q])
    end; reflexivity.
Qed.

(** A result event that carries text and does not complete the session
    leaves the silence countdown restarted. *)
Lemma onresult_restarts now i rs s :
  wf s ->
  truthy (fst (scan_results i rs)) || truthy (snd (scan_results i rs)) = true ->
  (5 <? length (trim (finalTranscript s ++ fst (scan_results i rs))))%nat = false
  \/ isListening s = false ->
  wf (fst (onresult now i rs s)) /\
  silence_due (fst (onresult now i rs s))
  = Some (now + timer_delay (silenceTimeout (cfg s))) /\
  silent_until (timer_delay (silenceTimeout (cfg s)))
               (now + timer_delay (silenceTimeout (cfg s)))
               (fst (onresult now i rs s)).
Proof.
  intros W Htext Hopen. unfold onresult.
  set (new := fst (scan_results i rs)) in *.
  set (inter := snd (scan_results i rs)) in *.
  rewrite Htext.
  assert (forall s2,
    wf s2 -> cfg s2 = cfg s -> isListening s2 = isListening s ->
    finalTranscript s2 = finalTranscript s ++ new ->
    let s3 := fst (resetSilenceTimer now s2) in
    let s4 := fst (reading (fun s0 =>
                     if (5 <? length (trim (finalTranscript s0)))%nat
                     then complete now else skip) s3) in
    wf s4 /\
    silence_due s4 = Some (now + timer_delay (silenceTimeout (cfg s))) /\
    silent_until (timer_delay (silenceTimeout (cfg s)))
                 (now + timer_delay (silenceTimeout (cfg s))) s4)
    as K.
  { intros s2 W2 C2 L2 F2 s3 s4.
    destruct (resetSilenceTimer_due now s2 W2) as (W3 & D3 & U3).
    fold s3 in W3, D3, U3. rewrite C2 in D3, U3.
    assert (cfg s3 = cfg s) as C3 by (subst s3; by rewrite <- C2).
    assert (isListening s3 = isListening s) as L3
      by (subst s3; by rewrite <- L2).
    assert (finalTranscript s3 = finalTranscript s ++ new) as F3
      by (subst s3; by rewrite <- F2).
    assert (s4 = s3) as ->.
    { subst s4. unfold reading. rewrite F3.
      destruct Hopen as [-> | Hl]; [reflexivity|].
      destruct (_ <? _)%nat; [|reflexivity].
      rewrite complete_idle; [reflexivity | by rewrite L3]. }
    split; [done|]. split; [done|]. split; [by rewrite C3|].
    intros h d Hl. rewrite (U3 h d Hl). lia. }
  destruct new as [|ch new'] eqn:En.
  - cbn [truthy]. unfold seq at 1. unfold skip at 1. cbn [fst snd].
    unfold seq at 1. unfold reading at 1, emit at 1. cbn [fst snd].
    unfold seq. cbn [fst snd].
    apply K; try done. by rewrite app_nil_r.
  - cbn [truthy]. unfold seq at 1.
    unfold seq at 1, modify at 1, emit at 1. cbn [fst snd].
    unfold seq at 1. unfold reading at 1, emit at 1. cbn [fst snd].
    unfold seq. cbn [fst snd].
    apply K; try done.
Qed.

(** When the countdown has run out, the timer in the slot fires into the
    finalize path. *)
Lemma silence_fires e h D s :
  silenceTimer s = Some h -> silence_due s = Some D -> D <= now e ->
  count is_silence_timeout (snd (step e (EvTimer h) s)) = 1%nat /\
  (isListening s = true ->
   count is_finalize (snd (step e (EvTimer h) s)) = 1%nat /\
   isListening (fst (step e (EvTimer h) s)) = false).
Proof.
  intros Hs Hd Hn. unfold silence_due in Hd. rewrite Hs in Hd.
  unfold step, fire, reading.
  destruct (pending (rt s) !! h) as [[d k]|]; [|done].
  destruct k; try done. inversion Hd; subst d.
  assert ((D <=? now e) = true) as -> by lia.
  unfold timer_callback, seq, clearTimeout, modify, emit. cbn [fst snd app].
  destruct (isListening s) eqn:L.
  - rewrite complete_live by done. cbn [fst snd]. unfold complete_trace.
    split; [|intros _; split; [|done]];
      destruct (recognition _), (truthy _); reflexivity.
  - rewrite complete_idle by done. split; [done|]. intros; congruence.
Qed.

(** *** Callbacks and finalizes *)

#[export] Instance reports_in_finalize_comp : Compositional reports_in_finalize.
Proof.
  split; unfold reports_in_finalize.
  - intros s. simpl. lia.
  - intros s t1 s1 t2 s2 H1 H2. rewrite !count_app. lia.
Qed.







End SimpleFacts.

(** ** InterruptibleVoiceInput *)

Module InterruptibleFacts.
Import Interruptible.

Lemma processResult_idle now s :
  isProcessing s = true -> processResult now s = (s, []).
Proof. intros H. unfold processResult, reading. by rewrite H. Qed.

Lemma processResult_live now s :
  isProcessing s = false ->
  processResult now s = (processed now s, process_trace s).
Proof.
  intros H. unfold processResult, reading. rewrite H.
  unfold processed, process_trace, updateStatus, reading.
  destruct s as [ac ms an r a l p st c sl af ft rt0]; simpl in *.
  destruct st, r, (truthy (trim ft)); reflexivity.
Qed.






(** *** The silence timer *)

#[export] Instance keeps_wf_comp : Compositional keeps_wf.
Proof. split; unfold keeps_wf; auto. Qed.

Lemma iv_wf_init speech audio c : wf (init speech audio c).
Proof.
  split; [apply rt_fresh_init|]. intros h d. simpl.
  rewrite lookup_empty. discriminate.
Qed.

Lemma iv_wf_emit e : sat keeps_wf (emit e).
Proof. intros s W. exact W. Qed.

Lemma iv_wf_modify f :
  (forall s, rt (f s) = rt s /\ silenceTimer (f s) = silenceTimer s) ->
  sat keeps_wf (modify f).
Proof.
  intros H s [F U]. simpl. destruct (H s) as [Hr Hs].
  split; rewrite Hr; [done|]. intros h d. rewrite Hs. apply U.
Qed.

Lemma iv_wf_clearSlot slot : sat keeps_wf (clearSlot slot).
Proof.
  intros s [F U]. split; simpl.
  - by apply rt_fresh_clear_opt.
  - intros h d Hl. apply rt_clear_opt_lookup in Hl as [Hl _].
    by apply (U h d).
Qed.

Lemma iv_wf_clearTimeout h : sat keeps_wf (clearTimeout h).
Proof. apply (iv_wf_clearSlot (fun _ => Some h)). Qed.

Lemma iv_wf_setTimeout due k store :
  k <> KSilence ->
  (forall o s, rt (store o s) = rt s /\ silenceTimer (store o s) = silenceTimer s) ->
  sat keeps_wf (setTimeout due k store).
Proof.
  intros Hk H s [F U]. unfold setTimeout. cbn [fst snd].
  set (s1 := set_rt (rt_set due k (rt s)).2 s).
  set (o := Some (rt_set due k (rt s)).1).
  destruct (H o s1) as [Hr Hs]. split.
  - rewrite Hr. apply (rt_fresh_set due k), F.
  - intros h d. rewrite Hr, Hs. subst s1. simpl.
    rewrite lookup_insert. case_decide.
    + intros E. inversion E. by subst.
    + apply U.
Qed.

(** After [clearSlot silenceTimer] no silence timer is pending. *)
Lemma iv_silence_cleared s h d :
  wf s ->
  pending (rt_clear_opt (silenceTimer s) (rt s)) !! h = Some (d, KSilence) ->
  False.
Proof.
  intros [F U] Hl. apply rt_clear_opt_lookup in Hl as [Hl Hne].
  apply U in Hl. done.
Qed.

Lemma iv_wf_drop_silence :
  sat keeps_wf (seq (clearSlot silenceTimer) (modify (set_silenceTimer None))).
Proof.
  intros s W. split; simpl.
  - apply rt_fresh_clear_opt, W.
  - intros h d Hl. by destruct (iv_silence_cleared s h d W Hl).
Qed.

(** [resetSilenceTimer] leaves exactly one silence timer pending, the one
    in the slot, due a full [silenceTimeout] after [now]. *)
Lemma iv_resetSilenceTimer_due now s :
  wf s ->
  wf (fst (resetSilenceTimer now s)) /\
  silence_due (fst (resetSilenceTimer now s))
  = Some (now + timer_delay (silenceTimeout (cfg s))) /\
  forall h d,
    pending (rt (fst (resetSilenceTimer now s))) !! h = Some (d, KSilence) ->
    d = now + timer_delay (silenceTimeout (cfg s)).
Proof.
  intros W. unfold resetSilenceTimer, seq, reading, clearSlot, modify,
    setTimeout, silence_due. cbn [fst snd]. simpl.
  rewrite lookup_insert_eq. split; [split|split; [done|]]; simpl.
  - apply (rt_fresh_set _ KSilence (rt_clear_opt (silenceTimer s) (rt s))).
    apply rt_fresh_clear_opt, W.
  - intros h d. rewrite lookup_insert. case_decide; [by intros; subst|].
    intros Hl. by destruct (iv_silence_cleared s h d W Hl).
  - intros h d. rewrite lookup_insert. case_decide.
    + intros E. by inversion E.
    + intros Hl. by destruct (iv_silence_cleared s h d W Hl).
Qed.

Lemma iv_wf_resetSilenceTimer now : sat keeps_wf (resetSilenceTimer now).
Proof. intros s W. by apply iv_resetSilenceTimer_due. Qed.

Ltac wf_auto :=
  repeat (cbv zeta;
    lazymatch goal with
    | |- sat _ (seq (clearSlot silenceTimer) (modify (set_silenceTimer None))) =>
        apply iv_wf_drop_silence
    | |- sat _ (seq (clearSlot silenceTimer)
                    (seq (modify (set_silenceTimer None)) _)) =>
        apply sat_seq_assoc
    | |- sat _ (resetSilenceTimer _) => apply iv_wf_resetSilenceTimer
    | |- sat _ skip => apply sat_skip
    | |- sat _ (seq _ _) => apply sat_seq
    | |- sat _ (reading _) => apply sat_reading; intro
    | |- sat _ (when _ _) => apply sat_when
    | |- sat _ (if _ then _ else _) => apply sat_if
    | |- Compositional _ => exact _
    | |- sat _ (emit _) => apply iv_wf_emit
    | |- sat _ (modify _) => apply iv_wf_modify; intros; split; reflexivity
    | |- sat _ (clearSlot _) => apply iv_wf_clearSlot
    | |- sat _ (clearTimeout _) => apply iv_wf_clearTimeout
    | |- sat _ (setTimeout _ _ _) =>
        apply iv_wf_setTimeout; [discriminate | intros; split; reflexivity]
    end).

Lemma wf_processResult now : sat keeps_wf (processResult now).
Proof. unfold processResult, updateStatus. wf_auto. Qed.

Lemma wf_reset : sat keeps_wf reset.
Proof. unfold reset, updateStatus. wf_auto. Qed.

Lemma wf_detectInterrupt e : sat keeps_wf (detectInterrupt e).
Proof. unfold detectInterrupt, startUserListening. wf_auto. apply wf_reset. Qed.

Lemma iv_wf_step e ev : sat keeps_wf (step e ev).
Proof.
  destruct ev; unfold step.
  - unfold onstart, updateStatus. wf_auto.
  - unfold onresult. wf_auto.
  - unfold onend. wf_auto. apply wf_processResult.
  - unfold onerror, stop, cleanup, updateStatus. wf_auto. apply wf_reset.
  - unfold fire. apply sat_reading. intros s0.
    destruct (pending (rt s0) !! h) as [[due k]|]; [|wf_auto].
    destruct (due <=? now e); [|wf_auto].
    destruct k; unfold timer_callback, startInterruptDetection; wf_auto;
      first [apply wf_processResult | apply wf_reset
            | apply wf_detectInterrupt].
  - unfold start_resume, startInterruptDetection, updateStatus. wf_auto.
    apply wf_detectInterrupt.
  - unfold start. wf_auto.
  - unfold stop, cleanup, updateStatus. wf_auto.
  - unfold setAISpeaking, updateStatus. wf_auto.
Qed.

(** Every state the service can reach is well formed. *)
Lemma iv_wf_run es s : wf s -> wf (fst (run es s)).
Proof. apply (sat_run keeps_wf). intros. apply iv_wf_step. Qed.

(** *** No silence timeout before its time *)

Section Quiet.
Variables T D : Z.

#[export] Instance quiet_comp : Compositional (quiet T D).
Proof.
  split; unfold quiet.
  - intros s H. by split.
  - intros s t1 s1 t2 s2 H1 H2 H. destruct (H1 H) as [H' C1].
    destruct (H2 H') as [H'' C2]. split; [done|].
    rewrite count_app. lia.
Qed.

Lemma iv_quiet_emit e : is_silence_timeout e = false -> sat (quiet T D) (emit e).
Proof. intros H s Hs. split; [done|]. simpl. by rewrite H. Qed.

Lemma iv_quiet_modify f :
  (forall s, cfg (f s) = cfg s /\ rt (f s) = rt s) ->
  sat (quiet T D) (modify f).
Proof.
  intros H s [Hc Hp]. split; [|done]. unfold silent_until. simpl.
  destruct (H s) as [-> ->]. by split.
Qed.

Lemma iv_quiet_clearSlot slot : sat (quiet T D) (clearSlot slot).
Proof.
  intros s [Hc Hp]. split; [|done]. split; [done|]. simpl.
  intros h d Hl. apply rt_clear_opt_lookup in Hl as [Hl _]. by apply (Hp h).
Qed.

Lemma iv_quiet_clearTimeout h : sat (quiet T D) (clearTimeout h).
Proof. apply (iv_quiet_clearSlot (fun _ => Some h)). Qed.

Lemma iv_quiet_setTimeout due k store :
  (k = KSilence -> D <= due) ->
  (forall o s, cfg (store o s) = cfg s /\ rt (store o s) = rt s) ->
  sat (quiet T D) (setTimeout due k store).
Proof.
  intros Hk H s [Hc Hp]. split; [|done]. unfold setTimeout. cbn [fst snd].
  set (s1 := set_rt (rt_set due k (rt s)).2 s).
  set (o := Some (rt_set due k (rt s)).1).
  destruct (H o s1) as [Hcfg Hr]. split; [by rewrite Hcfg|].
  intros h d. rewrite Hr. subst s1. simpl.
  rewrite lookup_insert. case_decide.
  - intros E. inversion E. subst. by apply Hk.
  - apply Hp.
Qed.

Lemma iv_quiet_resetSilenceTimer now :
  D <= now + T -> sat (quiet T D) (resetSilenceTimer now).
Proof.
  intros Hn. unfold resetSilenceTimer. apply sat_seq; [exact _ | |].
  - apply iv_quiet_clearSlot.
  - intros s Hs. unfold reading.
    apply (iv_quiet_setTimeout
             (now + timer_delay (silenceTimeout (cfg s))) KSilence);
      [|done|done].
    intros _. destruct Hs as [-> _]. done.
Qed.

Ltac quiet_auto :=
  repeat (cbv zeta;
    lazymatch goal with
    | |- sat _ (resetSilenceTimer _) => apply iv_quiet_resetSilenceTimer; lia
    | |- sat _ skip => apply sat_skip
    | |- sat _ (seq _ _) => apply sat_seq
    | |- sat _ (reading _) => apply sat_reading; intro
    | |- sat _ (when _ _) => apply sat_when
    | |- sat _ (if _ then _ else _) => apply sat_if
    | |- Compositional _ => exact _
    | |- sat _ (emit _) => apply iv_quiet_emit; reflexivity
    | |- sat _ (modify _) => apply iv_quiet_modify; intros; split; reflexivity
    | |- sat _ (clearSlot _) => apply iv_quiet_clearSlot
    | |- sat _ (clearTimeout _) => apply iv_quiet_clearTimeout
    | |- sat _ (setTimeout _ _ _) =>
        apply iv_quiet_setTimeout; [discriminate | intros; split; reflexivity]
    end).

Lemma quiet_processResult now : sat (quiet T D) (processResult now).
Proof. unfold processResult, updateStatus. quiet_auto. Qed.

Lemma quiet_reset : sat (quiet T D) reset.
Proof. unfold reset, updateStatus. quiet_auto. Qed.

Lemma quiet_detectInterrupt e :
  D <= now e + T -> sat (quiet T D) (detectInterrupt e).
Proof.
  intros Hd. unfold detectInterrupt, startUserListening. quiet_auto.
  apply quiet_reset.
Qed.

(** Before [D] no silence timer can fire. *)
Lemma iv_quiet_fire e h :
  now e < D -> D <= now e + T -> sat (quiet T D) (fire e h).
Proof.
  intros Hn Hd.
  assert (forall k, k <> KSilence ->
            sat (quiet T D) (seq (clearTimeout h) (timer_callback e k))) as Hk.
  { intros k Hne. destruct k; [done| |];
      unfold timer_callback, startInterruptDetection; quiet_auto;
      first [apply quiet_reset | by apply quiet_detectInterrupt]. }
  intros s. unfold fire, reading.
  destruct (pending (rt s) !! h) as [[due k]|] eqn:Hl;
    [|apply (sat_skip (quiet T D))].
  destruct (due <=? now e) eqn:Hdue; [|apply (sat_skip (quiet T D))].
  destruct k; [ | by apply Hk | by apply Hk].
  intros [_ Hp]. apply Hp in Hl. lia.
Qed.

Lemma iv_quiet_step e ev :
  now e < D -> D <= now e + T -> sat (quiet T D) (step e ev).
Proof.
  intros Hn Hd. destruct ev; unfold step.
  - unfold onstart, updateStatus. quiet_auto.
  - unfold onresult. quiet_auto.
  - unfold onend. quiet_auto. apply quiet_processResult.
  - unfold onerror, stop, cleanup, updateStatus. quiet_auto. apply quiet_reset.
  - by apply iv_quiet_fire.
  - unfold start_resume, startInterruptDetection, updateStatus. quiet_auto.
    by apply quiet_detectInterrupt.
  - unfold start. quiet_auto.
  - unfold stop, cleanup, updateStatus. quiet_auto.
  - unfold setAISpeaking, updateStatus. quiet_auto.
Qed.

(** While the clock stays below [D], and at most [T] below it, no run of
    events reaches the silence timer's callback. *)
Lemma iv_quiet_run es s :
  silent_until T D s ->
  (forall e ev, In (e, ev) es -> now e < D /\ D <= now e + T) ->
  count is_silence_timeout (snd (run es s)) = 0%nat.
Proof.
  intros Hs Hes.
  assert (sat (quiet T D) (run es)) as H.
  { apply (sat_run (quiet T D)). intros e ev Hin.
    destruct (Hes e ev Hin). by apply iv_quiet_step. }
  by destruct (H s Hs).
Qed.

End Quiet.

(** *** Status events *)

Lemma statuses_app t1 t2 : statuses (t1 ++ t2) = statuses t1 ++ statuses t2.
Proof.
  induction t1 as [|x t1 IH]; [done|].
  destruct x; simpl; by rewrite ?IH.
Qed.

Lemma changes_app a l1 l2 :
  changes a l1 -> changes (last_status a l1) l2 -> changes a (l1 ++ l2).
Proof.
  revert a. induction l1 as [|x l1 IH]; intros a H1 H2; [done|].
  destruct H1 as [Hne H1]. split; [done|]. by apply IH.
Qed.

Lemma last_status_app a l1 l2 :
  last_status a (l1 ++ l2) = last_status (last_status a l1) l2.
Proof. revert a. induction l1 as [|x l1 IH]; intros a; [done|]. apply IH. Qed.

#[export] Instance status_chain_comp : Compositional status_chain.
Proof.
  split; unfold status_chain.
  - intros s. by simpl.
  - intros s t1 s1 t2 s2 [C1 L1] [C2 L2].
    rewrite statuses_app, last_status_app, L1. split; [|done].
    apply changes_app; [done|]. by rewrite L1.
Qed.

Lemma chain_emit e :
  (forall st, e <> OnStatusChange st) -> sat status_chain (emit e).
Proof.
  intros H s. unfold status_chain. simpl. destruct e; try done.
  by specialize (H s0).
Qed.

Lemma chain_modify f :
  (forall s, currentStatus (f s) = currentStatus s) ->
  sat status_chain (modify f).
Proof. intros H s. unfold status_chain. simpl. by rewrite H. Qed.

Lemma chain_setTimeout due k store :
  (forall o s, currentStatus (store o s) = currentStatus s) ->
  sat status_chain (setTimeout due k store).
Proof. intros H s. unfold status_chain, setTimeout. simpl. by rewrite H. Qed.

Lemma chain_updateStatus st : sat status_chain (updateStatus st).
Proof.
  intros s. unfold status_chain, updateStatus, reading.
  destruct (bool_decide (currentStatus s = st)) eqn:B; simpl; [done|].
  apply bool_decide_eq_false in B. done.
Qed.

Ltac chain_auto :=
  sat_structure;
  try lazymatch goal with
  | |- sat _ (emit _) => apply chain_emit; intros; discriminate
  | |- sat _ (modify _) => apply chain_modify; reflexivity
  | |- sat _ (clearSlot _) => apply chain_modify; reflexivity
  | |- sat _ (clearTimeout _) => apply chain_modify; reflexivity
  | |- sat _ (setTimeout _ _ _) => apply chain_setTimeout; reflexivity
  | |- sat _ (updateStatus _) => apply chain_updateStatus
  end.

Lemma chain_updates l : sat status_chain (updates l).
Proof. induction l; simpl; chain_auto. done. Qed.

Lemma chain_reset : sat status_chain reset.
Proof. unfold reset. chain_auto. Qed.

Lemma chain_processResult now : sat status_chain (processResult now).
Proof. unfold processResult. chain_auto. Qed.

Lemma chain_detectInterrupt e : sat status_chain (detectInterrupt e).
Proof.
  unfold detectInterrupt, startUserListening, resetSilenceTimer.
  chain_auto. apply chain_reset.
Qed.

Lemma chain_step e ev : sat status_chain (step e ev).
Proof.
  destruct ev; unfold step.
  - unfold onstart. chain_auto.
  - unfold onresult, resetSilenceTimer. chain_auto.
  - unfold onend. chain_auto. apply chain_processResult.
  - unfold onerror, stop, cleanup. chain_auto. apply chain_reset.
  - unfold fire. apply sat_reading. intros s0.
    destruct (pending (rt s0) !! h) as [[due k]|]; [|chain_auto].
    destruct (due <=? now e); [|chain_auto].
    destruct k; unfold timer_callback, startInterruptDetection; chain_auto;
      first [apply chain_processResult | apply chain_reset
            | apply chain_detectInterrupt].
  - unfold start_resume, startInterruptDetection. chain_auto.
    apply chain_detectInterrupt.
  - unfold start. chain_auto.
  - unfold stop, cleanup. chain_auto.
  - unfold setAISpeaking. chain_auto.
Qed.

Lemma chain_run es : sat status_chain (run es).
Proof. apply (sat_run status_chain). intros. apply chain_step. Qed.

(** *** The order of the barge-in signal and the recognizer's start *)

Lemma ordered_from_true tr : ordered_from true tr = true.
Proof. induction tr as [|x tr IH]; [done|]. destruct x; done. Qed.

Lemma ordered_from_app b t1 t2 :
  ordered_from b t1 = true -> ordered_from false t2 = true ->
  ordered_from b (t1 ++ t2) = true.
Proof.
  revert b. induction t1 as [|x t1 IH]; intros b H1 H2; simpl.
  - destruct b; [apply ordered_from_true | done].
  - destruct x; simpl in *; try (by apply IH).
    destruct b; [|done]. by apply IH.
Qed.

Lemma ordered_from_signal seen tr :
  ordered_from seen tr = true ->
  forall pre post, tr = pre ++ RecStart :: post ->
                   seen = true \/ In OnUserSpeakingDetected pre.
Proof.
  revert seen. induction tr as [|x tr IH]; intros seen H pre post E.
  - by destruct pre.
  - destruct pre as [|y pre]; simpl in E; inversion E; subst.
    + simpl in H. destruct seen; [by left | done].
    + destruct y; simpl in H;
        try (destruct (IH _ H _ _ eq_refl) as [?|?]; [by left | right; by right]).
      * right. by left.
      * destruct seen; [by left | done].
Qed.

Lemma ordered_signal_first tr : ordered_from false tr = true -> signal_first tr.
Proof.
  intros H pre post E. by destruct (ordered_from_signal _ _ H _ _ E).
Qed.

#[export] Instance ordered_comp : Compositional ordered.
Proof.
  split; unfold ordered.
  - done.
  - intros s t1 s1 t2 s2. apply ordered_from_app.
Qed.

Lemma ordered_emit e : e <> RecStart -> sat ordered (emit e).
Proof. intros H s. unfold ordered. simpl. by destruct e. Qed.

Lemma ordered_modify f : sat ordered (modify f).
Proof. done. Qed.

Lemma ordered_setTimeout due k store : sat ordered (setTimeout due k store).
Proof. done. Qed.

Lemma ordered_detectInterrupt e : sat ordered (detectInterrupt e).
Proof.
  intros s. unfold ordered, detectInterrupt, reading.
  destruct (negb (isActive s) || negb (analyser s)); [done|].
  destruct (_ && _); [|done].
  unfold seq, emit. cbn [fst snd app ordered_from].
  apply ordered_from_true.
Qed.

Ltac ordered_auto :=
  sat_structure;
  try lazymatch goal with
  | |- sat _ (emit _) => apply ordered_emit; discriminate
  | |- sat _ (modify _) => apply ordered_modify
  | |- sat _ (clearSlot _) => apply ordered_modify
  | |- sat _ (clearTimeout _) => apply ordered_modify
  | |- sat _ (setTimeout _ _ _) => apply ordered_setTimeout
  | |- sat _ (detectInterrupt _) => apply ordered_detectInterrupt
  end.

Lemma ordered_step e ev : sat ordered (step e ev).
Proof.
  destruct ev; unfold step.
  - unfold onstart, updateStatus. ordered_auto.
  - unfold onresult, resetSilenceTimer. ordered_auto.
  - unfold onend, processResult, updateStatus. ordered_auto.
  - unfold onerror, stop, cleanup, reset, updateStatus. ordered_auto.
  - unfold fire. apply sat_reading. intros s0.
    destruct (pending (rt s0) !! h) as [[due k]|]; [|ordered_auto].
    destruct (due <=? now e); [|ordered_auto].
    destruct k;
      unfold timer_callback, startInterruptDetection, processResult, reset,
        updateStatus; ordered_auto.
  - unfold start_resume, startInterruptDetection, updateStatus. ordered_auto.
  - unfold start. ordered_auto.
  - unfold stop, cleanup, updateStatus. ordered_auto.
  - unfold setAISpeaking, updateStatus. ordered_auto.
Qed.

(** *** When a frame raises the barge-in signal *)

Lemma detectInterrupt_count e s :
  count is_detected (snd (detectInterrupt e s)) = b2n (fired s e).
Proof.
  unfold fired, loud, detectInterrupt, startUserListening, reset,
    resetSilenceTimer, updateStatus, reading, when, seq, emit, modify, skip,
    setTimeout, clearSlot.
  destruct s as [ac ms an r a l p st c sl af ft rt0].
  cbn [isActive analyser isListening isProcessing recognition cfg fst snd].
  destruct a, an; cbn [negb orb andb]; try done.
  destruct (Double.gtb _ _), l, p; cbn [negb orb andb fst snd]; try done.
  destruct r; cbn [negb orb andb fst snd isListening recognition]; try done.
  destruct (start_throws e); cbn [fst snd]; try done.
  all: destruct st; done.
Qed.

(** *** Result events *)

(** Every result event leaves the silence countdown restarted. *)
Lemma iv_onresult_restarts now i rs s :
  wf s ->
  wf (fst (onresult now i rs s)) /\
  silence_due (fst (onresult now i rs s))
  = Some (now + timer_delay (silenceTimeout (cfg s))) /\
  silent_until (timer_delay (silenceTimeout (cfg s)))
               (now + timer_delay (silenceTimeout (cfg s)))
               (fst (onresult now i rs s)).
Proof.
  intros W. unfold onresult.
  set (new := fst (scan_results i rs)) in *.
  set (inter := snd (scan_results i rs)) in *.
  assert (forall s2,
    wf s2 -> cfg s2 = cfg s ->
    let s3 := fst (resetSilenceTimer now s2) in
    wf s3 /\
    silence_due s3 = Some (now + timer_delay (silenceTimeout (cfg s))) /\
    silent_until (timer_delay (silenceTimeout (cfg s)))
                 (now + timer_delay (silenceTimeout (cfg s))) s3)
    as K.
  { intros s2 W2 C2 s3.
    destruct (iv_resetSilenceTimer_due now s2 W2) as (W3 & D3 & U3).
    fold s3 in W3, D3, U3. rewrite C2 in D3, U3.
    assert (cfg s3 = cfg s) as C3 by (subst s3; by rewrite <- C2).
    split; [done|]. split; [done|]. split; [by rewrite C3|].
    intros h d Hl. rewrite (U3 h d Hl). lia. }
  destruct (truthy new).
  - unfold seq at 1. unfold seq at 1, modify at 1, emit at 1. cbn [fst snd].
    unfold seq, reading, emit. cbn [fst snd].
    apply K; done.
  - unfold seq at 1. unfold skip at 1. cbn [fst snd].
    unfold seq, reading, emit. cbn [fst snd].
    apply K; done.
Qed.

Lemma iv_silence_fires e h D s :
  silenceTimer s = Some h -> silence_due s = Some D -> D <= now e ->
  count is_silence_timeout (snd (step e (EvTimer h) s)) = 1%nat /\
  (isProcessing s = false ->
   count is_finalize (snd (step e (EvTimer h) s)) = 1%nat /\
   isProcessing (fst (step e (EvTimer h) s)) = true).
Proof.
  intros Hs Hd Hn. unfold silence_due in Hd. rewrite Hs in Hd.
  unfold step, fire, reading.
  destruct (pending (rt s) !! h) as [[d k]|]; [|done].
  destruct k; try done. inversion Hd; subst d.
  assert ((D <=? now e) = true) as -> by lia.
  unfold timer_callback, seq, clearTimeout, modify, emit. cbn [fst snd app].
  destruct (isProcessing s) eqn:L.
  - rewrite processResult_idle by done. split; [done|]. intros; congruence.
  - rewrite processResult_live by done. cbn [fst snd]. unfold process_trace.
    split; [|intros _; split; [|done]];
      destruct (bool_decide _), (recognition _), (truthy _); reflexivity.
Qed.

(** *** Finalizes and resets *)

#[export] Instance no_finalize_comp : Compositional no_finalize.
Proof.
  split; unfold no_finalize.
  - done.
  - intros s t1 s1 t2 s2 H1 H2. rewrite count_app. lia.
Qed.

#[export] Instance keeps_processing_comp : Compositional keeps_processing.
Proof.
  split; unfold keeps_processing.
  - intros s. by split.
  - intros s t1 s1 t2 s2 [C1 P1] [C2 P2]. split; [|auto].
    rewrite count_app. lia.
Qed.
















(** *** Callbacks and finalizes *)

#[export] Instance iv_reports_in_finalize_comp :
  Compositional reports_in_finalize.
Proof.
  split; unfold reports_in_finalize.
  - intros s. simpl. lia.
  - intros s t1 s1 t2 s2 H1 H2. rewrite !count_app. lia.
Qed.







End InterruptibleFacts.

(** ** Barge-in against the speech service *)

Module BargeInFacts.
Import Interruptible BargeIn.

Lemma deliver_mute e t :
  Tts.isSpeaking t = false -> Tts.isSpeaking (fst (deliver e t)) = false.
Proof.
  intros H. destruct e; try done. simpl.
  unfold Tts.stop, when. destruct (Tts.synthesis t) eqn:Sy; [|done].
  unfold Tts.isSpeaking. simpl. apply andb_false_r.
Qed.

Lemma stop_mutes t : Tts.isSpeaking (fst (Tts.stop t)) = false.
Proof.
  unfold Tts.stop, when. destruct (Tts.synthesis t) eqn:Sy.
  - unfold Tts.isSpeaking. simpl. apply andb_false_r.
  - unfold Tts.isSpeaking. simpl. by rewrite Sy.
Qed.

(** Once the signal has been delivered the synthesizer is silent at every
    later start of the recognizer. *)
Lemma ordered_calm seen tr t :
  ordered_from seen tr = true ->
  (seen = true -> Tts.isSpeaking t = false) ->
  forall b, In (RecStart, b) (wire tr t) -> b = false.
Proof.
  revert seen t. induction tr as [|x tr IH]; intros seen t H Hs b Hin.
  - done.
  - simpl in Hin. destruct Hin as [E|Hin].
    + inversion E; subst. simpl in H. destruct seen; [|done].
      simpl. by apply Hs.
    + destruct x; simpl in H;
        try (eapply (IH seen); [exact H | | exact Hin];
             intros Hseen; apply deliver_mute; by apply Hs).
      * eapply (IH true); [exact H | | exact Hin].
        intros _. apply stop_mutes.
      * destruct seen; [|done].
        eapply (IH true); [exact H | | exact Hin].
        intros _. simpl. by apply Hs.
Qed.

End BargeInFacts.

(** ** ReliableVoiceInput *)

Module ReliableFacts.
Import Reliable.

#[export] Instance disabled_comp : Compositional disabled.
Proof.
  split; unfold disabled.
  - intros s H. by split.
  - intros s t1 s1 t2 s2 H1 H2 H. destruct (H1 H) as [H' C1].
    destruct (H2 H') as [H'' C2]. split; [done|].
    rewrite count_app. lia.
Qed.

Lemma disabled_emit e : e <> RecStart -> sat disabled (emit e).
Proof. intros H s Hs. split; [done|]. by destruct e. Qed.

Lemma disabled_modify f :
  (forall s, isEnabled (f s) = isEnabled s \/ isEnabled (f s) = false) ->
  sat disabled (modify f).
Proof.
  intros H s Hs. split; [|done]. simpl. destruct (H s) as [-> | ->]; done.
Qed.

Lemma disabled_setTimeout due k store :
  (forall o s, isEnabled (store o s) = isEnabled s) ->
  sat disabled (setTimeout due k store).
Proof. intros H s Hs. split; [|done]. unfold setTimeout. simpl. by rewrite H. Qed.

(** [startListening] returns at its guard when voice input is disabled. *)
Lemma disabled_startListening e : sat disabled (startListening e).
Proof.
  intros s Hs. unfold startListening, reading. rewrite Hs. simpl. by split.
Qed.

Ltac disabled_auto :=
  sat_structure;
  try lazymatch goal with
  | |- sat _ (emit _) => apply disabled_emit; discriminate
  | |- sat _ (modify _) => apply disabled_modify; intros; simpl; auto
  | |- sat _ (clearSlot _) => apply disabled_modify; intros; simpl; auto
  | |- sat _ (clearTimeout _) => apply disabled_modify; intros; simpl; auto
  | |- sat _ (setTimeout _ _ _) => apply disabled_setTimeout; reflexivity
  | |- sat _ (startListening _) => apply disabled_startListening
  end.

Lemma disabled_step e ev : ev <> CallEnable -> sat disabled (step e ev).
Proof.
  intros NE. destruct ev; try done; unfold step.
  - unfold onstart, startTimeout. disabled_auto.
  - unfold onresult, handleResult, cleanup. disabled_auto.
  - unfold onend, cleanup. disabled_auto.
  - unfold onerror, handleError, cleanup. disabled_auto.
  - unfold fire. apply sat_reading. intros s0.
    destruct (pending (rt s0) !! h) as [[due k]|]; [|disabled_auto].
    destruct (due <=? now e); [|disabled_auto].
    destruct k; unfold timer_callback, stop; disabled_auto.
  - disabled_auto.
  - unfold stop. disabled_auto.
  - unfold abort, cleanup. disabled_auto.
  - unfold disable, stop. disabled_auto.
Qed.

Lemma disabled_run es s :
  Forall (fun x => is_enable x = false) es ->
  isEnabled s = false ->
  isEnabled (fst (run es s)) = false /\
  count is_recstart (snd (run es s)) = 0%nat.
Proof.
  intros Hes. apply (sat_run disabled). intros e ev Hin.
  apply disabled_step. intros ->.
  rewrite Forall_forall in Hes. apply list_elem_of_In in Hin.
  by specialize (Hes _ Hin).
Qed.

(** The platform's not-allowed error disables voice input. *)
Lemma not_allowed_disables e s :
  recognition s = true ->
  isEnabled (fst (step e (EvError (lit "not-allowed")) s)) = false /\
  In (OnError msg_denied) (snd (step e (EvError (lit "not-allowed")) s)).
Proof.
  intros Hr. unfold step, when. rewrite Hr.
  split; [reflexivity|]. simpl. auto 10.
Qed.

(** [enable()] is what lets [startListening] through again. *)
Lemma enable_rearms e s :
  supported s = true -> recognition s = true -> isListening s = false ->
  In RecStart (snd (run [(e, CallEnable); (e, CallStartListening)] s)).
Proof.
  intros Hs Hr Hl. destruct s; simpl in *; subst.
  vm_compute. auto.
Qed.

End ReliableFacts.

(** ** VoiceActivityDetection *)

Module VadFacts.
Import Vad.

(** A frame raises the voice-start signal exactly when [fired] holds, and a
    start of the recognizer that does not raise leaves the session
    listening. *)
Lemma detectVoice_count e s :
  count is_voice_start (snd (detectVoice e s)) = b2n (fired s e) /\
  (start_throws e = false ->
   isListening (fst (detectVoice e s)) = isListening s || fired s e).
Proof.
  unfold fired, loud, detectVoice, startListening, stopListening, reading,
    when, seq, emit, modify, skip, setTimeout, clearSlot.
  destruct s as [su ac ms an r a l dt mt af c ft rt0].
  cbn [isActive analyser isListening recognition cfg fst snd].
  destruct a, an; cbn [negb orb andb];
    try (split; [done | by rewrite ?orb_false_r]).
  destruct (Double.gtb _ _), l;
    cbn [negb orb andb fst snd isListening recognition];
    try (split; [done|done]).
  destruct r; cbn [negb orb andb fst snd isListening recognition];
    try (split; [done|done]).
  destruct (start_throws e);
    cbn [negb orb andb fst snd isListening recognition app count
         is_voice_start]; split; done.
Qed.

(** Over frames alone the signal is raised at most once, and not at all
    while a session is listening. *)
Lemma frames_once fs s :
  Forall (fun x => start_throws x.1 = false) fs ->
  (count is_voice_start (snd (frames fs s))
   + b2n (negb (isListening (fst (frames fs s))))
   <= b2n (negb (isListening s)))%nat.
Proof.
  revert s. induction fs as [|[e u] fs IH]; intros s Hfs.
  - simpl. lia.
  - apply Forall_cons in Hfs as [He Hfs]. simpl in He.
    unfold frames in *. simpl. unfold seq. cbn [fst snd].
    rewrite count_app.
    destruct (detectVoice_count e s) as [C L]. specialize (L He).
    specialize (IH (fst (detectVoice e s)) Hfs). rewrite L in IH.
    rewrite C. destruct (isListening s) eqn:E.
    + assert (fired s e = false) as F
        by (unfold fired; rewrite E; simpl; by rewrite ?andb_false_r).
      rewrite F in *. simpl in *. lia.
    + destruct (fired s e); simpl in *; lia.
Qed.

(** The first frame that qualifies raises the signal, and the frames after
    it find the session listening. *)
Lemma frames_fire_once e fs s :
  Forall (fun x => start_throws x.1 = false) ((e, tt) :: fs) ->
  fired s e = true ->
  count is_voice_start (snd (frames ((e, tt) :: fs) s)) = 1%nat.
Proof.
  intros Hfs F. apply Forall_cons in Hfs as [He Hfs]. simpl in He.
  unfold frames in *. simpl. unfold seq. cbn [fst snd]. rewrite count_app.
  destruct (detectVoice_count e s) as [C L]. specialize (L He).
  rewrite C, F. rewrite F, orb_true_r in L.
  pose proof (frames_once fs (fst (detectVoice e s)) Hfs) as H.
  unfold frames in H. rewrite L in H. simpl in *. lia.
Qed.

(** When [recognition.start()] raises, the [catch] clears the listening
    flag again: the frame leaves the service as ready as it found it. *)
Lemma detectVoice_failing e s :
  start_throws e = true ->
  equipped s && negb (isListening s) = true ->
  equipped (fst (detectVoice e s)) && negb (isListening (fst (detectVoice e s)))
  = true /\
  cfg (fst (detectVoice e s)) = cfg s /\
  count is_voice_start (snd (detectVoice e s)) = b2n (loud s e).
Proof.
  intros T. unfold equipped, loud, detectVoice, startListening, stopListening,
    reading, when, seq, emit, modify, skip, setTimeout, clearSlot.
  destruct s as [su ac ms an r a l dt mt af c ft rt0].
  cbn [isActive analyser isListening recognition cfg fst snd].
  rewrite T. destruct a, an, r, l; cbn [negb orb andb]; try discriminate.
  intros _. destruct (Double.gtb _ _); cbn; done.
Qed.

Lemma frames_refire fs s :
  Forall (fun x => start_throws x.1 = true /\ loud s x.1 = true) fs ->
  equipped s && negb (isListening s) = true ->
  count is_voice_start (snd (frames fs s)) = length fs.
Proof.
  revert s. induction fs as [|[e u] fs IH]; intros s Hfs Hs; [done|].
  apply Forall_cons in Hfs as [[He Hl] Hfs]. simpl in He, Hl.
  unfold frames in *. simpl. unfold seq. cbn [fst snd]. rewrite count_app.
  destruct (detectVoice_failing e s He Hs) as (Hs' & Hc & C).
  rewrite C, Hl. rewrite IH; [done | | done].
  eapply Forall_impl; [exact Hfs|]. intros [e0 u0] [H1 H2]. split; [done|].
  unfold loud in *. by rewrite Hc.
Qed.

(** The end of a session re-arms the detection: after the handler, a frame
    qualifies as soon as it is loud. *)
Lemma rearm_handleVoiceEnd now t s e :
  fired (fst (handleVoiceEnd now t s)) e = equipped s && loud s e.
Proof.
  unfold fired, equipped, loud, handleVoiceEnd, stopListening, reading, when,
    seq, emit, modify, skip, setTimeout, clearSlot.
  destruct s as [su ac ms an r a l dt mt af c ft rt0].
  cbn [isActive analyser isListening recognition cfg fst snd].
  destruct l, r, (truthy (trim t)), a, an, (Double.gtb _ _); reflexivity.
Qed.

Lemma handleVoiceEnd_ends now t s :
  isListening (fst (handleVoiceEnd now t s)) = false.
Proof.
  unfold handleVoiceEnd, stopListening, reading, seq, emit, when, modify,
    skip, setTimeout, clearSlot.
  destruct s as [su ac ms an r a l dt mt af c ft rt0].
  cbn [isListening fst snd negb].
  destruct l, r, (truthy (trim t)); reflexivity.
Qed.

Lemma rearm_onerror e0 err s e :
  fired (fst (step e0 (EvError err) s)) e = equipped s && loud s e.
Proof.
  unfold fired, equipped, loud, step, onerror, stopListening, reading, when,
    seq, emit, modify, skip, setTimeout, clearSlot.
  destruct s as [su ac ms an r a l dt mt af c ft rt0].
  cbn [isActive analyser isListening recognition cfg fst snd].
  destruct r; [|by rewrite !andb_false_r].
  destruct l, a, an, (Double.gtb _ _); reflexivity.
Qed.

Lemma stopListening_equipped s e :
  equipped (fst (stopListening s)) = equipped s /\
  loud (fst (stopListening s)) e = loud s e.
Proof.
  unfold equipped, loud, stopListening, reading, when, seq, emit, modify,
    skip, clearSlot.
  destruct s as [su ac ms an r a l dt mt af c ft rt0].
  cbn [isActive analyser isListening recognition cfg fst snd].
  by destruct l, r.
Qed.

Lemma rearm_max_listen e0 s e :
  fired (fst (timer_callback e0 KMaxListen s)) e = equipped s && loud s e.
Proof.
  unfold timer_callback, when, seq, emit. cbn [fst snd].
  destruct (isListening s) eqn:L.
  - cbn [fst snd]. rewrite rearm_handleVoiceEnd.
    by destruct (stopListening_equipped s e) as [-> ->].
  - cbn [fst snd app]. unfold fired, equipped. rewrite L.
    destruct (isActive s), (analyser s), (recognition s), (loud s e); done.
Qed.

Lemma rearm_final_result e0 i rs s e :
  truthy (trim (fst (scan_results i rs))) = true ->
  fired (fst (step e0 (EvResult i rs) s)) e = equipped s && loud s e.
Proof.
  intros T. unfold step, when.
  destruct (recognition s) eqn:R.
  - unfold onresult. rewrite T. unfold seq at 1 2 3. cbn [fst snd emit modify].
    rewrite rearm_handleVoiceEnd.
    destruct s as [su ac ms an r a l dt mt af c ft rt0]. reflexivity.
  - unfold fired, equipped. cbn [fst]. rewrite R. by rewrite !andb_false_r.
Qed.

End VadFacts.

(** ** TTSService *)

Module TtsFacts.
Import Tts.

Lemma math_min_num a x :
  exists r, math_min (Num a) (Num x) = Num r /\ Qeq r (Qmin a x).
Proof.
  simpl. destruct (Qle_bool a x) eqn:E.
  - exists a. split; [done|]. apply Qle_bool_iff in E.
    symmetry. by apply Q.min_l.
  - exists x. split; [done|]. symmetry. apply Q.min_r.
    apply Qlt_le_weak, Qnot_le_lt. intros H. apply Qle_bool_iff in H.
    congruence.
Qed.

Lemma math_max_num a x :
  exists r, math_max (Num a) (Num x) = Num r /\ Qeq r (Qmax a x).
Proof.
  simpl. destruct (Qle_bool a x) eqn:E.
  - exists x. split; [done|]. apply Qle_bool_iff in E.
    symmetry. by apply Q.max_r.
  - exists a. split; [done|]. symmetry. apply Q.max_l.
    apply Qlt_le_weak, Qnot_le_lt. intros H. apply Qle_bool_iff in H.
    congruence.
Qed.

(** [Math.max(lo, Math.min(hi, x))] on a rational is the clamp of the
    standard library's [Qmax] and [Qmin]. *)
Lemma clamp_value lo hi x :
  value_is (math_max (Num lo) (math_min (Num hi) (Num x)))
           (Qmax lo (Qmin hi x)).
Proof.
  destruct (math_min_num hi x) as (r & -> & Hr).
  destruct (math_max_num lo r) as (r' & -> & Hr').
  unfold value_is. rewrite Hr'. by apply Q.max_compat.
Qed.

Lemma clamp_range lo hi x :
  Qle lo hi ->
  Qle lo (Qmax lo (Qmin hi x)) /\ Qle (Qmax lo (Qmin hi x)) hi.
Proof.
  intros H. split.
  - apply Q.le_max_l.
  - apply Q.max_lub; [done | apply Q.le_min_l].
Qed.

(** *** Chunked speech *)

Lemma drop_ws_length s : (length (drop_ws s) <= length s)%nat.
Proof.
  induction s as [|c s IH]; simpl; [done|].
  destruct (is_ws c); simpl; lia.
Qed.

Lemma trim_length s : (length (trim s) <= length s)%nat.
Proof.
  unfold trim. rewrite length_rev.
  etrans; [apply drop_ws_length|]. rewrite length_rev. apply drop_ws_length.
Qed.

(** A chunk exceeds [chunkSize] by at most the joining space, unless it is
    one sentence piece by itself. *)
Lemma chunk_loop_bound chunkSize all sentences currentChunk :
  (forall p, In p sentences -> In p all) ->
  Z.of_nat (length currentChunk) <= chunkSize + 1
  \/ In currentChunk all \/ currentChunk = [] ->
  forall chunk, In chunk (chunks (chunk_loop chunkSize sentences currentChunk)) ->
  Z.of_nat (length chunk) <= chunkSize + 1
  \/ exists p, In p all /\ chunk = trim p.
Proof.
  revert currentChunk.
  induction sentences as [|sentence rest IH]; intros cur Hall Hcur chunk Hin.
  - simpl in Hin. destruct (truthy (trim cur)) eqn:T; [|done].
    destruct Hin as [<-|[]].
    destruct Hcur as [H|[H| ->]]; [| |done].
    + left. pose proof (trim_length cur). lia.
    + right. by exists cur.
  - simpl in Hin.
    destruct (chunkSize <? Z.of_nat (length cur + length sentence)) eqn:C.
    + assert (forall c, In c (chunks (chunk_loop chunkSize rest sentence)) ->
                Z.of_nat (length c) <= chunkSize + 1
                \/ exists p, In p all /\ c = trim p) as Hrest.
      { intros c. apply IH; [intros; apply Hall; by right|].
        right. left. apply Hall. by left. }
      destruct (truthy (trim cur)) eqn:T; [|by apply Hrest].
      simpl in Hin. destruct Hin as [<-|Hin]; [|by apply Hrest].
      destruct Hcur as [H|[H| ->]]; [| |done].
      * left. pose proof (trim_length cur). lia.
      * right. by exists cur.
    + revert Hin. apply IH; [intros; apply Hall; by right|].
      left. apply Z.ltb_ge in C. rewrite !length_app in *.
      destruct (truthy cur); simpl; lia.
Qed.

Lemma speakLongText_bound s text chunkSize chunk :
  In chunk (chunks (speakLongText s text chunkSize)) ->
  Z.of_nat (length chunk) <= chunkSize + 1
  \/ exists p, In p (splitIntoSentences text) /\ chunk = trim p.
Proof.
  unfold speakLongText. destruct (_ || _); [done|].
  apply chunk_loop_bound; auto.
Qed.

End TtsFacts.

(** ** Sessions, shutdown and speech scripts *)

Section EndFacts.
Context {S E : Type} (Q : S -> Prop).

#[export] Instance preserved_comp : Compositional (@preserved S E Q).
Proof. split; unfold preserved; auto. Qed.

Lemma preserved_prim (c : cmd S E) :
  (forall s, Q s -> Q (fst (c s))) -> sat (preserved Q) c.
Proof. intros H s. exact (H s). Qed.

Lemma ends_in_seq_r (c1 c2 : cmd S E) : ends_in Q c2 -> ends_in Q (seq c1 c2).
Proof. intros H s. apply H. Qed.

Lemma ends_in_seq_l (c1 c2 : cmd S E) :
  ends_in Q c1 -> sat (preserved Q) c2 -> ends_in Q (seq c1 c2).
Proof. intros H1 H2 s. exact (H2 _ (H1 s)). Qed.

Lemma fst_seq (c1 c2 : cmd S E) s :
  fst (seq c1 c2 s) = fst (c2 (fst (c1 s))).
Proof. reflexivity. Qed.

Lemma snd_seq (c1 c2 : cmd S E) s :
  snd (seq c1 c2 s) = snd (c1 s) ++ snd (c2 (fst (c1 s))).
Proof. reflexivity. Qed.

End EndFacts.

Section TableFacts.
Context {K : Type}.

Lemma fresh_next_free (r : runtime K) :
  rt_fresh r -> pending r !! next_id r = None.
Proof.
  intros F. destruct (pending r !! next_id r) as [v|] eqn:E; [|done].
  apply F in E. lia.
Qed.

End TableFacts.

(** Peels a command whose every primitive step keeps a property. *)
Ltac preserved_auto :=
  sat_structure;
  try (apply preserved_prim; intros ? ?; assumption).

Module TextFacts.

#[local] Arguments is_ws : simpl never.


Lemma drop_ws_clean s : starts_clean (drop_ws s).
Proof.
  induction s as [|c s IH]; simpl; [done|].
  destruct (is_ws c) eqn:E; [done|]. exact E.
Qed.

Lemma drop_ws_id s : starts_clean s -> drop_ws s = s.
Proof. destruct s as [|c s]; simpl; [done|]. by intros ->. Qed.

Lemma drop_ws_snoc l c :
  is_ws c = false -> drop_ws (l ++ [c]) = drop_ws l ++ [c].
Proof.
  intros H. induction l as [|x l IH]; simpl; [by rewrite H|].
  by destruct (is_ws x).
Qed.

(** Dropping white space at the end keeps a clean start. *)
Lemma rev_drop_rev_clean u :
  starts_clean u -> starts_clean (rev (drop_ws (rev u))).
Proof.
  destruct u as [|c u]; simpl; [done|]. intros H.
  rewrite drop_ws_snoc by done. by rewrite rev_app_distr.
Qed.

Lemma trim_starts_clean s : starts_clean (trim s).
Proof. apply rev_drop_rev_clean, drop_ws_clean. Qed.

Lemma trim_idem s : trim (trim s) = trim s.
Proof.
  unfold trim at 1.
  rewrite (drop_ws_id (trim s)) by apply trim_starts_clean.
  unfold trim. rewrite rev_involutive.
  by rewrite (drop_ws_id (drop_ws _)) by apply drop_ws_clean.
Qed.

(** What passes the test [if (s.trim())] is fit to be reported, trimmed. *)
Lemma trim_trimmed s : truthy (trim s) = true -> trimmed_text (trim s).
Proof. intros H. split; [done | apply trim_idem]. Qed.

Import Tts.

Lemma visible_app a b : visible (a ++ b) = visible a ++ visible b.
Proof. apply List.filter_app. Qed.

Lemma visible_drop_ws s : visible (drop_ws s) = visible s.
Proof.
  unfold visible. induction s as [|c s IH]; simpl; [done|].
  destruct (is_ws c) eqn:E; simpl; [done|]. rewrite E. reflexivity.
Qed.

Lemma visible_rev s : visible (rev s) = rev (visible s).
Proof.
  induction s as [|c s IH]; simpl; [done|].
  rewrite visible_app, IH. unfold visible. simpl.
  destruct (is_ws c); simpl; [by rewrite app_nil_r | done].
Qed.

Lemma visible_trim s : visible (trim s) = visible s.
Proof.
  unfold trim.
  by rewrite visible_rev, visible_drop_ws, visible_rev, rev_involutive,
    visible_drop_ws.
Qed.

(** A string passes [if (s.trim())] exactly when it has a visible
    character. *)
Lemma truthy_trim_visible s : truthy (trim s) = truthy (visible s).
Proof.
  rewrite <- (visible_trim s). pose proof (trim_starts_clean s) as H.
  destruct (trim s) as [|c r]; simpl in *; [done|]. by rewrite H.
Qed.

End TextFacts.

Module SpeechFacts.
Import Tts TextFacts.

#[local] Arguments is_ws : simpl never.

(** *** Splitting into sentences *)

Lemma take_while_prefix p s :
  take_while p s ++ drop (length (take_while p s)) s = s.
Proof.
  induction s as [|c s IH]; simpl; [done|].
  destruct (p c); simpl; [by rewrite IH | done].
Qed.

(** A separator found at the head of [s] is a prefix of [s], and not
    empty. *)
Lemma sep_match_prefix s sep :
  sep_match s = Some sep ->
  sep ++ drop (length sep) s = s /\ (0 < length sep)%nat.
Proof.
  unfold sep_match.
  set (p := take_while is_terminator s).
  set (w := take_while is_ws (drop (length p) s)).
  destruct (truthy p) eqn:Hp; [|done].
  destruct (truthy w) eqn:Hw; [|done].
  simpl. intros [= <-]. split.
  - rewrite length_app, <- drop_drop, <- app_assoc.
    subst w. rewrite take_while_prefix. subst p. apply take_while_prefix.
  - rewrite length_app. destruct p; [done|]. simpl. lia.
Qed.

(** The pieces of [split], put together again, are the text. *)
Lemma split_go_concat s skip piece :
  concat (split_go s skip piece) = piece ++ drop skip s.
Proof.
  revert skip piece. induction s as [|c s IH]; intros skip piece.
  - simpl. by rewrite drop_nil, app_nil_r.
  - destruct skip as [|k].
    + cbn [split_go]. destruct (sep_match (c :: s)) as [sep|] eqn:M.
      * apply sep_match_prefix in M as [P L].
        cbn [concat]. rewrite IH. cbn [app drop].
        f_equal. etrans; [|exact P].
        f_equal. destruct sep as [|x sep]; [simpl in L; lia|].
        simpl. by rewrite Nat.sub_0_r.
      * rewrite IH. by rewrite <- app_assoc.
    + cbn [split_go]. by rewrite IH.
Qed.

Lemma split_sentences_regex_concat text :
  concat (split_sentences_regex text) = text.
Proof. apply split_go_concat. Qed.

Lemma visible_concat_filter (l : list jsstring) :
  visible (concat (List.filter (fun part => (0 <? length (trim part))%nat) l))
  = visible (concat l).
Proof.
  induction l as [|p l IH]; simpl; [done|].
  destruct (0 <? length (trim p))%nat eqn:E; simpl;
    rewrite !visible_app, IH; [done|].
  apply Nat.ltb_ge in E.
  assert (visible p = []) as ->; [|done].
  rewrite <- visible_trim. destruct (trim p); [done | simpl in E; lia].
Qed.

Lemma splitIntoSentences_visible text :
  visible (concat (splitIntoSentences text)) = visible text.
Proof.
  unfold splitIntoSentences.
  by rewrite visible_concat_filter, split_sentences_regex_concat.
Qed.

Lemma splitIntoSentences_nonblank text :
  Forall (fun p => truthy (trim p) = true) (splitIntoSentences text).
Proof.
  apply List.Forall_forall. intros p Hin.
  apply List.filter_In in Hin as [_ H]. apply Nat.ltb_lt in H.
  destruct (trim p); [simpl in H; lia | done].
Qed.

Lemma splitIntoSentences_nonempty text :
  truthy (trim text) = true -> splitIntoSentences text <> [].
Proof.
  intros T E. pose proof (splitIntoSentences_visible text) as V.
  rewrite E in V. simpl in V.
  rewrite truthy_trim_visible, <- V in T. done.
Qed.

(** *** The script of [speakLongText] *)

Lemma chunks_app a b : chunks (a ++ b) = chunks a ++ chunks b.
Proof.
  induction a as [|[c|ms] a IH]; simpl; [done| |done]. by rewrite IH.
Qed.

Lemma blank_invisible s : truthy (trim s) = false -> visible s = [].
Proof.
  rewrite truthy_trim_visible. by destruct (visible s).
Qed.

Lemma nonblank_app a b :
  truthy (trim b) = true -> truthy (trim (a ++ b)) = true.
Proof.
  rewrite !truthy_trim_visible, visible_app.
  destruct (visible b); [done|]. by destruct (visible a).
Qed.

Lemma chunk_loop_visible chunkSize sentences currentChunk :
  visible (concat (chunks (chunk_loop chunkSize sentences currentChunk)))
  = visible currentChunk ++ visible (concat sentences).
Proof.
  revert currentChunk.
  induction sentences as [|sentence rest IH]; intros cur; simpl.
  - rewrite app_nil_r. destruct (truthy (trim cur)) eqn:T; simpl.
    + by rewrite app_nil_r, visible_trim.
    + by rewrite (blank_invisible cur).
  - destruct (chunkSize <? _).
    + rewrite chunks_app, concat_app, !visible_app, IH.
      destruct (truthy (trim cur)) eqn:T; simpl.
      * by rewrite app_nil_r, visible_trim.
      * by rewrite (blank_invisible cur).
    + rewrite IH, !visible_app.
      destruct (truthy cur);
        [change (visible (lit " ")) with (@nil N)|];
        simpl; by rewrite <- ?app_assoc.
Qed.

Lemma chunk_loop_script chunkSize sentences currentChunk :
  Forall (fun p => truthy (trim p) = true) sentences ->
  paused_between (chunk_loop chunkSize sentences currentChunk) = true /\
  (truthy (trim currentChunk) = true \/ sentences <> [] ->
   exists c rest,
     chunk_loop chunkSize sentences currentChunk = Speak c :: rest).
Proof.
  revert currentChunk.
  induction sentences as [|sentence rest IH]; intros cur Hs; simpl.
  - destruct (truthy (trim cur)) eqn:T; (split; [done|]).
    + intros _. by eexists _, _.
    + by intros [?|?].
  - apply Forall_cons in Hs as [Hp Hs].
    destruct (chunkSize <? _).
    + destruct (IH sentence Hs) as [P (c & r & E)]; [by left|].
      destruct (truthy (trim cur)) eqn:T; simpl.
      * split; [|intros _; by eexists _, _].
        rewrite E in *. exact P.
      * split; [done|]. intros _. by exists c, r.
    + destruct (IH (cur ++ (if truthy cur then lit " " else []) ++ sentence)
                  Hs) as [P H].
      split; [exact P|]. intros _. apply H. left.
      rewrite app_assoc. by apply nonblank_app.
Qed.

Lemma chunk_loop_trimmed chunkSize sentences currentChunk c :
  In c (chunks (chunk_loop chunkSize sentences currentChunk)) ->
  trimmed_text c.
Proof.
  revert currentChunk.
  induction sentences as [|sentence rest IH]; intros cur; simpl.
  - destruct (truthy (trim cur)) eqn:T; [|done].
    intros [<-|[]]. by apply trim_trimmed.
  - destruct (chunkSize <? _); [|apply IH].
    rewrite chunks_app. intros H. apply in_app_or in H as [H|H]; [|by eapply IH].
    destruct (truthy (trim cur)) eqn:T; [|done].
    destruct H as [<-|[]]. by apply trim_trimmed.
Qed.

(** *** Awaiting the script *)

Lemma await_script_resolved script rejected :
  Forall (fun b => b = false) rejected ->
  await_script script rejected = (script, true).
Proof.
  revert rejected. induction script as [|a script IH]; intros rj H; [done|].
  destruct a as [c|ms]; simpl.
  - destruct rj as [|b rj]; simpl.
    + by rewrite (IH [] H).
    + apply Forall_cons in H as [-> H]. by rewrite (IH rj H).
  - by rewrite (IH rj H).
Qed.

Lemma await_script_rejected script ok more :
  Forall (fun b => b = false) ok ->
  (length ok < length (chunks script))%nat ->
  snd (await_script script (ok ++ true :: more)) = false /\
  chunks (fst (await_script script (ok ++ true :: more)))
  = take (S (length ok)) (chunks script).
Proof.
  revert ok. induction script as [|a script IH]; intros ok H L.
  - simpl in L. lia.
  - destruct a as [c|ms]; simpl in *.
    + destruct ok as [|b ok]; simpl.
      * split; [done|]. by rewrite take_0.
      * apply Forall_cons in H as [-> H].
        destruct (IH ok H) as [E1 E2]; [simpl in L; lia|].
        simpl. split; [done|]. by rewrite E2.
    + by apply IH.
Qed.

End SpeechFacts.

Module SettingFacts.
Import Tts.


Lemma clamp_fold lo hi x :
  math_max (Num lo) (math_min (Num hi) x) = clamp lo hi x.
Proof. reflexivity. Qed.

Lemma clamp_cases lo hi x :
  Qle lo hi ->
  (x = NaN /\ clamp lo hi x = NaN) \/
  (x <> NaN /\
   (clamp lo hi x = Num lo \/ clamp lo hi x = Num hi \/
    exists q, x = Num q /\ clamp lo hi x = Num q /\ Qle lo q /\ Qle q hi)).
Proof.
  intros H. unfold clamp.
  assert (Qle_bool lo hi = true) as Hb by by apply Qle_bool_iff.
  destruct x as [q| | |]; simpl.
  - right. split; [done|].
    destruct (Qle_bool hi q) eqn:E1; simpl.
    + rewrite Hb. auto.
    + destruct (Qle_bool lo q) eqn:E2; [|auto].
      right. right. exists q. repeat split; [by apply Qle_bool_iff|].
      apply Qlt_le_weak, Qnot_le_lt. intros C. apply Qle_bool_iff in C.
      congruence.
  - right. split; [done|]. rewrite Hb. auto.
  - right. split; [done|]. auto.
  - left. done.
Qed.

Lemma clamp_idem lo hi x :
  Qlt lo hi -> clamp lo hi (clamp lo hi x) = clamp lo hi x.
Proof.
  intros Hlt. pose proof (Qlt_le_weak _ _ Hlt) as H.
  assert (Qle_bool hi lo = false) as Hn.
  { destruct (Qle_bool hi lo) eqn:E; [|done].
    apply Qle_bool_iff in E. by destruct (Qlt_not_le _ _ Hlt). }
  assert (Qle_bool lo hi = true) as Hb by by apply Qle_bool_iff.
  assert (Qle_bool lo lo = true) as Hl by (apply Qle_bool_iff, Qle_refl).
  assert (Qle_bool hi hi = true) as Hh by (apply Qle_bool_iff, Qle_refl).
  destruct (clamp_cases lo hi x H) as [[_ ->]|[_ [-> |[-> |(q & -> & E & L1 & L2)]]]].
  - done.
  - unfold clamp. simpl. rewrite Hn. simpl. by rewrite Hl.
  - unfold clamp. simpl. rewrite Hh. simpl. by rewrite Hb.
  - by rewrite E, E.
Qed.

Lemma clamp_range_all lo hi x :
  Qle lo hi -> x <> NaN ->
  exists q, clamp lo hi x = Num q /\ Qle lo q /\ Qle q hi.
Proof.
  intros H N.
  destruct (clamp_cases lo hi x H) as [[-> _]|[_ [E|[E|(q & _ & E & L1 & L2)]]]];
    [done| | |]; rewrite E; eexists; (split; [done|]).
  - split; [apply Qle_refl | done].
  - split; [done | apply Qle_refl].
  - done.
Qed.

End SettingFacts.

Module VoiceFacts.
Import Tts.

Lemma find_index_Some {A} (p : A -> bool) l i :
  find_index p l = Some i -> exists v, l !! i = Some v /\ p v = true.
Proof.
  revert i. induction l as [|x l IH]; intros i; simpl; [done|].
  destruct (p x) eqn:E.
  - intros [= <-]. by exists x.
  - destruct (find_index p l) as [j|]; [|done].
    simpl. intros [= <-]. destruct (IH j eq_refl) as (v & Hv & Hp).
    by exists v.
Qed.

Lemma find_index_None {A} (p : A -> bool) l v :
  find_index p l = None -> In v l -> p v = false.
Proof.
  induction l as [|x l IH]; simpl; [done|].
  destruct (p x) eqn:E; [done|].
  destruct (find_index p l); [done|].
  intros _ [<-|H]; [done | by apply IH].
Qed.

(** What the loop over the preferences settles on. *)
Lemma first_choice_preferences voices :
  voices <> [] ->
  exists i v,
    first_choice preferences voices = Some i /\ voices !! i = Some v /\
    (forall w, In w voices -> is_english w = true -> is_english v = true) /\
    (forall w, In w voices -> is_english w = true ->
       includes (lit "female") (toLowerCase (v_name w)) = true ->
       includes (lit "female") (toLowerCase (v_name v)) = true).
Proof.
  intros Hne. unfold preferences. cbn [first_choice].
  lazymatch goal with |- context [find_index ?p voices] =>
    destruct (find_index p voices) as [i|] eqn:E1 end.
  { destruct (find_index_Some _ _ _ E1) as (v & Hv & Hp).
    apply andb_prop in Hp as [He Hf]. exists i, v. auto. }
  lazymatch goal with |- context [find_index ?p voices] =>
    destruct (find_index p voices) as [i|] eqn:E2 end.
  { destruct (find_index_Some _ _ _ E2) as (v & Hv & Hp).
    apply andb_prop in Hp as [He Hf]. exists i, v.
    split; [done|]. split; [done|]. split; [auto|].
    intros w Hw Hen Hfe.
    pose proof (find_index_None _ _ w E1 Hw) as C. simpl in C.
    by rewrite Hen, Hfe in C. }
  destruct (find_index is_english voices) as [i|] eqn:E3.
  { destruct (find_index_Some _ _ _ E3) as (v & Hv & Hp).
    exists i, v. split; [done|]. split; [done|]. split; [auto|].
    intros w Hw Hen Hfe.
    pose proof (find_index_None _ _ w E1 Hw) as C. simpl in C.
    by rewrite Hen, Hfe in C. }
  assert (forall w, In w voices -> is_english w = true -> False) as Hno.
  { intros w Hw Hen. pose proof (find_index_None _ _ w E3 Hw). congruence. }
  destruct (find_index v_default voices) as [i|] eqn:E4.
  { destruct (find_index_Some _ _ _ E4) as (v & Hv & Hp).
    exists i, v. split; [done|]. split; [done|].
    split; intros w Hw Hen; by destruct (Hno w Hw Hen). }
  destruct voices as [|v0 voices]; [done|]. simpl.
  exists 0%nat, v0. split; [done|]. split; [done|].
  split; intros w Hw Hen; by destruct (Hno w Hw Hen).
Qed.

End VoiceFacts.

Lemma cleared_pending {K} (o : option nat) (r : runtime K) h v :
  pending (rt_clear_opt o r) !! h = Some v -> pending r !! h = Some v.
Proof. intros H. by apply rt_clear_opt_lookup in H as [H _]. Qed.

Section ReportFacts.
Context {S E : Type} (f : E -> option jsstring).

#[export] Instance reports_trimmed_comp :
  Compositional (@reports_trimmed S E f).
Proof.
  split; unfold reports_trimmed.
  - intros s x t [].
  - intros s t1 s1 t2 s2 H1 H2 x t Hin.
    apply in_app_or in Hin as [Hin|Hin]; eauto.
Qed.

Lemma reports_emit (e : E) :
  f e = None -> sat (@reports_trimmed S E f) (emit e).
Proof. intros H s x t [<-|[]]. by rewrite H. Qed.

Lemma reports_silent (c : cmd S E) :
  (forall s, snd (c s) = []) -> sat (@reports_trimmed S E f) c.
Proof. intros H s x t. by rewrite H. Qed.

End ReportFacts.

Module SimpleSessions.
Import Simple TextFacts.

(** [abort()], spelled out. *)
Lemma abort_spec s :
  abort s
  = (State (recognition s) false (cfg s) None None (finalTranscript s)
       (rt_clear_opt (silenceTimer s) (rt_clear_opt (timeoutTimer s) (rt s))),
     Console LogAborting
     :: (if recognition s then [RecAbort] else []) ++ [OnStop]).
Proof.
  destruct s as [r l c tt st ft rt0]. unfold abort, clearTimers, clearSlot,
    when, seq, emit, modify. simpl. by destruct r.
Qed.

(** [onerror], spelled out. *)
Lemma onerror_spec err s :
  onerror err s
  = (State (recognition s) false (cfg s) None None (finalTranscript s)
       (rt_clear_opt (silenceTimer s) (rt_clear_opt (timeoutTimer s) (rt s))),
     [Console (LogRecognitionError err); OnError err]).
Proof.
  destruct s as [r l c tt st ft rt0]. reflexivity.
Qed.

(** The restart timer of a completed turn. *)
Lemma restart_pending now s :
  pending (rt (completed now s)) !! next_id (rt s)
  = Some (now + 3000, KRestart).
Proof.
  unfold completed. simpl.
  destruct (silenceTimer s), (timeoutTimer s); simpl; apply lookup_insert_eq.
Qed.

Lemma restart_fires e h d s :
  pending (rt s) !! h = Some (d, KRestart) ->
  d <= now e -> isListening s = false -> recognition s = true ->
  start_throws e = false ->
  snd (step e (EvTimer h) s)
  = [Console LogAutoRestarting; Console LogStarting; RecStart].
Proof.
  intros P D L R T. unfold step, fire, reading. rewrite P.
  apply Z.leb_le in D. rewrite D.
  destruct s as [r l c tt st ft rt0]. simpl in L, R. subst.
  unfold timer_callback, clearTimeout, start, reading, seq, modify, emit.
  simpl. by rewrite T.
Qed.

Lemma not_due e h d k s :
  pending (rt s) !! h = Some (d, k) -> now e < d ->
  step e (EvTimer h) s = (s, []).
Proof.
  intros P D. unfold step, fire, reading. rewrite P.
  apply Z.leb_gt in D. by rewrite D.
Qed.

(** *** Reports *)

Lemma simple_reports_complete now : sat (reports_trimmed report_of) (complete now).
Proof.
  intros s x t. destruct (isListening s) eqn:L.
  - rewrite SimpleFacts.complete_live by done. unfold complete_trace.
    cbn [fst snd]. intros [<-|Hin]; [done|].
    apply in_app_or in Hin as [Hin|Hin].
    { destruct (recognition s); [|done]. by destruct Hin as [<-|[]]. }
    apply in_app_or in Hin as [Hin|Hin]; [|by destruct Hin as [<-|[]]].
    destruct (truthy (trim (finalTranscript s))) eqn:T; [|done].
    destruct Hin as [<-|[]]. intros [= <-]. by apply trim_trimmed.
  - by rewrite SimpleFacts.complete_idle.
Qed.

Ltac reports_auto :=
  sat_structure;
  try lazymatch goal with
  | |- sat _ (emit _) => apply reports_emit; reflexivity
  | |- sat _ (complete _) => apply simple_reports_complete
  | |- sat _ _ => apply reports_silent; reflexivity
  end.

Lemma simple_reports_step e ev : sat (reports_trimmed report_of) (step e ev).
Proof.
  destruct ev; unfold step.
  - unfold onstart, startTimers, resetSilenceTimer. reports_auto.
  - unfold onresult, resetSilenceTimer. reports_auto.
  - unfold onend. reports_auto.
  - unfold onerror, clearTimers. reports_auto.
  - unfold fire. apply sat_reading. intros s0.
    destruct (pending (rt s0) !! h) as [[due k]|]; [|reports_auto].
    destruct (due <=? now e); [|reports_auto].
    destruct k; unfold timer_callback, stop, start; reports_auto.
  - unfold start. reports_auto.
  - unfold stop. reports_auto.
  - unfold abort, clearTimers. reports_auto.
Qed.

Lemma simple_reports_run es : sat (reports_trimmed report_of) (run es).
Proof. apply (sat_run (reports_trimmed report_of)). intros. apply simple_reports_step. Qed.

End SimpleSessions.

Module SimpleTimeout.
Import Simple.






End SimpleTimeout.

Module ReliableSessions.
Import Reliable TextFacts.


(** [cleanup], spelled out. *)
Lemma cleanup_spec s :
  cleanup s
  = (State (supported s) (recognition s) false (isEnabled s) (cfg s) None
       (rt_clear_opt (timeoutTimer s) (rt s)),
     [OnListeningEnd]).
Proof. by destruct s. Qed.

(** Every event that ends a session runs [cleanup] once: it clears the
    listening flag and the timeout timer and notifies the end of
    listening, whether a session was listening or not. *)
Lemma ends_session_cleanup e ev s :
  recognition s = true -> ends_session ev = true ->
  isListening (fst (step e ev s)) = false /\
  timeoutTimer (fst (step e ev s)) = None /\
  rt (fst (step e ev s)) = rt_clear_opt (timeoutTimer s) (rt s) /\
  count is_listening_end (snd (step e ev s)) = 1%nat.
Proof.
  intros R E. destruct s as [su r l en c tt rt0]. simpl in R. subst r.
  destruct ev; try done; unfold step, when; cbn [recognition].
  - unfold onresult. simpl in E. rewrite E. by repeat split.
  - unfold onerror, handleError.
    destruct (str_eqb error (lit "not-allowed")) eqn:E1;
      [|destruct (str_eqb error (lit "no-speech")) eqn:E2];
      unfold seq, emit, cleanup, modify, clearSlot; simpl;
      rewrite ?E1, ?E2; by repeat split.
  - unfold abort, seq, emit, cleanup, modify, clearSlot, when. simpl.
    destruct (abort_throws e); by repeat split.
Qed.



Lemma reliable_reports_handleResult t :
  trimmed_text t -> sat (reports_trimmed report_of) (handleResult t).
Proof.
  intros H s x u. rewrite (surjective_pairing (handleResult t s)).
  unfold handleResult, seq, emit. cbn [fst snd]. rewrite cleanup_spec.
  cbn [fst snd app]. intros [<-|[<-|[<-|[]]]]; try done.
  by intros [= <-].
Qed.

Ltac reports_auto :=
  sat_structure;
  try lazymatch goal with
  | |- sat _ (emit _) => apply reports_emit; reflexivity
  | |- sat _ (handleResult (trim _)) => idtac
  | |- sat _ _ => apply reports_silent; reflexivity
  end.

Lemma reliable_reports_step e ev : sat (reports_trimmed report_of) (step e ev).
Proof.
  destruct ev; unfold step.
  - unfold onstart, startTimeout. reports_auto.
  - unfold onresult. apply (sat_when (reports_trimmed report_of)).
    apply (sat_seq (reports_trimmed report_of)); [reports_auto|].
    apply (sat_seq (reports_trimmed report_of)); [reports_auto|].
    destruct (truthy (trim _)) eqn:T;
      [|apply (sat_skip (reports_trimmed report_of))].
    by apply reliable_reports_handleResult, trim_trimmed.
  - unfold onend, cleanup. reports_auto.
  - unfold onerror, handleError, cleanup. reports_auto.
  - unfold fire. apply sat_reading. intros s0.
    destruct (pending (rt s0) !! h) as [[due k]|]; [|reports_auto].
    destruct (due <=? now e); [|reports_auto].
    destruct k; unfold timer_callback, stop; reports_auto.
  - unfold startListening. reports_auto.
  - unfold stop. reports_auto.
  - unfold abort, cleanup. reports_auto.
  - unfold enable. reports_auto.
  - unfold disable, stop. reports_auto.
Qed.

Lemma reliable_reports_run es : sat (reports_trimmed report_of) (run es).
Proof. apply (sat_run (reports_trimmed report_of)). intros. apply reliable_reports_step. Qed.

End ReliableSessions.

Module InterruptibleShutdown.
Import Interruptible TextFacts.

#[export] Instance stays_shut_comp : Compositional stays_shut.
Proof.
  split; unfold stays_shut.
  - intros s H. split; [done|]. by split.
  - intros s t1 s1 t2 s2 H1 H2 H.
    destruct (H1 H) as (H' & A1 & B1). destruct (H2 H') as (H'' & A2 & B2).
    split; [done|]. rewrite !count_app. lia.
Qed.

Lemma shut_emit e :
  is_recstart e = false -> is_detected e = false -> sat stays_shut (emit e).
Proof. intros H1 H2 s Hs. simpl. rewrite H1, H2. split; [done|]. by split. Qed.

Lemma shut_modify f :
  (forall s, audioContext (f s) = audioContext s
             \/ audioContext (f s) = false) ->
  (forall s, isActive (f s) = isActive s \/ isActive (f s) = false) ->
  sat stays_shut (modify f).
Proof.
  intros H1 H2 s [A I]. simpl. split; [|done]. split.
  - destruct (H1 s) as [-> | ->]; done.
  - destruct (H2 s) as [-> | ->]; done.
Qed.

Lemma shut_setTimeout due k store :
  (forall o s, audioContext (store o s) = audioContext s) ->
  (forall o s, isActive (store o s) = isActive s) ->
  sat stays_shut (setTimeout due k store).
Proof.
  intros H1 H2 s [A I]. unfold setTimeout. simpl.
  split; [|done]. split; [by rewrite H1 | by rewrite H2].
Qed.

(** What is guarded by the audio context or by the active flag does not
    run once the service is shut down. *)
Lemma shut_when_audioContext c : sat stays_shut (when audioContext c).
Proof. intros s [A I]. unfold when. rewrite A. split; [done|]. by split. Qed.

Lemma shut_when_isActive c : sat stays_shut (when isActive c).
Proof. intros s [A I]. unfold when. rewrite I. split; [done|]. by split. Qed.

Lemma shut_detectInterrupt e : sat stays_shut (detectInterrupt e).
Proof.
  intros s [A I]. unfold detectInterrupt, reading. rewrite I.
  split; [done|]. by split.
Qed.

Lemma shut_startInterruptDetection e :
  sat stays_shut (startInterruptDetection e).
Proof.
  intros s [A I]. unfold startInterruptDetection, reading. rewrite I.
  rewrite orb_true_r. split; [done|]. by split.
Qed.

Ltac shut_auto :=
  repeat (cbv zeta;
    lazymatch goal with
    | |- sat _ (when audioContext _) => apply shut_when_audioContext
    | |- sat _ (when isActive _) => apply shut_when_isActive
    | |- sat _ (detectInterrupt _) => apply shut_detectInterrupt
    | |- sat _ (startInterruptDetection _) => apply shut_startInterruptDetection
    | |- sat _ skip => apply sat_skip
    | |- sat _ (seq _ _) => apply sat_seq
    | |- sat _ (reading _) => apply sat_reading; intro
    | |- sat _ (when _ _) => apply sat_when
    | |- sat _ (if _ then _ else _) => apply sat_if
    | |- Compositional _ => exact _
    | |- sat _ (emit _) => apply shut_emit; reflexivity
    | |- sat _ (modify _) => apply shut_modify; intros; simpl; auto
    | |- sat _ (clearSlot _) => apply shut_modify; intros; simpl; auto
    | |- sat _ (clearTimeout _) => apply shut_modify; intros; simpl; auto
    | |- sat _ (setTimeout _ _ _) => apply shut_setTimeout; reflexivity
    end).

Lemma shut_updateStatus st : sat stays_shut (updateStatus st).
Proof. unfold updateStatus. shut_auto. Qed.

Lemma shut_step e ev : sat stays_shut (step e ev).
Proof.
  destruct ev; unfold step.
  - unfold onstart, updateStatus. shut_auto.
  - unfold onresult, resetSilenceTimer. shut_auto.
  - unfold onend, processResult, updateStatus. shut_auto.
  - unfold onerror, reset, stop, cleanup, updateStatus. shut_auto.
  - unfold fire. apply sat_reading. intros s0.
    destruct (pending (rt s0) !! h) as [[due k]|]; [|shut_auto].
    destruct (due <=? now e); [|shut_auto].
    destruct k; unfold timer_callback, processResult, reset, updateStatus;
      shut_auto.
  - unfold start_resume. shut_auto.
  - unfold start. shut_auto.
  - unfold stop, cleanup, updateStatus. shut_auto.
  - unfold setAISpeaking, updateStatus. shut_auto.
Qed.

Lemma shut_run es : sat stays_shut (run es).
Proof. apply (sat_run stays_shut). intros. apply shut_step. Qed.

Lemma inactive_cleanup :
  sat (preserved (fun s => isActive s = false)) cleanup.
Proof. unfold cleanup, clearSlot. preserved_auto. Qed.

Lemma inactive_updateStatus st :
  sat (preserved (fun s => isActive s = false)) (updateStatus st).
Proof. unfold updateStatus. preserved_auto. Qed.

Lemma closed_updateStatus st :
  sat (preserved (fun s => audioContext s = false)) (updateStatus st).
Proof. unfold updateStatus. preserved_auto. Qed.

Lemma cleanup_closes : ends_in (fun s => audioContext s = false) cleanup.
Proof.
  unfold cleanup. repeat apply ends_in_seq_r.
  intros s. unfold when. by destruct (audioContext s) eqn:A.
Qed.

Lemma stop_closes : ends_in (fun s => audioContext s = false) stop.
Proof.
  unfold stop. do 2 apply ends_in_seq_r.
  apply ends_in_seq_l; [apply cleanup_closes | apply closed_updateStatus].
Qed.

Lemma stop_inactive : ends_in (fun s => isActive s = false) stop.
Proof.
  unfold stop. apply ends_in_seq_r.
  apply ends_in_seq_l; [by intros s|].
  apply sat_seq; [exact _ | apply inactive_cleanup
                 | apply inactive_updateStatus].
Qed.

Lemma updateStatus_sets st :
  ends_in (fun s => currentStatus s = st) (updateStatus st).
Proof.
  intros s. unfold updateStatus, reading.
  destruct (bool_decide (currentStatus s = st)) eqn:E; [|done].
  by apply bool_decide_eq_true in E.
Qed.

Lemma stop_idles : ends_in (fun s => currentStatus s = Idle) stop.
Proof. unfold stop. do 3 apply ends_in_seq_r. apply updateStatus_sets. Qed.

(** A new [start()] on a service that is shut down asks for the microphone
    and, once it is granted, keeps the stream, but nothing is set up. *)
Lemma restart_is_idle e1 e2 s :
  shut s ->
  snd (run [(e1, CallStart); (e2, EvUserMedia true)] s)
  = [Console LogStartingSystem; GetUserMedia] /\
  mediaStream (fst (run [(e1, CallStart); (e2, EvUserMedia true)] s)) = true.
Proof.
  intros [A I]. unfold run. cbn [run_events]. rewrite ?snd_seq, ?fst_seq.
  unfold step, start, reading. rewrite I.
  unfold start_resume. rewrite ?snd_seq, ?fst_seq. cbn [fst snd emit modify skip].
  unfold when. cbn [audioContext set_mediaStream]. rewrite A. by split.
Qed.

(** [stop()] shuts the service down. *)
Lemma stop_shuts : ends_in shut stop.
Proof. intros s. split; [apply stop_closes | apply stop_inactive]. Qed.

Lemma not_allowed_shuts : ends_in shut (onerror (lit "not-allowed")).
Proof.
  unfold onerror. do 3 apply ends_in_seq_r.
  replace (str_eqb (lit "not-allowed") (lit "not-allowed")) with true
    by (symmetry; by apply bool_decide_eq_true_2).
  apply stop_shuts.
Qed.

(** *** Reports *)

Lemma iv_reports_processResult now :
  sat (reports_trimmed report_of) (processResult now).
Proof.
  intros s x t. destruct (isProcessing s) eqn:P.
  - by rewrite InterruptibleFacts.processResult_idle.
  - rewrite InterruptibleFacts.processResult_live by done.
    unfold process_trace. cbn [fst snd]. intros Hin.
    apply in_app_or in Hin as [Hin|Hin].
    { destruct (bool_decide _); [done|]. by destruct Hin as [<-|[]]. }
    apply in_app_or in Hin as [Hin|Hin].
    { destruct (recognition s); [|done]. by destruct Hin as [<-|[]]. }
    destruct Hin as [<-|Hin]; [done|].
    destruct (truthy (trim (finalTranscript s))) eqn:T; [|done].
    destruct Hin as [<-|[]]. intros [= <-]. by apply trim_trimmed.
Qed.

Ltac reports_auto :=
  sat_structure;
  try lazymatch goal with
  | |- sat _ (emit _) => apply reports_emit; reflexivity
  | |- sat _ (processResult _) => apply iv_reports_processResult
  | |- sat _ _ => apply reports_silent; reflexivity
  end.

Lemma iv_reports_step e ev : sat (reports_trimmed report_of) (step e ev).
Proof.
  destruct ev; unfold step.
  - unfold onstart, updateStatus. reports_auto.
  - unfold onresult, resetSilenceTimer. reports_auto.
  - unfold onend. reports_auto.
  - unfold onerror, reset, stop, cleanup, updateStatus. reports_auto.
  - unfold fire. apply sat_reading. intros s0.
    destruct (pending (rt s0) !! h) as [[due k]|]; [|reports_auto].
    destruct (due <=? now e); [|reports_auto].
    destruct k; unfold timer_callback, reset, startInterruptDetection,
      detectInterrupt, startUserListening, reset, resetSilenceTimer,
      updateStatus; reports_auto.
  - unfold start_resume, startInterruptDetection,
      detectInterrupt, startUserListening, reset, resetSilenceTimer,
      updateStatus. reports_auto.
  - unfold start. reports_auto.
  - unfold stop, cleanup, updateStatus. reports_auto.
  - unfold setAISpeaking, updateStatus. reports_auto.
Qed.

Lemma iv_reports_run es : sat (reports_trimmed report_of) (run es).
Proof. apply (sat_run (reports_trimmed report_of)). intros. apply iv_reports_step. Qed.

End InterruptibleShutdown.

Module InterruptibleTurns.
Import Interruptible.







Lemma detect_loud e s :
  fired s e = true ->
  count is_detected (snd (detectInterrupt e s)) = 1%nat.
Proof.
  intros F. rewrite InterruptibleFacts.detectInterrupt_count. by rewrite F.
Qed.


End InterruptibleTurns.

Module VadShutdown.
Import Vad TextFacts.

#[export] Instance vad_stays_shut_comp : Compositional stays_shut.
Proof.
  split; unfold stays_shut.
  - intros s H. split; [done|]. by split.
  - intros s t1 s1 t2 s2 H1 H2 H.
    destruct (H1 H) as (H' & A1 & B1). destruct (H2 H') as (H'' & A2 & B2).
    split; [done|]. rewrite !count_app. lia.
Qed.

Lemma vad_shut_emit e :
  is_recstart e = false -> is_voice_start e = false ->
  sat stays_shut (emit e).
Proof. intros H1 H2 s Hs. simpl. rewrite H1, H2. split; [done|]. by split. Qed.

Lemma vad_shut_modify f :
  (forall s, audioContext (f s) = audioContext s
             \/ audioContext (f s) = false) ->
  (forall s, isActive (f s) = isActive s \/ isActive (f s) = false) ->
  sat stays_shut (modify f).
Proof.
  intros H1 H2 s [A I]. simpl. split; [|done]. split.
  - destruct (H1 s) as [-> | ->]; done.
  - destruct (H2 s) as [-> | ->]; done.
Qed.

Lemma vad_shut_setTimeout due k store :
  (forall o s, audioContext (store o s) = audioContext s) ->
  (forall o s, isActive (store o s) = isActive s) ->
  sat stays_shut (setTimeout due k store).
Proof.
  intros H1 H2 s [A I]. unfold setTimeout. simpl.
  split; [|done]. split; [by rewrite H1 | by rewrite H2].
Qed.

Lemma vad_shut_when_audioContext c : sat stays_shut (when audioContext c).
Proof. intros s [A I]. unfold when. rewrite A. split; [done|]. by split. Qed.

Lemma vad_shut_when_isActive c : sat stays_shut (when isActive c).
Proof. intros s [A I]. unfold when. rewrite I. split; [done|]. by split. Qed.

Lemma vad_shut_detectVoice e : sat stays_shut (detectVoice e).
Proof.
  intros s [A I]. unfold detectVoice, reading. rewrite I.
  split; [done|]. by split.
Qed.

Lemma vad_shut_startVoiceDetection e : sat stays_shut (startVoiceDetection e).
Proof.
  intros s [A I]. unfold startVoiceDetection, reading. rewrite I.
  rewrite orb_true_r. split; [done|]. by split.
Qed.

(** [onend] sets its restart timer only on an active service. *)
Lemma vad_shut_onend now : sat stays_shut (onend now).
Proof.
  intros s [A I]. unfold onend, reading. rewrite I. split; [done|]. by split.
Qed.

Ltac shut_auto :=
  repeat (cbv zeta;
    lazymatch goal with
    | |- sat _ (when audioContext _) => apply vad_shut_when_audioContext
    | |- sat _ (when isActive _) => apply vad_shut_when_isActive
    | |- sat _ (detectVoice _) => apply vad_shut_detectVoice
    | |- sat _ (startVoiceDetection _) => apply vad_shut_startVoiceDetection
    | |- sat _ (onend _) => apply vad_shut_onend
    | |- sat _ skip => apply sat_skip
    | |- sat _ (seq _ _) => apply sat_seq
    | |- sat _ (reading _) => apply sat_reading; intro
    | |- sat _ (when _ _) => apply sat_when
    | |- sat _ (if _ then _ else _) => apply sat_if
    | |- Compositional _ => exact _
    | |- sat _ (emit _) => apply vad_shut_emit; reflexivity
    | |- sat _ (modify _) => apply vad_shut_modify; intros; simpl; auto
    | |- sat _ (clearSlot _) => apply vad_shut_modify; intros; simpl; auto
    | |- sat _ (clearTimeout _) => apply vad_shut_modify; intros; simpl; auto
    | |- sat _ (setTimeout _ _ _) => apply vad_shut_setTimeout; reflexivity
    end).

Lemma vad_shut_step e ev : sat stays_shut (step e ev).
Proof.
  destruct ev; unfold step.
  - unfold onresult, handleVoiceEnd, stopListening. shut_auto.
  - shut_auto.
  - unfold onerror, stopListening. shut_auto.
  - unfold fire. apply sat_reading. intros s0.
    destruct (pending (rt s0) !! h) as [[due k]|]; [|shut_auto].
    destruct (due <=? now e); [|shut_auto].
    destruct k; unfold timer_callback, handleVoiceEnd, stopListening;
      shut_auto.
  - unfold start_resume. shut_auto.
  - unfold start. shut_auto.
  - unfold stop, stopListening, cleanup. shut_auto.
Qed.

Lemma vad_shut_run es : sat stays_shut (run es).
Proof. apply (sat_run stays_shut). intros. apply vad_shut_step. Qed.

Lemma vad_inactive_cleanup :
  sat (preserved (fun s => isActive s = false)) cleanup.
Proof. unfold cleanup, clearSlot. preserved_auto. Qed.

Lemma vad_inactive_stopListening :
  sat (preserved (fun s => isActive s = false)) stopListening.
Proof. unfold stopListening, clearSlot. preserved_auto. Qed.

Lemma vad_cleanup_closes : ends_in (fun s => audioContext s = false) cleanup.
Proof.
  unfold cleanup. repeat apply ends_in_seq_r.
  intros s. unfold when. by destruct (audioContext s) eqn:A.
Qed.

Lemma vad_stop_closes : ends_in (fun s => audioContext s = false) stop.
Proof.
  unfold stop. do 2 apply ends_in_seq_r.
  apply ends_in_seq_l; [apply vad_cleanup_closes|].
  apply preserved_prim. by intros s.
Qed.

Lemma vad_stop_inactive : ends_in (fun s => isActive s = false) stop.
Proof.
  unfold stop.
  apply ends_in_seq_l; [by intros s|].
  apply sat_seq; [exact _ | apply vad_inactive_stopListening|].
  apply sat_seq; [exact _ | apply vad_inactive_cleanup|].
  apply preserved_prim. by intros s.
Qed.

(** [stop()] shuts the service down. *)
Lemma vad_stop_shuts : ends_in shut stop.
Proof. intros s. split; [apply vad_stop_closes | apply vad_stop_inactive]. Qed.

Lemma vad_supported_stop :
  sat (preserved (fun s => supported s = true)) stop.
Proof. unfold stop, stopListening, cleanup, clearSlot. preserved_auto. Qed.

(** A new [start()] on a service that is shut down asks for the microphone
    and, once it is granted, keeps the stream, but nothing is set up. *)
Lemma vad_restart_is_idle e1 e2 s :
  shut s -> supported s = true ->
  snd (run [(e1, CallStart); (e2, EvUserMedia true)] s) = [GetUserMedia] /\
  mediaStream (fst (run [(e1, CallStart); (e2, EvUserMedia true)] s)) = true.
Proof.
  intros [A I] Su. unfold run. cbn [run_events]. rewrite ?snd_seq, ?fst_seq.
  unfold step, start, reading. rewrite Su.
  unfold start_resume. rewrite ?snd_seq, ?fst_seq.
  cbn [fst snd emit modify skip negb].
  unfold when. cbn [audioContext set_mediaStream]. rewrite A. by split.
Qed.

(** *** Reports *)

Lemma vad_reports_report t :
  trimmed_text t ->
  sat (S:=state) (reports_trimmed report_of) (emit (OnVoiceEnd t)).
Proof. intros H s x u [<-|[]]. by intros [= <-]. Qed.

Ltac reports_auto :=
  sat_structure;
  try lazymatch goal with
  | |- sat _ (emit (OnVoiceEnd _)) => idtac
  | |- sat _ (emit _) => apply reports_emit; reflexivity
  | |- sat _ _ => apply reports_silent; reflexivity
  end.

Lemma vad_reports_handleVoiceEnd now t :
  sat (reports_trimmed report_of) (handleVoiceEnd now t).
Proof.
  unfold handleVoiceEnd.
  apply (sat_seq (reports_trimmed report_of)); [reports_auto|].
  apply (sat_seq (reports_trimmed report_of));
    [unfold stopListening; reports_auto|].
  apply (sat_seq (reports_trimmed report_of)); [reports_auto|].
  apply (sat_seq (reports_trimmed report_of)); [|reports_auto].
  destruct (truthy (trim t)) eqn:T; [|reports_auto].
  apply (sat_seq (reports_trimmed report_of)); [reports_auto|].
  by apply vad_reports_report, trim_trimmed.
Qed.

Ltac reports_step_auto :=
  sat_structure;
  try lazymatch goal with
  | |- sat _ (handleVoiceEnd _ _) => apply vad_reports_handleVoiceEnd
  | |- sat _ (emit _) => apply reports_emit; reflexivity
  | |- sat _ _ => apply reports_silent; reflexivity
  end.

Lemma vad_reports_detectVoice e :
  sat (reports_trimmed report_of) (detectVoice e).
Proof.
  unfold detectVoice, startListening, stopListening. reports_step_auto.
Qed.

Lemma vad_reports_step e ev : sat (reports_trimmed report_of) (step e ev).
Proof.
  destruct ev; unfold step.
  - unfold onresult. reports_step_auto.
  - unfold onend. reports_step_auto.
  - unfold onerror, stopListening. reports_step_auto.
  - unfold fire. apply sat_reading. intros s0.
    destruct (pending (rt s0) !! h) as [[due k]|]; [|reports_step_auto].
    destruct (due <=? now e); [|reports_step_auto].
    destruct k; unfold timer_callback, startVoiceDetection;
      [unfold stopListening| | |]; reports_step_auto;
      apply vad_reports_detectVoice.
  - unfold start_resume, startVoiceDetection. reports_step_auto.
    apply vad_reports_detectVoice.
  - unfold start. reports_step_auto.
  - unfold stop, stopListening, cleanup. reports_step_auto.
Qed.

Lemma vad_reports_run es : sat (reports_trimmed report_of) (run es).
Proof.
  apply (sat_run (reports_trimmed report_of)). intros. apply vad_reports_step.
Qed.

End VadShutdown.

Section PendingFacts.
Context {K : Type}.
Implicit Types (p : nat * (Z * K) -> bool) (m : gmap nat (Z * K)).

Lemma count_perm {A} (f : A -> bool) (l1 l2 : list A) :
  l1 ≡ₚ l2 -> count f l1 = count f l2.
Proof.
  induction 1 as [|x l1 l2 _ IH|x y l|l1 l2 l3 _ IH1 _ IH2]; simpl;
    [done | by rewrite IH | lia | congruence].
Qed.

Lemma count_pending_insert p m i x :
  m !! i = None ->
  count p (map_to_list (<[i:=x]> m))
  = ((if p (i, x) then 1 else 0) + count p (map_to_list m))%nat.
Proof.
  intros H. by rewrite (count_perm p _ _ (map_to_list_insert m i x H)).
Qed.

Lemma count_pending_delete p m i x :
  m !! i = Some x ->
  count p (map_to_list m)
  = ((if p (i, x) then 1 else 0) + count p (map_to_list (delete i m)))%nat.
Proof.
  intros H. by rewrite <- (count_perm p _ _ (map_to_list_delete m i x H)).
Qed.

End PendingFacts.

Module VadLoops.
Import Vad.

Lemma vad_fire_due e h d k s :
  pending (rt s) !! h = Some (d, k) -> d <= now e ->
  fst (step e (EvTimer h) s)
  = fst (timer_callback e k (set_rt (rt_clear h (rt s)) s)) /\
  snd (step e (EvTimer h) s)
  = snd (timer_callback e k (set_rt (rt_clear h (rt s)) s)).
Proof.
  intros P D. unfold step, fire, reading. rewrite P.
  apply Z.leb_le in D. rewrite D. by split.
Qed.

(** The timers that a frame leaves behind on an active service whose
    recognizer starts without raising. *)
Lemma detectVoice_rt e s :
  isActive s = true -> analyser s = true -> start_throws e = false ->
  rt (fst (detectVoice e s))
  = snd (rt_set (now e) KFrame
      (if fired s e
       then snd (rt_set (now e + maxListenTime (cfg s)) KMaxListen (rt s))
       else rt s)).
Proof.
  intros A An T. unfold fired, loud.
  unfold detectVoice, startListening, reading, when, seq, emit, modify,
    skip, setTimeout.
  destruct s as [su ac ms an r a l dt mt af c ft rt0].
  cbn [isActive analyser isListening recognition cfg fst snd] in *. subst.
  cbn [negb orb andb].
  destruct (Double.gtb _ _), l; cbn [negb orb andb fst snd isListening recognition];
    try reflexivity.
  destruct r; cbn [negb orb andb fst snd isListening recognition];
    try reflexivity.
  rewrite T. reflexivity.
Qed.

Lemma frames_after_detect e s :
  isActive s = true -> analyser s = true -> start_throws e = false ->
  rt_fresh (rt s) ->
  frames_pending (fst (detectVoice e s)) = S (frames_pending s).
Proof.
  intros A An T F. unfold frames_pending. rewrite detectVoice_rt by done.
  destruct (fired s e).
  - simpl. rewrite count_pending_insert.
    + rewrite count_pending_insert by (by apply fresh_next_free).
      done.
    + rewrite lookup_insert_ne by lia. destruct (pending (rt s) !! S (next_id (rt s))) eqn:E; [|done].
      apply F in E. lia.
  - simpl. rewrite count_pending_insert by (by apply fresh_next_free).
    done.
Qed.

(** The callbacks that restart the detection, and the frame callback, on
    an active service: each comes down to one frame. *)
Lemma callback_detects e k s :
  isActive s = true -> analyser s = true ->
  is_restart k = true \/ k = KFrame ->
  fst (timer_callback e k s) = fst (detectVoice e s).
Proof.
  intros A An Hk. unfold timer_callback, when, startVoiceDetection, reading,
    seq, emit.
  destruct Hk as [Hk| ->]; [destruct k; try done|]; cbn [fst snd];
    rewrite ?A, ?An; reflexivity.
Qed.

Lemma frames_after_callback e h d k s :
  isActive s = true -> analyser s = true -> start_throws e = false ->
  rt_fresh (rt s) ->
  pending (rt s) !! h = Some (d, k) -> d <= now e ->
  is_restart k = true \/ k = KFrame ->
  (frames_pending (fst (step e (EvTimer h) s)) + b2n (is_frame k)
   = S (frames_pending s))%nat.
Proof.
  intros A An T F P D Hk.
  destruct (vad_fire_due e h d k s P D) as [-> _].
  rewrite callback_detects by done.
  rewrite frames_after_detect; [|done|done|done|].
  - unfold frames_pending at 2. rewrite (count_pending_delete _ _ h _ P).
    unfold frames_pending. simpl. destruct (is_frame k); simpl; lia.
  - simpl. by apply rt_fresh_clear.
Qed.

(** *** The maximum listening time *)

Lemma max_listen_fires e s :
  isListening s = true ->
  timer_callback e KMaxListen s
  = (State (supported s) (audioContext s) (mediaStream s) (analyser s)
       (recognition s) (isActive s) false (debounceTimer s) None
       (animationFrame s) (cfg s) (finalTranscript s)
       (snd (rt_set (now e + 2000) KRestartDetection
          (rt_clear_opt (debounceTimer s)
             (rt_clear_opt (maxListenTimer s) (rt s))))),
     Console LogMaxListenTime
     :: (if recognition s then [RecStop] else [])
     ++ [Console (LogHandlingVoiceEnd [])]).
Proof.
  intros L. destruct s as [su ac ms an r a l dt mt af c ft rt0].
  simpl in L. subst l.
  unfold timer_callback, handleVoiceEnd, stopListening, clearSlot, setTimeout,
    when, reading, seq, emit, modify, skip.
  cbn [isListening set_isListening negb fst snd].
  destruct r; reflexivity.
Qed.

Lemma max_listen_idle e s :
  isListening s = false ->
  timer_callback e KMaxListen s = (s, [Console LogMaxListenTime]).
Proof.
  intros L. unfold timer_callback, when, seq, emit. cbn [fst snd].
  by rewrite L.
Qed.

End VadLoops.

Section CommuteFacts.
Context {S E : Type} (f : S -> S).

Lemma commutes_prim (c : cmd S E) :
  (forall s, c (f s) = (f (fst (c s)), snd (c s))) -> commutes f c.
Proof. done. Qed.

Lemma commutes_seq (c1 c2 : cmd S E) :
  commutes f c1 -> commutes f c2 -> commutes f (seq c1 c2).
Proof.
  intros H1 H2 s. unfold seq. rewrite H1. cbn [fst snd]. by rewrite H2.
Qed.

Lemma commutes_if (b : bool) (c1 c2 : cmd S E) :
  commutes f c1 -> commutes f c2 -> commutes f (if b then c1 else c2).
Proof. by destruct b. Qed.

Lemma commutes_when (b : S -> bool) (c : cmd S E) :
  (forall s, b (f s) = b s) -> commutes f c -> commutes f (when b c).
Proof.
  intros Hb H s. unfold when. rewrite Hb. destruct (b s); [apply H | done].
Qed.

Lemma commutes_reading (k : S -> cmd S E) :
  (forall s, k (f s) = k s) -> (forall s0, commutes f (k s0)) ->
  commutes f (reading k).
Proof. intros Hk H s. unfold reading. rewrite Hk. apply H. Qed.

Lemma commutes_run {Env Ev} (step : Env -> Ev -> cmd S E) es :
  (forall e ev, commutes f (step e ev)) -> commutes f (run_events step es).
Proof.
  intros H. induction es as [|[e ev] es IH]; simpl; [done|].
  by apply commutes_seq.
Qed.

End CommuteFacts.

(** Peels a command along its structure; what is left are primitive steps
    and guards, none of which reads what [f] changes. *)
Ltac commutes_auto :=
  repeat (cbv zeta;
    lazymatch goal with
    | |- commutes _ (seq _ _) => apply commutes_seq
    | |- commutes _ (if _ then _ else _) => apply commutes_if
    | |- commutes _ (when _ _) => apply commutes_when; [reflexivity|]
    | |- commutes _ (reading _) =>
        apply commutes_reading; [reflexivity | intro]
    | |- commutes _ _ => apply commutes_prim; reflexivity
    end).

Module InterruptibleSettings.
Import Interruptible.

Lemma voiceThreshold_step q e ev :
  commutes (with_voiceThreshold q) (step e ev).
Proof.
  destruct ev; unfold step.
  - unfold onstart, updateStatus. commutes_auto.
  - unfold onresult, resetSilenceTimer. commutes_auto.
  - unfold onend, processResult, updateStatus. commutes_auto.
  - unfold onerror, reset, stop, cleanup, updateStatus. commutes_auto.
  - unfold fire. apply commutes_reading; [reflexivity|]. intros s0.
    destruct (pending (rt s0) !! h) as [[due k]|]; [|commutes_auto].
    destruct (due <=? now e); [|commutes_auto].
    destruct k; unfold timer_callback, processResult, reset,
      startInterruptDetection, detectInterrupt, startUserListening,
      reset, resetSilenceTimer, updateStatus; commutes_auto.
  - unfold start_resume, startInterruptDetection, detectInterrupt,
      startUserListening, reset, resetSilenceTimer, updateStatus.
    commutes_auto.
  - unfold start. commutes_auto.
  - unfold stop, cleanup, updateStatus. commutes_auto.
  - unfold setAISpeaking, updateStatus. commutes_auto.
Qed.

End InterruptibleSettings.

Module VadSettings.
Import Vad.

Lemma unread_step d r e ev : commutes (with_unread d r) (step e ev).
Proof.
  destruct ev; unfold step.
  - unfold onresult, handleVoiceEnd, stopListening. commutes_auto.
  - unfold onend. commutes_auto.
  - unfold onerror, stopListening. commutes_auto.
  - unfold fire. apply commutes_reading; [reflexivity|]. intros s0.
    destruct (pending (rt s0) !! h) as [[due k]|]; [|commutes_auto].
    destruct (due <=? now e); [|commutes_auto].
    destruct k; unfold timer_callback, handleVoiceEnd, startVoiceDetection,
      detectVoice, startListening, stopListening; commutes_auto.
  - unfold start_resume, startVoiceDetection, detectVoice, startListening,
      stopListening. commutes_auto.
  - unfold start. commutes_auto.
  - unfold stop, stopListening, cleanup. commutes_auto.
Qed.

End VadSettings.

Module InterruptibleStatus.
Import Interruptible.

Lemma sound_init speech audio c : status_sound (init speech audio c).
Proof. by split. Qed.

(** [updateStatus] leaves the flags alone and ends with the status it was
    given. *)
Lemma updateStatus_spec st s :
  currentStatus (fst (updateStatus st s)) = st /\
  isListening (fst (updateStatus st s)) = isListening s /\
  isProcessing (fst (updateStatus st s)) = isProcessing s.
Proof.
  unfold updateStatus, reading.
  destruct (bool_decide (currentStatus s = st)) eqn:E; [|done].
  by apply bool_decide_eq_true in E.
Qed.

Lemma sound_update st :
  st <> Listening -> st <> Processing ->
  sat (preserved status_sound) (updateStatus st).
Proof.
  intros N1 N2 s _. destruct (updateStatus_spec st s) as (E & _ & _).
  split; intros H; congruence.
Qed.

Lemma sound_listen rest :
  sat (preserved status_sound) rest ->
  sat (preserved status_sound)
      (seq (modify (set_isListening true)) (seq (updateStatus Listening) rest)).
Proof.
  intros Hrest s _. rewrite !fst_seq. apply Hrest.
  set (s1 := fst (modify _ s)).
  assert (isListening s1 = true) as L by reflexivity. clearbody s1.
  destruct (updateStatus_spec Listening s1) as (E & EL & _).
  split; intros H; [congruence | congruence].
Qed.

Lemma sound_process rest :
  sat (preserved status_sound) rest ->
  sat (preserved status_sound)
      (seq (modify (set_isProcessing true))
         (seq (modify (set_isListening false))
            (seq (updateStatus Processing) rest))).
Proof.
  intros Hrest s _. rewrite !fst_seq. apply Hrest.
  set (s1 := fst (modify (set_isListening false) _)).
  assert (isListening s1 = false) as L by reflexivity.
  assert (isProcessing s1 = true) as P by reflexivity. clearbody s1.
  destruct (updateStatus_spec Processing s1) as (E & EL & EP).
  split; intros H; [congruence|]. split; congruence.
Qed.

Lemma sound_reset : sat (preserved status_sound) reset.
Proof.
  intros s _. unfold reset. rewrite !fst_seq.
  set (s1 := fst (modify (set_finalTranscript []) _)). clearbody s1.
  unfold reading at 1.
  destruct (updateStatus_spec (if isActive s1 then Detecting else Idle) s1)
    as (E & _ & _).
  set (s2 := fst (updateStatus _ s1)) in *. clearbody s2.
  cbn [fst clearSlot modify].
  split; intros H; cbn [currentStatus set_silenceTimer set_rt] in H;
    destruct (isActive s1); congruence.
Qed.

Ltac sound_auto :=
  repeat (cbv zeta;
    lazymatch goal with
    | |- sat _ (seq (modify (set_isListening true))
                  (seq (updateStatus Listening) _)) => apply sound_listen
    | |- sat _ (seq (modify (set_isProcessing true)) _) =>
        apply sound_process
    | |- sat _ reset => apply sound_reset
    | |- sat _ (updateStatus _) => apply sound_update; discriminate
    | |- sat _ skip => apply sat_skip
    | |- sat _ (seq _ _) => apply sat_seq
    | |- sat _ (reading _) => apply sat_reading; intro
    | |- sat _ (when _ _) => apply sat_when
    | |- sat _ (if _ then _ else _) => apply sat_if
    | |- Compositional _ => exact _
    | |- sat _ _ => apply preserved_prim; intros ? ?; assumption
    end).

Lemma sound_step e ev : sat (preserved status_sound) (step e ev).
Proof.
  destruct ev; unfold step.
  - unfold onstart. sound_auto.
  - unfold onresult, resetSilenceTimer. sound_auto.
  - unfold onend, processResult. sound_auto.
  - unfold onerror, stop, cleanup. sound_auto.
  - unfold fire. apply sat_reading. intros s0.
    destruct (pending (rt s0) !! h) as [[due k]|]; [|sound_auto].
    destruct (due <=? now e); [|sound_auto].
    destruct k; unfold timer_callback, processResult,
      startInterruptDetection, detectInterrupt, startUserListening,
      resetSilenceTimer; sound_auto.
  - unfold start_resume, startInterruptDetection, detectInterrupt,
      startUserListening, resetSilenceTimer. sound_auto.
  - unfold start. sound_auto.
  - unfold stop, cleanup. sound_auto.
  - unfold setAISpeaking. sound_auto.
Qed.

Lemma sound_run es : sat (preserved status_sound) (run es).
Proof. apply (sat_run (preserved status_sound)). intros. apply sound_step. Qed.

End InterruptibleStatus.

Module CleanFacts.
Import Tts TextFacts.

#[local] Arguments is_ws : simpl never.

Lemma collapse_spaced b s : spaced b (collapse_go b s) = true.
Proof.
  revert b. induction s as [|c s IH]; intros b; simpl; [done|].
  destruct (is_ws c) eqn:E.
  - destruct b; simpl; [apply IH|].
    change (is_ws 32) with true. simpl. apply IH.
  - simpl. rewrite E. apply IH.
Qed.

Lemma collapse_visible b s : visible (collapse_go b s) = visible s.
Proof.
  revert b. induction s as [|c s IH]; intros b; simpl; [done|].
  unfold visible in *. simpl. destruct (is_ws c) eqn:E; simpl.
  - rewrite List.filter_app, IH. by destruct b.
  - by rewrite E, IH.
Qed.

Lemma collapse_length b s : (length (collapse_go b s) <= length s)%nat.
Proof.
  revert b. induction s as [|c s IH]; intros b; simpl; [done|].
  destruct (is_ws c); simpl.
  - rewrite length_app. specialize (IH true). destruct b; simpl; lia.
  - specialize (IH false). lia.
Qed.

Lemma spaced_weaken b s : spaced b s = true -> spaced false s = true.
Proof.
  destruct s as [|c s]; simpl; [done|]. destruct (is_ws c); [|done].
  destruct b; simpl; [by rewrite andb_false_r|done].
Qed.

Lemma spaced_drop_ws b s : spaced b s = true -> spaced false (drop_ws s) = true.
Proof.
  revert b. induction s as [|c s IH]; intros b; simpl; [done|].
  destruct (is_ws c) eqn:E.
  - intros H. apply andb_prop in H as [_ H]. by apply (IH true).
  - intros H. simpl. by rewrite E.
Qed.

Lemma spaced_prefix b l1 l2 : spaced b (l1 ++ l2) = true -> spaced b l1 = true.
Proof.
  revert b. induction l1 as [|c l1 IH]; intros b; simpl; [done|].
  destruct (is_ws c).
  - intros H. apply andb_prop in H as [H1 H]. rewrite H1. simpl.
    by apply IH.
  - apply IH.
Qed.

Lemma drop_ws_suffix s : exists p, s = p ++ drop_ws s.
Proof.
  induction s as [|c s [p IH]]; simpl; [by exists []|].
  destruct (is_ws c); [|by exists []].
  exists (c :: p). simpl. by rewrite <- IH.
Qed.

Lemma spaced_trim b s : spaced b s = true -> spaced false (trim s) = true.
Proof.
  intros H. apply spaced_drop_ws in H. unfold trim.
  destruct (drop_ws_suffix (rev (drop_ws s))) as [p E].
  apply (spaced_prefix false _ (rev p)).
  rewrite <- rev_app_distr, <- E. by rewrite rev_involutive.
Qed.

End CleanFacts.

(** * The claims *)

Import Scenario.




(** C2, as stated, fails: when the recognizer ends and nothing was heard,
    the finalize path runs but the completion callback is not invoked, in
    [SimpleVoiceInput] as in [InterruptibleVoiceInput]. *)
Lemma C2_empty_text_is_not_reported :
  (Simple.finalTranscript simple_listening = [] /\
   count Simple.is_finalize
         (snd (Simple.step (simple_at 1000) Simple.EvEnd simple_listening))
   = 1%nat /\
   ~ In (Simple.OnComplete [])
        (snd (Simple.step (simple_at 1000) Simple.EvEnd simple_listening)) /\
   count Simple.is_oncomplete
         (snd (Simple.step (simple_at 1000) Simple.EvEnd simple_listening))
   = 0%nat) /\
  (Interruptible.finalTranscript inter_listening = [] /\
   count Interruptible.is_finalize
         (snd (Interruptible.step (inter_at 1000) Interruptible.EvEnd
                                  inter_listening)) = 1%nat /\
   ~ In (Interruptible.OnUserSpeechEnd [])
        (snd (Interruptible.step (inter_at 1000) Interruptible.EvEnd
                                 inter_listening)) /\
   count Interruptible.is_speech_end
         (snd (Interruptible.step (inter_at 1000) Interruptible.EvEnd
                                  inter_listening)) = 0%nat).
Proof.
  split.
  - split; [reflexivity|]. split; [reflexivity|]. split; [|reflexivity].
    intros H. vm_compute in H. intuition discriminate.
  - split; [reflexivity|]. split; [reflexivity|]. split; [|reflexivity].
    intros H. vm_compute in H. intuition discriminate.
Qed.

(** C2, amended.  When the recognizer's end event finds the session not yet
    finalized, the completion callback is invoked exactly once, with the
    trimmed accumulated final text, if that text is not empty; if it is
    empty the callback is skipped ([SimpleVoiceInput] still invokes
    [onStop]). *)
Theorem C2_end_reports_nonempty_text
    (s : Simple.state) (e : Simple.env)
    (i : Interruptible.state) (e' : Interruptible.env) :
  Simple.recognition s = true ->
  Simple.isListening s = true ->
  Interruptible.recognition i = true ->
  Interruptible.isProcessing i = false ->
  (count Simple.is_oncomplete (snd (Simple.step e Simple.EvEnd s))
   = b2n (truthy (trim (Simple.finalTranscript s))) /\
   (truthy (trim (Simple.finalTranscript s)) = true ->
    In (Simple.OnComplete (trim (Simple.finalTranscript s)))
       (snd (Simple.step e Simple.EvEnd s))) /\
   In Simple.OnStop (snd (Simple.step e Simple.EvEnd s))) /\
  (count Interruptible.is_speech_end
         (snd (Interruptible.step e' Interruptible.EvEnd i))
   = b2n (truthy (trim (Interruptible.finalTranscript i))) /\
   (truthy (trim (Interruptible.finalTranscript i)) = true ->
    In (Interruptible.OnUserSpeechEnd (trim (Interruptible.finalTranscript i)))
       (snd (Interruptible.step e' Interruptible.EvEnd i)))).
Proof.
  intros R L R' P. split.
  - unfold Simple.step, when. rewrite R.
    unfold Simple.onend, seq, emit. cbn [fst snd].
    rewrite SimpleFacts.complete_live by done. cbn [fst snd].
    unfold Simple.complete_trace. rewrite R.
    destruct (truthy (trim (Simple.finalTranscript s)));
      repeat split; try done; simpl; auto 10.
  - unfold Interruptible.step, when. rewrite R'.
    unfold Interruptible.onend, seq, emit. cbn [fst snd].
    rewrite InterruptibleFacts.processResult_live by done. cbn [fst snd].
    unfold Interruptible.process_trace. rewrite R'.
    destruct (bool_decide _),
      (truthy (trim (Interruptible.finalTranscript i)));
      repeat split; try done; simpl; auto 10.
Qed.

Lemma C2_end_reports_nonempty_text_witness :
  Simple.recognition simple_heard = true /\
  Simple.isListening simple_heard = true /\
  Interruptible.recognition inter_heard = true /\
  Interruptible.isProcessing inter_heard = false /\
  In (Simple.OnComplete (lit "hi"))
     (snd (Simple.step (simple_at 1000) Simple.EvEnd simple_heard)) /\
  In (Interruptible.OnUserSpeechEnd (lit "hi"))
     (snd (Interruptible.step (inter_at 1000) Interruptible.EvEnd inter_heard)).
Proof.
  assert (Simple.recognition simple_heard = true) as R by reflexivity.
  assert (Simple.isListening simple_heard = true) as L by reflexivity.
  assert (Interruptible.recognition inter_heard = true) as R' by reflexivity.
  assert (Interruptible.isProcessing inter_heard = false) as P by reflexivity.
  destruct (C2_end_reports_nonempty_text simple_heard (simple_at 1000)
              inter_heard (inter_at 1000) R L R' P)
    as ((_ & H & _) & (_ & H')).
  repeat (split; [assumption|]).
  split; [exact (H eq_refl) | exact (H' eq_refl)].
Defined.

(** C3. Barge-in: when a frame of the detection loop finds the level above
    the interrupt threshold while the engine is monitoring, the
    user-speaking-detected callback is invoked first and the recognizer is
    started only after it; with that callback cancelling the speech
    service, the synthesizer is silent when the recognizer starts.  The
    order holds for every event the engine handles: in the trace of any
    one event, each start of the recognizer comes after the signal, and
    finds the synthesizer silent. *)
Theorem C3_barge_in_cancels_before_listening
    (s : Interruptible.state) (e : Interruptible.env) :
  Interruptible.fired s e = true ->
  Interruptible.recognition s = true ->
  (exists post,
      snd (Interruptible.detectInterrupt e s)
      = Interruptible.Console Interruptible.LogUserSpeechDetected
        :: Interruptible.OnUserSpeakingDetected
        :: Interruptible.Console Interruptible.LogStartingToListen
        :: Interruptible.OnUserSpeechStart
        :: Interruptible.RecStart :: post) /\
  (forall t b,
      In (Interruptible.RecStart, b)
         (BargeIn.wire (snd (Interruptible.detectInterrupt e s)) t) ->
      b = false) /\
  (forall e0 ev s0,
      Interruptible.signal_first (snd (Interruptible.step e0 ev s0))) /\
  (forall e0 ev s0 t b,
      In (Interruptible.RecStart, b)
         (BargeIn.wire (snd (Interruptible.step e0 ev s0)) t) ->
      b = false).
Proof.
  intros F R. split; [|split; [|split]].
  - unfold Interruptible.fired, Interruptible.loud in F.
    apply andb_prop in F as [F P]. apply andb_prop in F as [F L].
    apply andb_prop in F as [F V]. apply andb_prop in F as [A An].
    apply negb_true_iff in P, L.
    unfold Interruptible.detectInterrupt, reading. cbv beta.
    rewrite A, An, V, L, P. cbn [negb orb andb fst snd app emit seq].
    unfold Interruptible.startUserListening, reading. cbv beta.
    rewrite L, R. cbn [negb orb andb fst snd app emit seq].
    eexists; reflexivity.
  - intros t b. apply (BargeInFacts.ordered_calm false); [|done].
    apply InterruptibleFacts.ordered_detectInterrupt.
  - intros e0 ev s0. apply InterruptibleFacts.ordered_signal_first.
    apply InterruptibleFacts.ordered_step.
  - intros e0 ev s0 t b. apply (BargeInFacts.ordered_calm false); [|done].
    apply InterruptibleFacts.ordered_step.
Qed.

Lemma C3_barge_in_cancels_before_listening_witness :
  Interruptible.fired inter_monitoring (inter_loud 16) = true /\
  Interruptible.recognition inter_monitoring = true /\
  Tts.isSpeaking tts_speaking = true /\
  forall b,
    In (Interruptible.RecStart, b)
       (BargeIn.wire
          (snd (Interruptible.detectInterrupt (inter_loud 16) inter_monitoring))
          tts_speaking) ->
    b = false.
Proof.
  assert (Interruptible.fired inter_monitoring (inter_loud 16) = true) as F
    by reflexivity.
  assert (Interruptible.recognition inter_monitoring = true) as R
    by reflexivity.
  destruct (C3_barge_in_cancels_before_listening
              inter_monitoring (inter_loud 16) F R) as (_ & H & _).
  split; [exact F|]. split; [exact R|]. split; [reflexivity|].
  exact (H tts_speaking).
Defined.

(** C4, as stated, fails: while every sampled level stays above the
    threshold, [VoiceActivityDetection] raises the voice-start signal a
    second time as soon as a result has ended the first session, and
    [InterruptibleVoiceInput] raises its signal again when the detection
    restarts two seconds after the turn.  Neither waits for the level to
    drop.  And while [recognition.start()] raises,
    [VoiceActivityDetection] raises the signal on every loud frame: three
    times on three frames in a row. *)
Lemma C4_signal_refires_while_level_stays_high :
  (Forall (fun x => Vad.loud vad_fresh x.1 = true) vad_noise /\
   count Vad.is_voice_start (snd (Vad.run vad_noise vad_fresh)) = 2%nat) /\
  (Forall (fun x => Interruptible.loud inter_fresh x.1 = true) inter_noise /\
   count Interruptible.is_detected
         (snd (Interruptible.run inter_noise inter_fresh)) = 2%nat) /\
  count Vad.is_voice_start
        (snd (Vad.frames [(vad_loud_failing 16, tt); (vad_loud_failing 32, tt);
                          (vad_loud_failing 48, tt)] vad_monitoring))
  = 3%nat.
Proof.
  split; [|split]; [split; [repeat constructor | reflexivity] ..
                   | reflexivity].
Qed.

(** C4, amended.  A frame raises the voice-start signal exactly when the
    level is above the threshold and the engine is not already listening
    ([VoiceActivityDetection]: active, analysing, not listening, with a
    recognizer; [InterruptibleVoiceInput]: against [interruptSensitivity]
    whatever its status, and neither listening nor processing).  Over any
    sequence of frames during which [recognition.start()] does not raise,
    with no other event between them, [VoiceActivityDetection] raises the
    signal at most once, exactly once when the first frame qualifies, and
    not at all while the session of an earlier trigger is listening.  It
    re-arms when a session ends, by a result, by an error or by the
    maximum listening time: the next frame qualifies as soon as it is
    loud, whether the level has dropped or not.  While
    [recognition.start()] raises, the [catch] clears the listening flag at
    once, and every loud frame raises the signal again. *)
Theorem C4_voice_start_once_per_session
    (v : Vad.state) (e : Vad.env) (fs : list (Vad.env * unit))
    (i : Interruptible.state) (e' : Interruptible.env) :
  Forall (fun x => Vad.start_throws x.1 = false) ((e, tt) :: fs) ->
  count Vad.is_voice_start (snd (Vad.detectVoice e v)) = b2n (Vad.fired v e) /\
  (count Vad.is_voice_start (snd (Vad.frames fs v)) <= 1)%nat /\
  (Vad.isListening v = true ->
   count Vad.is_voice_start (snd (Vad.frames fs v)) = 0%nat) /\
  (Vad.fired v e = true ->
   count Vad.is_voice_start (snd (Vad.frames ((e, tt) :: fs) v)) = 1%nat) /\
  (forall e0 e1 now transcript err resultIndex results,
      Vad.isListening (fst (Vad.handleVoiceEnd now transcript v)) = false /\
      Vad.fired (fst (Vad.handleVoiceEnd now transcript v)) e1
      = Vad.equipped v && Vad.loud v e1 /\
      Vad.fired (fst (Vad.step e0 (Vad.EvError err) v)) e1
      = Vad.equipped v && Vad.loud v e1 /\
      Vad.fired (fst (Vad.timer_callback e0 Vad.KMaxListen v)) e1
      = Vad.equipped v && Vad.loud v e1 /\
      (truthy (trim (fst (scan_results resultIndex results))) = true ->
       Vad.fired (fst (Vad.step e0 (Vad.EvResult resultIndex results) v)) e1
       = Vad.equipped v && Vad.loud v e1)) /\
  (forall gs,
      Forall (fun x => Vad.start_throws x.1 = true /\ Vad.loud v x.1 = true)
             gs ->
      Vad.equipped v && negb (Vad.isListening v) = true ->
      count Vad.is_voice_start (snd (Vad.frames gs v)) = length gs) /\
  count Interruptible.is_detected (snd (Interruptible.detectInterrupt e' i))
  = b2n (Interruptible.fired i e').
Proof.
  intros Hfs. pose proof Hfs as Hfs'.
  apply Forall_cons in Hfs' as [_ Hfs'].
  pose proof (VadFacts.frames_once fs v Hfs') as H.
  split; [apply VadFacts.detectVoice_count|].
  split; [|split; [|split; [|split; [|split]]]].
  - destruct (Vad.isListening v); simpl in H; lia.
  - intros L. rewrite L in H. simpl in H. lia.
  - intros F. by apply VadFacts.frames_fire_once.
  - intros e0 e1 now transcript err resultIndex results.
    split; [apply VadFacts.handleVoiceEnd_ends|].
    split; [apply VadFacts.rearm_handleVoiceEnd|].
    split; [apply VadFacts.rearm_onerror|].
    split; [apply VadFacts.rearm_max_listen|].
    apply VadFacts.rearm_final_result.
  - intros gs Hgs Hv. by apply VadFacts.frames_refire.
  - apply InterruptibleFacts.detectInterrupt_count.
Qed.

Lemma C4_voice_start_once_per_session_witness :
  Forall (fun x => Vad.start_throws x.1 = false)
         [(vad_loud 16, tt); (vad_loud 32, tt); (vad_loud 48, tt)] /\
  Vad.isListening vad_monitoring = false /\
  Vad.fired vad_monitoring (vad_loud 16) = true /\
  count Vad.is_voice_start
        (snd (Vad.frames [(vad_loud 16, tt); (vad_loud 32, tt);
                          (vad_loud 48, tt)] vad_monitoring)) = 1%nat.
Proof.
  assert (Forall (fun x => Vad.start_throws x.1 = false)
                 [(vad_loud 16, tt); (vad_loud 32, tt); (vad_loud 48, tt)]) as F
    by (repeat constructor).
  assert (Vad.fired vad_monitoring (vad_loud 16) = true) as Q by reflexivity.
  split; [exact F|]. split; [reflexivity|]. split; [exact Q|].
  exact (proj1 (proj2 (proj2 (proj2 (C4_voice_start_once_per_session
           vad_monitoring (vad_loud 16)
           [(vad_loud 32, tt); (vad_loud 48, tt)]
           inter_fresh (inter_loud 0) F)))) Q).
Defined.

(** C5, as stated, fails in [SimpleVoiceInput], which has no disabled
    state: after the not-allowed error the auto-restart timer of the turn
    before is still pending, and when it fires, with no call from the
    user, the recognizer is started again. *)
Lemma C5_simple_restarts_after_denial :
  In (Simple.OnError (lit "not-allowed"))
     (snd (Simple.run simple_denied simple_fresh)) /\
  snd (Simple.step (simple_at 4000) (Simple.EvTimer 4)
                   (fst (Simple.run simple_denied simple_fresh)))
  = [Simple.Console Simple.LogAutoRestarting;
     Simple.Console Simple.LogStarting;
     Simple.RecStart].
Proof.
  split; [|reflexivity]. vm_compute. auto 20.
Qed.

(** C5, amended.  In [ReliableVoiceInput] the not-allowed error reports
    the denial and clears [isEnabled]; from then on, whatever events
    follow, as long as [enable()] is not among them, the recognizer is not
    started, voice input stays disabled and [startListening] returns at
    its guard.  [enable()] is the call that lets [startListening] through
    again. *)
Theorem C5_denied_disables_until_enabled
    (s : Reliable.state) (e : Reliable.env)
    (es : list (Reliable.env * Reliable.event)) :
  Reliable.recognition s = true ->
  Forall (fun x => Reliable.is_enable x = false) es ->
  Reliable.isEnabled (Reliable.denied e s) = false /\
  In (Reliable.OnError Reliable.msg_denied)
     (snd (Reliable.step e (Reliable.EvError (lit "not-allowed")) s)) /\
  count Reliable.is_recstart (snd (Reliable.run es (Reliable.denied e s)))
  = 0%nat /\
  Reliable.isEnabled (fst (Reliable.run es (Reliable.denied e s))) = false /\
  (forall e0,
      snd (Reliable.startListening e0 (fst (Reliable.run es (Reliable.denied e s))))
      = [Reliable.Console Reliable.LogCannotStart]) /\
  (forall e0 s0,
      Reliable.supported s0 = true -> Reliable.recognition s0 = true ->
      Reliable.isListening s0 = false ->
      In Reliable.RecStart
         (snd (Reliable.run [(e0, Reliable.CallEnable);
                             (e0, Reliable.CallStartListening)] s0))).
Proof.
  intros R Hes.
  destruct (ReliableFacts.not_allowed_disables e s R) as [D M].
  destruct (ReliableFacts.disabled_run es (Reliable.denied e s) Hes D)
    as [D' C].
  repeat (split; [assumption|]). split.
  - intros e0. unfold Reliable.startListening, reading. by rewrite D'.
  - intros e0 s0. apply ReliableFacts.enable_rearms.
Qed.

Lemma C5_denied_disables_until_enabled_witness :
  Reliable.recognition reliable_fresh = true /\
  Forall (fun x => Reliable.is_enable x = false) reliable_retries /\
  count Reliable.is_recstart
        (snd (Reliable.run reliable_retries
                (Reliable.denied (reliable_at 0) reliable_fresh)))
  = 0%nat.
Proof.
  assert (Reliable.recognition reliable_fresh = true) as R by reflexivity.
  assert (Forall (fun x => Reliable.is_enable x = false) reliable_retries) as F
    by (repeat constructor).
  split; [exact R|]. split; [exact F|].
  exact (proj1 (proj2 (proj2 (C5_denied_disables_until_enabled
           reliable_fresh (reliable_at 0) reliable_retries R F)))).
Defined.

(** C6: the code breaks the bound of the claim.  [speakLongText] compares
    [currentChunk.length + sentence.length] with [chunkSize] and then joins
    the two with a space it did not count: for the text "a. b" and
    [chunkSize = 5] the one chunk handed to [speak] is "a .  b", six
    characters, although no sentence piece is longer than two; for
    "Hi there. Bye now" and 18 it has 19 characters.  What the loop does
    guarantee is [chunkSize + 1], unless the chunk is one piece by itself.
    The example of the specification ([chunkSize = 30]) comes out as two
    chunks with one pause between them. *)
Theorem C6_chunk_exceeds_chunk_size :
  (Tts.splitIntoSentences (lit "a. b") = [lit "a"; lit ". "; lit "b"] /\
   Tts.speakLongText tts_fresh (lit "a. b") 5 = [Tts.Speak (lit "a .  b")] /\
   length (lit "a .  b") = 6%nat) /\
  (Tts.splitIntoSentences (lit "Hi there. Bye now")
   = [lit "Hi there"; lit ". "; lit "Bye now"] /\
   Tts.speakLongText tts_fresh (lit "Hi there. Bye now") 18
   = [Tts.Speak (lit "Hi there .  Bye now")] /\
   length (lit "Hi there .  Bye now") = 19%nat) /\
  (forall s text chunkSize chunk,
      In chunk (Tts.chunks (Tts.speakLongText s text chunkSize)) ->
      Z.of_nat (length chunk) <= chunkSize + 1
      \/ exists p, In p (Tts.splitIntoSentences text) /\ chunk = trim p) /\
  Tts.speakLongText tts_fresh
    (lit "Hello. This is a test sentence that is quite long and should be chunked.")
    30
  = [Tts.Speak (lit "Hello .");
     Tts.Delay 300;
     Tts.Speak (lit "This is a test sentence that is quite long and should be chunked.")].
Proof.
  split; [by vm_compute|]. split; [by vm_compute|].
  split; [apply TtsFacts.speakLongText_bound | by vm_compute].
Qed.

(** C7, as stated, fails in [SimpleVoiceInput]: with [silenceTimeout] 2000
    and fragments at 0, 500 and 1800 ms of which the second is a final
    result of eleven characters, the session finalizes at 500 ms, in the
    handler of that result, and nothing is finalized at 3800 ms.  A result
    event whose text is empty does not restart the countdown either: it
    still runs out at 2000 ms. *)
Lemma C7_final_text_finalizes_before_the_timeout :
  Simple.silenceTimeout (Simple.cfg simple_fresh) = 2000 /\
  Simple.finalize_times
    (snd (Simple.play 20 0 simple_fragments_final 10000 simple_fresh))
  = [500] /\
  Simple.idle_until 10000
    (fst (Simple.play 20 0 simple_fragments_final 10000 simple_fresh))
  = true /\
  Simple.silence_due simple_listening = Some 2000 /\
  Simple.silence_due
    (fst (Simple.step (simple_at 500) simple_empty_fragment simple_listening))
  = Some 2000.
Proof. repeat split; by vm_compute. Qed.

(** C7, amended.  For a [silenceTimeout] from 0 to 2^31 - 1, the delays
    that [setTimeout] takes as they are: every result event of
    [InterruptibleVoiceInput], and every result event of [SimpleVoiceInput]
    that carries text and does not complete the session (the final text
    stays at five characters or fewer), restarts the silence countdown to
    [silenceTimeout].  From then on no run of events reaches the silence
    timer's callback before the countdown has run out; once it has, the
    timer in the slot fires into the finalize path and finalizes a turn
    that is still open.  With [silenceTimeout] 2000 and fragments at 0,
    500 and 1800 ms (interim ones for [InterruptibleVoiceInput], whose
    recognizer ends after a final result), an event loop without jitter
    finalizes at 3800 ms. *)
Theorem C7_silence_countdown_restarts
    (i : Interruptible.state) (e : Interruptible.env)
    (resultIndex : nat) (results : list SpeechResult)
    (s : Simple.state) (e' : Simple.env)
    (resultIndex' : nat) (results' : list SpeechResult) :
  Interruptible.wf i ->
  Interruptible.recognition i = true ->
  0 <= Interruptible.silenceTimeout (Interruptible.cfg i) < 2 ^ 31 ->
  Simple.wf s ->
  Simple.recognition s = true ->
  0 <= Simple.silenceTimeout (Simple.cfg s) < 2 ^ 31 ->
  truthy (fst (scan_results resultIndex' results'))
  || truthy (snd (scan_results resultIndex' results')) = true ->
  (5 <? length (trim (Simple.finalTranscript s
                      ++ fst (scan_results resultIndex' results'))))%nat = false
  \/ Simple.isListening s = false ->
  (Interruptible.silence_due
     (fst (Interruptible.step e (Interruptible.EvResult resultIndex results) i))
   = Some (Interruptible.now e + Interruptible.silenceTimeout (Interruptible.cfg i)) /\
   (forall es,
       (forall e0 ev, In (e0, ev) es ->
          Interruptible.now e <= Interruptible.now e0
          < Interruptible.now e + Interruptible.silenceTimeout (Interruptible.cfg i)) ->
       count Interruptible.is_silence_timeout
         (snd (Interruptible.run es
            (fst (Interruptible.step e
                    (Interruptible.EvResult resultIndex results) i))))
       = 0%nat) /\
   (forall h e0,
       Interruptible.silenceTimer
         (fst (Interruptible.step e (Interruptible.EvResult resultIndex results) i))
       = Some h ->
       Interruptible.now e + Interruptible.silenceTimeout (Interruptible.cfg i)
       <= Interruptible.now e0 ->
       count Interruptible.is_silence_timeout
         (snd (Interruptible.step e0 (Interruptible.EvTimer h)
            (fst (Interruptible.step e
                    (Interruptible.EvResult resultIndex results) i))))
       = 1%nat /\
       (Interruptible.isProcessing i = false ->
        count Interruptible.is_finalize
          (snd (Interruptible.step e0 (Interruptible.EvTimer h)
             (fst (Interruptible.step e
                     (Interruptible.EvResult resultIndex results) i))))
        = 1%nat))) /\
  (Simple.silence_due
     (fst (Simple.step e' (Simple.EvResult resultIndex' results') s))
   = Some (Simple.now e' + Simple.silenceTimeout (Simple.cfg s)) /\
   (forall es,
       (forall e0 ev, In (e0, ev) es ->
          Simple.now e' <= Simple.now e0
          < Simple.now e' + Simple.silenceTimeout (Simple.cfg s)) ->
       count Simple.is_silence_timeout
         (snd (Simple.run es
            (fst (Simple.step e' (Simple.EvResult resultIndex' results') s))))
       = 0%nat) /\
   (forall h e0,
       Simple.silenceTimer
         (fst (Simple.step e' (Simple.EvResult resultIndex' results') s))
       = Some h ->
       Simple.now e' + Simple.silenceTimeout (Simple.cfg s) <= Simple.now e0 ->
       count Simple.is_silence_timeout
         (snd (Simple.step e0 (Simple.EvTimer h)
            (fst (Simple.step e' (Simple.EvResult resultIndex' results') s))))
       = 1%nat /\
       (Simple.isListening s = true ->
        count Simple.is_finalize
          (snd (Simple.step e0 (Simple.EvTimer h)
             (fst (Simple.step e' (Simple.EvResult resultIndex' results') s))))
        = 1%nat))) /\
  (Interruptible.finalize_times
     (snd (Interruptible.play 20 0 inter_fragments 5000 inter_started))
   = [3800] /\
   Interruptible.idle_until 5000
     (fst (Interruptible.play 20 0 inter_fragments 5000 inter_started))
   = true) /\
  (Simple.finalize_times
     (snd (Simple.play 20 0 simple_fragments 5000 simple_fresh))
   = [3800] /\
   Simple.idle_until 5000
     (fst (Simple.play 20 0 simple_fragments 5000 simple_fresh))
   = true).
Proof.
  intros W R Hr W' R' Hr' Htext Hopen.
  rewrite <- (timer_delay_in_range _ Hr), <- (timer_delay_in_range _ Hr').
  split; [|split; [|split; split; by vm_compute]].
  - unfold Interruptible.step at 1 2 3 5 7. unfold when. rewrite R.
    destruct (InterruptibleFacts.iv_onresult_restarts
                (Interruptible.now e) resultIndex results i W)
      as (W1 & D1 & Q1).
    split; [exact D1|]. split.
    + intros es Hes.
      apply (InterruptibleFacts.iv_quiet_run _ _ es _ Q1).
      intros e0 ev Hin. specialize (Hes e0 ev Hin). lia.
    + intros h e0 Hs Hn.
      destruct (InterruptibleFacts.iv_silence_fires e0 h _ _ Hs D1 Hn)
        as [C F].
      split; [exact C|]. intros P. apply F.
      (* a result event does not touch [isProcessing] *)
      clear -P. unfold Interruptible.onresult, Interruptible.resetSilenceTimer,
        Interruptible.clearSlot, Interruptible.setTimeout, seq, reading, emit,
        modify, skip.
      destruct (truthy _); exact P.
  - unfold Simple.step at 1 2 3 5 7. unfold when. rewrite R'.
    destruct (SimpleFacts.onresult_restarts
                (Simple.now e') resultIndex' results' s W' Htext Hopen)
      as (W1 & D1 & Q1).
    split; [exact D1|]. split.
    + intros es Hes.
      apply (SimpleFacts.quiet_run _ _ es _ Q1).
      intros e0 ev Hin. specialize (Hes e0 ev Hin). lia.
    + intros h e0 Hs Hn.
      destruct (SimpleFacts.silence_fires e0 h _ _ Hs D1 Hn) as [C F].
      split; [exact C|]. intros L. apply F.
      (* the session is still listening: the event did not complete it *)
      destruct Hopen as [Hshort | Hl]; [|congruence].
      clear -L Hshort. unfold Simple.onresult.
      set (new := fst (scan_results resultIndex' results')) in *.
      destruct new as [|ch new'].
      * rewrite app_nil_r in Hshort.
        destruct (truthy (snd _));
          unfold Simple.resetSilenceTimer, Simple.clearSlot,
            Simple.setTimeout, seq, reading, emit, modify, skip;
          cbn [fst snd truthy orb Simple.finalTranscript
               Simple.set_silenceTimer Simple.set_rt];
          rewrite Hshort; exact L.
      * unfold Simple.resetSilenceTimer, Simple.clearSlot,
          Simple.setTimeout, seq, reading, emit, modify, skip;
        cbn [fst snd truthy orb Simple.finalTranscript
             Simple.set_silenceTimer Simple.set_rt
             Simple.set_finalTranscript];
        rewrite Hshort; exact L.
Qed.

Lemma C7_silence_countdown_restarts_witness :
  Interruptible.wf inter_started /\
  Interruptible.recognition inter_started = true /\
  0 <= Interruptible.silenceTimeout (Interruptible.cfg inter_started) < 2 ^ 31 /\
  Simple.wf simple_listening /\
  Simple.recognition simple_listening = true /\
  0 <= Simple.silenceTimeout (Simple.cfg simple_listening) < 2 ^ 31 /\
  Interruptible.silence_due
    (fst (Interruptible.step (inter_at 1800)
            (Interruptible.EvResult 0 [interim "hello there"]) inter_started))
  = Some (1800 + 2000) /\
  Simple.silence_due
    (fst (Simple.step (simple_at 1800) (Simple.EvResult 0 [interim "hello"])
            simple_listening))
  = Some (1800 + 2000).
Proof.
  assert (Interruptible.wf inter_started) as W
    by (apply (bool_decide_unpack _); by vm_compute).
  assert (Interruptible.recognition inter_started = true) as R by reflexivity.
  assert (0 <= Interruptible.silenceTimeout (Interruptible.cfg inter_started)
          < 2 ^ 31) as Hr by (vm_compute; split; [discriminate | reflexivity]).
  assert (0 <= Simple.silenceTimeout (Simple.cfg simple_listening) < 2 ^ 31)
    as Hr' by (vm_compute; split; [discriminate | reflexivity]).
  assert (Simple.wf simple_listening) as W'
    by (apply (bool_decide_unpack _); by vm_compute).
  assert (Simple.recognition simple_listening = true) as R' by reflexivity.
  assert (truthy (fst (scan_results 0 [interim "hello"]))
          || truthy (snd (scan_results 0 [interim "hello"])) = true) as T
    by reflexivity.
  assert ((5 <? length (trim (Simple.finalTranscript simple_listening
                              ++ fst (scan_results 0 [interim "hello"]))))%nat
          = false \/ Simple.isListening simple_listening = false) as O
    by (left; reflexivity).
  destruct (C7_silence_countdown_restarts
              inter_started (inter_at 1800) 0 [interim "hello there"]
              simple_listening (simple_at 1800) 0 [interim "hello"]
              W R Hr W' R' Hr' T O) as ((D & _) & (D' & _) & _).
  split; [exact W|]. split; [exact R|]. split; [exact Hr|].
  split; [exact W'|]. split; [exact R'|]. split; [exact Hr'|].
  split; [exact D | exact D'].
Defined.

(** C8. For every rational input the setters store the clamped value and
    never reject: [setRate] stores max(0.1, min(10, x)), [setPitch]
    max(0, min(2, x)) and [setVolume] max(0, min(1, x)), each inside its
    range, with no effect besides the assignment; the infinities are
    clamped to the bounds as well. *)
Theorem C8_setters_clamp (x : Q) (s : Tts.state) :
  (Tts.value_is (Tts.rate (Tts.cfg (fst (Tts.setRate (Tts.Num x) s))))
                (Qmax (1 # 10) (Qmin 10 x)) /\
   Qle (1 # 10) (Qmax (1 # 10) (Qmin 10 x)) /\
   Qle (Qmax (1 # 10) (Qmin 10 x)) 10 /\
   snd (Tts.setRate (Tts.Num x) s) = []) /\
  (Tts.value_is (Tts.pitch (Tts.cfg (fst (Tts.setPitch (Tts.Num x) s))))
                (Qmax 0 (Qmin 2 x)) /\
   Qle 0 (Qmax 0 (Qmin 2 x)) /\
   Qle (Qmax 0 (Qmin 2 x)) 2 /\
   snd (Tts.setPitch (Tts.Num x) s) = []) /\
  (Tts.value_is (Tts.volume (Tts.cfg (fst (Tts.setVolume (Tts.Num x) s))))
                (Qmax 0 (Qmin 1 x)) /\
   Qle 0 (Qmax 0 (Qmin 1 x)) /\
   Qle (Qmax 0 (Qmin 1 x)) 1 /\
   snd (Tts.setVolume (Tts.Num x) s) = []) /\
  (Tts.rate (Tts.cfg (fst (Tts.setRate Tts.PosInf s))) = Tts.Num 10 /\
   Tts.rate (Tts.cfg (fst (Tts.setRate Tts.NegInf s))) = Tts.Num (1 # 10)).
Proof.
  split; [|split; [|split]].
  - split; [apply TtsFacts.clamp_value|].
    destruct (TtsFacts.clamp_range (1 # 10) 10 x) as [H1 H2]; [done|].
    by repeat split.
  - split; [apply TtsFacts.clamp_value|].
    destruct (TtsFacts.clamp_range 0 2 x) as [H1 H2]; [done|].
    by repeat split.
  - split; [apply TtsFacts.clamp_value|].
    destruct (TtsFacts.clamp_range 0 1 x) as [H1 H2]; [done|].
    by repeat split.
  - by split.
Qed.

(** C9. In [SimpleVoiceInput], a result event that leaves the trimmed
    accumulated final transcript longer than five characters finalizes a
    listening session at once, inside its own handler: [complete] runs,
    stops the recognizer, reports the transcript, and leaves both timers
    cleared, so neither the silence timeout, nor the overall timeout, nor
    the end event is waited for. *)
Theorem C9_enough_final_text_completes_at_once
    (s : Simple.state) (e : Simple.env)
    (resultIndex : nat) (results : list SpeechResult) :
  Simple.recognition s = true ->
  Simple.isListening s = true ->
  (5 < length (trim (Simple.finalTranscript s
                     ++ fst (scan_results resultIndex results))))%nat ->
  Simple.isListening
    (fst (Simple.step e (Simple.EvResult resultIndex results) s)) = false /\
  count Simple.is_finalize
    (snd (Simple.step e (Simple.EvResult resultIndex results) s)) = 1%nat /\
  In Simple.RecStop
     (snd (Simple.step e (Simple.EvResult resultIndex results) s)) /\
  In (Simple.OnComplete
        (trim (Simple.finalTranscript s
               ++ fst (scan_results resultIndex results))))
     (snd (Simple.step e (Simple.EvResult resultIndex results) s)) /\
  count Simple.is_oncomplete
    (snd (Simple.step e (Simple.EvResult resultIndex results) s)) = 1%nat /\
  In Simple.OnStop
     (snd (Simple.step e (Simple.EvResult resultIndex results) s)) /\
  Simple.timeoutTimer
    (fst (Simple.step e (Simple.EvResult resultIndex results) s)) = None /\
  Simple.silenceTimer
    (fst (Simple.step e (Simple.EvResult resultIndex results) s)) = None /\
  Simple.silence_due
    (fst (Simple.step e (Simple.EvResult resultIndex results) s)) = None.
Proof.
  intros R L H. apply Nat.ltb_lt in H.
  unfold Simple.step, when. rewrite R.
  destruct (SimpleFacts.onresult_completes (Simple.now e) resultIndex results
              s L H) as (L' & T' & S' & C & O & Hstop & Hc & Hs).
  unfold Simple.silence_due. rewrite S'. auto 10.
Qed.

Lemma C9_enough_final_text_completes_at_once_witness :
  Simple.recognition simple_heard = true /\
  Simple.isListening simple_heard = true /\
  (5 < length (trim (Simple.finalTranscript simple_heard
                     ++ fst (scan_results 1 [final "hi"; final " there"]))))%nat /\
  In (Simple.OnComplete (lit "hi there"))
     (snd (Simple.step (simple_at 900)
             (Simple.EvResult 1 [final "hi"; final " there"]) simple_heard)).
Proof.
  assert (Simple.recognition simple_heard = true) as R by reflexivity.
  assert (Simple.isListening simple_heard = true) as L by reflexivity.
  assert (5 < length (trim (Simple.finalTranscript simple_heard
                   ++ fst (scan_results 1 [final "hi"; final " there"]))))%nat
    as H by (vm_compute; lia).
  split; [exact R|]. split; [exact L|]. split; [exact H|].
  exact (proj1 (proj2 (proj2 (proj2
           (C9_enough_final_text_completes_at_once
              simple_heard (simple_at 900) 1 [final "hi"; final " there"]
              R L H))))).
Defined.

(** C10. The status-change callback of [InterruptibleVoiceInput] fires on
    genuine changes only: over every sequence of internal status updates,
    and over every run of events of the service, each emitted status
    differs from the one emitted before it, the first from the status the
    service started in, and the last is the current status; an update to
    the status that is current already emits nothing and changes
    nothing. *)
Theorem C10_status_events_always_change :
  (forall l s,
      Interruptible.changes (Interruptible.currentStatus s)
        (Interruptible.statuses (snd (Interruptible.updates l s))) /\
      Interruptible.last_status (Interruptible.currentStatus s)
        (Interruptible.statuses (snd (Interruptible.updates l s)))
      = Interruptible.currentStatus (fst (Interruptible.updates l s))) /\
  (forall es s,
      Interruptible.changes (Interruptible.currentStatus s)
        (Interruptible.statuses (snd (Interruptible.run es s))) /\
      Interruptible.last_status (Interruptible.currentStatus s)
        (Interruptible.statuses (snd (Interruptible.run es s)))
      = Interruptible.currentStatus (fst (Interruptible.run es s))) /\
  (forall s,
      Interruptible.updateStatus (Interruptible.currentStatus s) s = (s, [])).
Proof.
  split; [|split].
  - intros l s. apply (InterruptibleFacts.chain_updates l s).
  - intros es s. apply (InterruptibleFacts.chain_run es s).
  - intros s. unfold Interruptible.updateStatus, reading.
    by rewrite bool_decide_eq_true_2.
Qed.

(** * Further properties of the code *)

(** X1. [splitIntoSentences] loses nothing but white space.  The pieces
    that [split] returns, separators included, concatenate to the text;
    the filter drops only blank pieces, so the sentences hold every
    character of the text that is not white space, in order; no sentence
    is blank, and a text that is not blank has at least one. *)
Theorem X1_split_keeps_the_text (text : jsstring) :
  concat (Tts.split_sentences_regex text) = text /\
  Tts.visible (concat (Tts.splitIntoSentences text)) = Tts.visible text /\
  Forall (fun p => truthy (trim p) = true) (Tts.splitIntoSentences text) /\
  (truthy (trim text) = true -> Tts.splitIntoSentences text <> []).
Proof.
  split; [apply SpeechFacts.split_sentences_regex_concat|].
  split; [apply SpeechFacts.splitIntoSentences_visible|].
  split; [apply SpeechFacts.splitIntoSentences_nonblank|].
  apply SpeechFacts.splitIntoSentences_nonempty.
Qed.

(** X2. The script of [speakLongText]: chunks are spoken with one pause
    of 300 ms between each two of them and none after the last; every
    chunk handed to [speak] is trimmed and not empty; a text that is not
    blank makes an enabled service speak at least one chunk, and a blank
    text or a disabled service gives no action at all. *)
Theorem X2_chunks_alternate_with_pauses
    (s : Tts.state) (text : jsstring) (chunkSize : Z) :
  Tts.paused_between (Tts.speakLongText s text chunkSize) = true /\
  (forall c, In c (Tts.chunks (Tts.speakLongText s text chunkSize)) ->
             trimmed_text c) /\
  (Tts.enabled (Tts.cfg s) = true -> truthy (trim text) = true ->
   exists c rest, Tts.speakLongText s text chunkSize = Tts.Speak c :: rest) /\
  (Tts.enabled (Tts.cfg s) = false \/ truthy (trim text) = false ->
   Tts.speakLongText s text chunkSize = []).
Proof.
  unfold Tts.speakLongText.
  pose proof (SpeechFacts.chunk_loop_script chunkSize
                (Tts.splitIntoSentences text) []
                (SpeechFacts.splitIntoSentences_nonblank text)) as [P H].
  split; [by destruct (_ || _)|]. split; [|split].
  - intros c. destruct (_ || _); [done|].
    apply SpeechFacts.chunk_loop_trimmed.
  - intros En T. rewrite En, T. simpl. apply H. right.
    by apply SpeechFacts.splitIntoSentences_nonempty.
  - intros [-> | ->]; [done|]. by rewrite orb_true_r.
Qed.

(** X3. [speakLongText] hands the text to [speak] chunk by chunk and
    stops at the first rejection.  When every awaited [speak] resolves,
    the run comes to its end and the chunks handed to [speak], one after
    the other, hold exactly the characters of the text that are not white
    space, in their order (none for a disabled service).  When a [speak]
    is rejected, the calls before it resolving, the chunks up to that
    one have been handed to [speak], the chunks after it never are, and
    the promise of [speakLongText] is rejected. *)
Theorem X3_chunks_hold_the_text_until_a_rejection
    (s : Tts.state) (text : jsstring) (chunkSize : Z) :
  (forall resolved,
      Forall (fun b => b = false) resolved ->
      Tts.speakLongText_run s text chunkSize resolved
      = (Tts.speakLongText s text chunkSize, true) /\
      Tts.visible
        (concat (Tts.chunks
                   (fst (Tts.speakLongText_run s text chunkSize resolved))))
      = if Tts.enabled (Tts.cfg s) then Tts.visible text else []) /\
  (forall resolved more,
      Forall (fun b => b = false) resolved ->
      (length resolved
       < length (Tts.chunks (Tts.speakLongText s text chunkSize)))%nat ->
      snd (Tts.speakLongText_run s text chunkSize (resolved ++ true :: more))
      = false /\
      Tts.chunks
        (fst (Tts.speakLongText_run s text chunkSize
                (resolved ++ true :: more)))
      = take (S (length resolved))
             (Tts.chunks (Tts.speakLongText s text chunkSize))).
Proof.
  split.
  - intros resolved H. unfold Tts.speakLongText_run.
    rewrite (SpeechFacts.await_script_resolved _ _ H). split; [done|].
    cbn [fst]. unfold Tts.speakLongText.
    destruct (Tts.enabled (Tts.cfg s)); [|done].
    simpl. destruct (truthy (trim text)) eqn:T; simpl.
    + rewrite SpeechFacts.chunk_loop_visible. simpl.
      apply SpeechFacts.splitIntoSentences_visible.
    + by rewrite SpeechFacts.blank_invisible.
  - intros resolved more H L. unfold Tts.speakLongText_run.
    by apply SpeechFacts.await_script_rejected.
Qed.

(** X4. [speak] replaces whatever is queued: when the service is enabled,
    has a synthesizer and the text is not blank, it cancels first, and
    the synthesizer then holds the new utterance and nothing else,
    carrying the configured rate, pitch, volume and voice; when
    [synthesis.speak] raises, nothing is left queued and the promise is
    rejected.  Otherwise [speak] resolves at once and touches nothing.
    The setters change the configuration only: what is queued keeps the
    values it was created with, and the next utterance gets the clamped
    ones. *)
Theorem X4_speak_replaces_the_queue
    (clean : jsstring -> jsstring) (s : Tts.state) (text : jsstring)
    (r p v : Tts.jsnum) :
  let ready := Tts.enabled (Tts.cfg s) && Tts.synthesis s
               && truthy (trim text) in
  let u := Tts.Utterance (clean text) (Tts.rate (Tts.cfg s))
             (Tts.pitch (Tts.cfg s)) (Tts.volume (Tts.cfg s))
             (Tts.voice (Tts.cfg s)) in
  (ready = false ->
   forall throws, Tts.speak clean throws text s = (s, [Tts.Resolved])) /\
  (ready = true ->
   Tts.speak clean false text s
   = (Tts.State (Tts.cfg s) true (Some u) [u] (Tts.paused s),
      [Tts.SynthCancel; Tts.SynthSpeak u]) /\
   Tts.speak clean true text s
   = (Tts.State (Tts.cfg s) true None [] (Tts.paused s),
      [Tts.SynthCancel; Tts.SynthSpeak u; Tts.Rejected]) /\
   Tts.queue (fst (seq (Tts.setRate r)
                  (seq (Tts.setPitch p)
                     (seq (Tts.setVolume v) (Tts.speak clean false text))) s))
   = [Tts.Utterance (clean text) (Tts.clamp (1 # 10) 10 r)
        (Tts.clamp 0 2 p) (Tts.clamp 0 1 v) (Tts.voice (Tts.cfg s))]) /\
  Tts.queue (fst (Tts.setRate r s)) = Tts.queue s /\
  Tts.queue (fst (Tts.setPitch p s)) = Tts.queue s /\
  Tts.queue (fst (Tts.setVolume v s)) = Tts.queue s.
Proof.
  destruct s as [[en ra pi vo vc] sy cu q pa]. cbv zeta.
  cbn [Tts.cfg Tts.enabled Tts.synthesis Tts.rate Tts.pitch Tts.volume
       Tts.voice Tts.paused Tts.queue].
  split; [|split; [|by repeat split]].
  - intros R throws. unfold Tts.speak, reading.
    cbn [Tts.cfg Tts.enabled Tts.synthesis].
    destruct en, sy, (truthy (trim text)); done.
  - intros R. apply andb_prop in R as [R T]. apply andb_prop in R as [-> ->].
    unfold Tts.speak, Tts.stop, Tts.setRate, Tts.setPitch, Tts.setVolume,
      reading, when, seq, emit, modify.
    cbn [Tts.cfg Tts.enabled Tts.synthesis fst snd negb orb].
    rewrite T. by repeat split.
Qed.

(** X5. [toggle] is [disable] on an enabled service and [enable] on a
    disabled one, effects included: switching off cancels the speech,
    switching on touches no synthesizer.  It returns the negated flag, and
    two calls bring the configuration back. *)
Theorem X5_toggle_is_enable_or_disable (s : Tts.state) :
  Tts.toggle s
  = (if Tts.enabled (Tts.cfg s) then Tts.disable s else Tts.enable s) /\
  Tts.toggle_result s = negb (Tts.enabled (Tts.cfg s)) /\
  Tts.cfg (fst (Tts.toggle (fst (Tts.toggle s)))) = Tts.cfg s /\
  (Tts.toggle_result s = false ->
   Tts.isSpeaking (fst (Tts.toggle s)) = false).
Proof.
  destruct s as [[en ra pi vo vc] sy cu q pa].
  unfold Tts.toggle_result, Tts.toggle, Tts.disable, Tts.enable, Tts.stop,
    Tts.isSpeaking, reading, when, seq, emit, modify, skip.
  destruct en, sy; by repeat split.
Qed.

(** X6. Pausing and resuming: on a service that is speaking and not
    paused, [pause] followed by [resume] leaves the state as it was, with
    one call to the synthesizer each; [pause] does nothing when nothing is
    spoken or the synthesizer is paused already, [resume] nothing when it
    is not paused; neither changes what is queued. *)
Theorem X6_pause_resume_round_trip (s : Tts.state) :
  (Tts.isSpeaking s = true -> Tts.paused s = false ->
   seq Tts.pause Tts.resume s = (s, [Tts.SynthPause; Tts.SynthResume])) /\
  (Tts.isSpeaking s = false \/ Tts.paused s = true ->
   Tts.pause s = (s, [])) /\
  (Tts.paused s = false -> Tts.resume s = (s, [])) /\
  Tts.pause (fst (Tts.pause s)) = (fst (Tts.pause s), []) /\
  Tts.queue (fst (Tts.pause s)) = Tts.queue s /\
  Tts.queue (fst (Tts.resume s)) = Tts.queue s.
Proof.
  destruct s as [c sy cu q pa].
  unfold Tts.pause, Tts.resume, Tts.isSpeaking, reading, seq, emit, modify,
    skip.
  cbn [Tts.synthesis Tts.queue Tts.paused].
  destruct sy, q, pa; cbn; repeat split; try done; intros; try done;
    try (destruct H; done).
Qed.

(** X7. The clamp of the setters lets one input through: NaN is stored as
    it is.  Every other input, the infinities included, leaves a number
    inside the range ([setRate] 0.1 to 10, [setPitch] 0 to 2, [setVolume]
    0 to 1), and setting the stored value again changes nothing. *)
Theorem X7_clamp_passes_only_nan (x : Tts.jsnum) (s : Tts.state) :
  (Tts.rate (Tts.cfg (fst (Tts.setRate Tts.NaN s))) = Tts.NaN /\
   Tts.pitch (Tts.cfg (fst (Tts.setPitch Tts.NaN s))) = Tts.NaN /\
   Tts.volume (Tts.cfg (fst (Tts.setVolume Tts.NaN s))) = Tts.NaN) /\
  (x <> Tts.NaN ->
   (exists q, Tts.rate (Tts.cfg (fst (Tts.setRate x s))) = Tts.Num q /\
              Qle (1 # 10) q /\ Qle q 10) /\
   (exists q, Tts.pitch (Tts.cfg (fst (Tts.setPitch x s))) = Tts.Num q /\
              Qle 0 q /\ Qle q 2) /\
   (exists q, Tts.volume (Tts.cfg (fst (Tts.setVolume x s))) = Tts.Num q /\
              Qle 0 q /\ Qle q 1)) /\
  (Tts.setRate (Tts.rate (Tts.cfg (fst (Tts.setRate x s))))
               (fst (Tts.setRate x s)) = Tts.setRate x s /\
   Tts.setPitch (Tts.pitch (Tts.cfg (fst (Tts.setPitch x s))))
                (fst (Tts.setPitch x s)) = Tts.setPitch x s /\
   Tts.setVolume (Tts.volume (Tts.cfg (fst (Tts.setVolume x s))))
                 (fst (Tts.setVolume x s)) = Tts.setVolume x s).
Proof.
  destruct s as [[en ra pi vo vc] sy cu q pa].
  unfold Tts.setRate, Tts.setPitch, Tts.setVolume, modify.
  cbn [fst Tts.cfg Tts.set_cfg Tts.set_rate Tts.set_pitch Tts.set_volume
       Tts.rate Tts.pitch Tts.volume Tts.enabled Tts.voice Tts.synthesis
       Tts.currentUtterance Tts.queue Tts.paused].
  rewrite !SettingFacts.clamp_fold.
  split; [by repeat split|]. split.
  - intros N. repeat split.
    + by apply (SettingFacts.clamp_range_all (1 # 10) 10).
    + by apply (SettingFacts.clamp_range_all 0 2).
    + by apply (SettingFacts.clamp_range_all 0 1).
  - by rewrite !SettingFacts.clamp_idem.
Qed.

(** X8. [selectBestVoice] on a list of voices that is not empty always
    chooses one of them; whenever an English voice is installed the
    chosen voice is English, and whenever an English voice with female
    in its name is installed the chosen voice has female in its name.
    With no voices nothing changes.  The choice touches no other
    setting and no synthesizer. *)
Theorem X8_an_english_voice_is_preferred
    (voices : list Tts.voice_info) (s : Tts.state) :
  (voices = [] -> Tts.selectBestVoice voices s = (s, [])) /\
  (voices <> [] ->
   exists i v,
     Tts.voice (Tts.cfg (fst (Tts.selectBestVoice voices s))) = Some i /\
     voices !! i = Some v /\
     (forall w, In w voices -> Tts.is_english w = true ->
                Tts.is_english v = true) /\
     (forall w, In w voices -> Tts.is_english w = true ->
        Tts.includes (lit "female") (Tts.toLowerCase (Tts.v_name w)) = true ->
        Tts.includes (lit "female") (Tts.toLowerCase (Tts.v_name v)) = true)) /\
  snd (Tts.selectBestVoice voices s) = [] /\
  Tts.set_voice (Tts.voice (Tts.cfg s))
    (Tts.cfg (fst (Tts.selectBestVoice voices s))) = Tts.cfg s /\
  Tts.queue (fst (Tts.selectBestVoice voices s)) = Tts.queue s.
Proof.
  split; [by intros ->|]. split.
  - intros Hne.
    destruct (VoiceFacts.first_choice_preferences voices Hne)
      as (i & v & E & Hv & P1 & P2).
    exists i, v. unfold Tts.selectBestVoice. rewrite E.
    destruct voices; [done|]. by repeat split.
  - unfold Tts.selectBestVoice. destruct voices as [|v0 vs]; [|].
    + by destruct s as [[en ra pi vo vc] sy cu q pa].
    + destruct (Tts.first_choice _ _);
        by destruct s as [[en ra pi vo vc] sy cu q pa].
Qed.

(** X9. [abort()] of [SimpleVoiceInput] ends the session without a
    report: it clears the listening flag and both timer slots, aborts the
    recognizer and calls [onStop], but never [onComplete], whatever was
    heard; it sets no timer, so, unlike a completed turn, it schedules no
    restart, and no finalize trigger that arrives later finalizes or
    reports anything. *)
Theorem X9_abort_reports_nothing
    (s : Simple.state) (ts : list (Simple.env * Simple.trigger)) :
  Simple.isListening (fst (Simple.abort s)) = false /\
  Simple.timeoutTimer (fst (Simple.abort s)) = None /\
  Simple.silenceTimer (fst (Simple.abort s)) = None /\
  snd (Simple.abort s)
  = Simple.Console Simple.LogAborting
    :: (if Simple.recognition s then [Simple.RecAbort] else [])
    ++ [Simple.OnStop] /\
  next_id (Simple.rt (fst (Simple.abort s))) = next_id (Simple.rt s) /\
  (forall h v,
      pending (Simple.rt (fst (Simple.abort s))) !! h = Some v ->
      pending (Simple.rt s) !! h = Some v) /\
  count Simple.is_finalize (snd (Simple.pulls ts (fst (Simple.abort s))))
  = 0%nat /\
  count Simple.is_oncomplete (snd (Simple.pulls ts (fst (Simple.abort s))))
  = 0%nat.
Proof.
  rewrite SimpleSessions.abort_spec. cbn [fst snd].
  split; [done|]. split; [done|]. split; [done|]. split; [done|].
  split; [by destruct (Simple.silenceTimer s), (Simple.timeoutTimer s)|].
  split.
  - intros h v H. by do 2 apply cleared_pending in H.
  - match goal with |- context [Simple.pulls ts ?s'] =>
      destruct (SimpleFacts.pulls_idle ts s' eq_refl) as (_ & F & C) end.
    split; [exact C | by apply SimpleFacts.console_not_oncomplete].
Qed.

(** X10. An error of the recognizer drops the transcript: the handler
    clears the listening flag and the timers and reports the error, so
    the end event that follows finds the session closed and only writes
    its console line.  Nothing is reported through [onComplete], however
    much final text had been heard, [onStop] is not called, and no
    restart is scheduled. *)
Theorem X10_error_drops_the_transcript
    (s : Simple.state) (e e' : Simple.env) (err : jsstring) :
  Simple.recognition s = true ->
  snd (Simple.run [(e, Simple.EvError err); (e', Simple.EvEnd)] s)
  = [Simple.Console (Simple.LogRecognitionError err);
     Simple.OnError err;
     Simple.Console Simple.LogRecognitionEnded] /\
  Simple.isListening
    (fst (Simple.run [(e, Simple.EvError err); (e', Simple.EvEnd)] s))
  = false /\
  next_id (Simple.rt
    (fst (Simple.run [(e, Simple.EvError err); (e', Simple.EvEnd)] s)))
  = next_id (Simple.rt s).
Proof.
  intros R. unfold Simple.run. cbn [run_events].
  rewrite ?snd_seq, ?fst_seq.
  assert (Simple.step e (Simple.EvError err) s = Simple.onerror err s) as ->
    by (unfold Simple.step, when; by rewrite R).
  rewrite SimpleSessions.onerror_spec. cbn [fst snd].
  match goal with |- context [Simple.step e' Simple.EvEnd ?s1] =>
    assert (Simple.step e' Simple.EvEnd s1
            = (s1, [Simple.Console Simple.LogRecognitionEnded])) as ->
  end.
  { unfold Simple.step, when. cbn [Simple.recognition]. rewrite R.
    unfold Simple.onend, seq, emit. cbn [fst snd].
    by rewrite SimpleFacts.complete_idle. }
  cbn [fst snd skip app]. split; [done|]. split; [done|].
  by destruct (Simple.silenceTimer s), (Simple.timeoutTimer s).
Qed.

Lemma X10_error_drops_the_transcript_witness :
  Simple.recognition simple_heard = true /\
  Simple.finalTranscript simple_heard = lit "hi" /\
  snd (Simple.run [(simple_at 200, Simple.EvError (lit "network"));
                   (simple_at 210, Simple.EvEnd)] simple_heard)
  = [Simple.Console (Simple.LogRecognitionError (lit "network"));
     Simple.OnError (lit "network");
     Simple.Console Simple.LogRecognitionEnded].
Proof.
  assert (Simple.recognition simple_heard = true) as R by reflexivity.
  split; [exact R|]. split; [reflexivity|].
  exact (proj1 (X10_error_drops_the_transcript
                  simple_heard (simple_at 200) (simple_at 210)
                  (lit "network") R)).
Defined.

(** X11. Every completed turn of [SimpleVoiceInput] restarts itself:
    [complete] leaves a timer due 3000 ms later whose callback, finding
    the service not listening, starts the recognizer again.  The timer
    is kept in no slot, so [abort()] does not cancel it: after a turn
    was completed and the service aborted, the recognizer is still
    started when the timer fires.  Before it is due it does nothing. *)
Theorem X11_restart_survives_abort
    (s : Simple.state) (now : Z) (e : Simple.env) :
  Simple.isListening s = true ->
  Simple.recognition s = true ->
  now + 3000 <= Simple.now e ->
  Simple.start_throws e = false ->
  pending (Simple.rt (fst (Simple.complete now s))) !! next_id (Simple.rt s)
  = Some (now + 3000, Simple.KRestart) /\
  snd (Simple.step e (Simple.EvTimer (next_id (Simple.rt s)))
         (fst (Simple.complete now s)))
  = [Simple.Console Simple.LogAutoRestarting;
     Simple.Console Simple.LogStarting; Simple.RecStart] /\
  snd (Simple.step e (Simple.EvTimer (next_id (Simple.rt s)))
         (fst (Simple.abort (fst (Simple.complete now s)))))
  = [Simple.Console Simple.LogAutoRestarting;
     Simple.Console Simple.LogStarting; Simple.RecStart] /\
  (forall e0, Simple.now e0 < now + 3000 ->
     Simple.step e0 (Simple.EvTimer (next_id (Simple.rt s)))
       (fst (Simple.complete now s))
     = (fst (Simple.complete now s), [])).
Proof.
  intros L R D T. rewrite SimpleFacts.complete_live by done. cbn [fst].
  pose proof (SimpleSessions.restart_pending now s) as P.
  split; [exact P|]. split; [|split].
  - by apply (SimpleSessions.restart_fires e _ (now + 3000)).
  - rewrite SimpleSessions.abort_spec. cbn [fst].
    apply (SimpleSessions.restart_fires e _ (now + 3000)); try done.
  - intros e0 D0. by apply (SimpleSessions.not_due e0 _ (now + 3000) Simple.KRestart).
Qed.

Lemma X11_restart_survives_abort_witness :
  Simple.isListening simple_heard = true /\
  Simple.recognition simple_heard = true /\
  1000 + 3000 <= Simple.now (simple_at 4000) /\
  Simple.start_throws (simple_at 4000) = false /\
  In Simple.RecStart
    (snd (Simple.step (simple_at 4000)
            (Simple.EvTimer (next_id (Simple.rt simple_heard)))
            (fst (Simple.abort (fst (Simple.complete 1000 simple_heard)))))).
Proof.
  assert (Simple.isListening simple_heard = true) as L by reflexivity.
  assert (Simple.recognition simple_heard = true) as R by reflexivity.
  assert (1000 + 3000 <= Simple.now (simple_at 4000)) as D by (simpl; lia).
  assert (Simple.start_throws (simple_at 4000) = false) as T by reflexivity.
  split; [exact L|]. split; [exact R|]. split; [exact D|]. split; [exact T|].
  rewrite (proj1 (proj2 (proj2 (X11_restart_survives_abort
             simple_heard 1000 (simple_at 4000) L R D T)))).
  simpl. auto.
Defined.



(** X13. What [SimpleVoiceInput] and [InterruptibleVoiceInput] report as
    the text of a turn is never blank: over every run of events, each
    text handed to [onComplete] or to [onUserSpeechEnd] is not empty and
    has no white space at either end. *)
Theorem X13_reported_text_is_never_blank
    (es : list (Simple.env * Simple.event)) (s : Simple.state)
    (es' : list (Interruptible.env * Interruptible.event))
    (i : Interruptible.state) :
  (forall t, In (Simple.OnComplete t) (snd (Simple.run es s)) ->
             trimmed_text t) /\
  (forall t, In (Interruptible.OnUserSpeechEnd t)
                (snd (Interruptible.run es' i)) ->
             trimmed_text t).
Proof.
  split; intros t H.
  - by apply (SimpleSessions.simple_reports_run es s _ t H).
  - by apply (InterruptibleShutdown.iv_reports_run es' i _ t H).
Qed.

(** X14. What [ReliableVoiceInput] and [VoiceActivityDetection] report as
    recognized speech is never blank: over every run of events, each
    text handed to [onSpeechResult] or to [onVoiceEnd] is not empty and
    has no white space at either end. *)
Theorem X14_recognized_speech_is_never_blank
    (es : list (Reliable.env * Reliable.event)) (s : Reliable.state)
    (es' : list (Vad.env * Vad.event)) (v : Vad.state) :
  (forall t, In (Reliable.OnSpeechResult t) (snd (Reliable.run es s)) ->
             trimmed_text t) /\
  (forall t, In (Vad.OnVoiceEnd t) (snd (Vad.run es' v)) ->
             trimmed_text t).
Proof.
  split; intros t H.
  - by apply (ReliableSessions.reliable_reports_run es s _ t H).
  - by apply (VadShutdown.vad_reports_run es' v _ t H).
Qed.



(** X16. [cleanup] of [ReliableVoiceInput] is not guarded: every event
    that ends a session calls [onListeningEnd] once, whether a session
    was listening or not.  So a recognized utterance is followed by two
    such calls, one from the result and one from the end event of the
    recognizer, with the one call of [onSpeechResult] between them. *)
Theorem X16_every_cleanup_notifies
    (s : Reliable.state) (e e' : Reliable.env) (ev : Reliable.event)
    (rs : list SpeechResult) :
  Reliable.recognition s = true ->
  Reliable.ends_session ev = true ->
  truthy (trim (fst (collect rs [] []))) = true ->
  count Reliable.is_listening_end (snd (Reliable.step e ev s)) = 1%nat /\
  snd (Reliable.run [(e, Reliable.EvResult rs); (e', Reliable.EvEnd)] s)
  = [Reliable.Console Reliable.LogGotResult;
     Reliable.Console (Reliable.LogFinalTranscript (fst (collect rs [] [])));
     Reliable.Console
       (Reliable.LogHandlingResult (trim (fst (collect rs [] []))));
     Reliable.OnListeningEnd;
     Reliable.OnSpeechResult (trim (fst (collect rs [] [])));
     Reliable.Console Reliable.LogRecognitionEnded;
     Reliable.OnListeningEnd].
Proof.
  intros R E T.
  split; [by apply ReliableSessions.ends_session_cleanup|].
  unfold Reliable.run. cbn [run_events]. rewrite ?snd_seq, ?fst_seq.
  unfold Reliable.step, when. rewrite R.
  unfold Reliable.onresult. rewrite T.
  unfold Reliable.handleResult. rewrite ?snd_seq, ?fst_seq.
  rewrite ReliableSessions.cleanup_spec. cbn [fst snd emit].
  cbn [Reliable.recognition]. rewrite R.
  unfold Reliable.onend. rewrite ?snd_seq, ?fst_seq.
  rewrite ReliableSessions.cleanup_spec. reflexivity.
Qed.

Lemma X16_every_cleanup_notifies_witness :
  Reliable.recognition
    (fst (Reliable.step (reliable_at 0) Reliable.EvStart reliable_fresh))
  = true /\
  Reliable.ends_session Reliable.EvEnd = true /\
  truthy (trim (fst (collect [final " hello "] [] []))) = true /\
  count Reliable.is_listening_end
    (snd (Reliable.run [(reliable_at 0, Reliable.EvStart);
                        (reliable_at 900, Reliable.EvResult [final " hello "]);
                        (reliable_at 910, Reliable.EvEnd)] reliable_fresh))
  = 2%nat.
Proof.
  assert (Reliable.recognition
            (fst (Reliable.step (reliable_at 0) Reliable.EvStart
                    reliable_fresh)) = true) as R by reflexivity.
  assert (Reliable.ends_session Reliable.EvEnd = true) as E by reflexivity.
  assert (truthy (trim (fst (collect [final " hello "] [] []))) = true) as T
    by reflexivity.
  split; [exact R|]. split; [exact E|]. split; [exact T|].
  pose proof (proj2 (X16_every_cleanup_notifies
                (fst (Reliable.step (reliable_at 0) Reliable.EvStart
                        reliable_fresh))
                (reliable_at 900) (reliable_at 910) Reliable.EvEnd
                [final " hello "] R E T)) as H.
  unfold Reliable.run in *. cbn [run_events] in *.
  rewrite snd_seq, count_app. rewrite H. reflexivity.
Defined.

(** X17. [stop()] of [InterruptibleVoiceInput] is final.  It leaves the
    service inactive, with status idle and its audio context closed and
    forgotten; the not-allowed error of the recognizer does the same,
    through [stop()].  Nothing creates the audio context again, so
    whatever events follow, a new [start()] and a granted microphone
    among them, the service never becomes active, never starts the
    recognizer and never raises the barge-in signal: [start()] asks for
    the microphone and keeps the stream, and that is all. *)
Theorem X17_stop_is_final
    (s : Interruptible.state) (e e1 e2 : Interruptible.env)
    (es : list (Interruptible.env * Interruptible.event)) :
  (Interruptible.shut (fst (Interruptible.step e Interruptible.CallStop s)) /\
   Interruptible.currentStatus
     (fst (Interruptible.step e Interruptible.CallStop s))
   = Interruptible.Idle /\
   Interruptible.shut (fst (Interruptible.onerror (lit "not-allowed") s))) /\
  (Interruptible.isActive
     (fst (Interruptible.run es
        (fst (Interruptible.step e Interruptible.CallStop s)))) = false /\
   count Interruptible.is_recstart
     (snd (Interruptible.run es
        (fst (Interruptible.step e Interruptible.CallStop s)))) = 0%nat /\
   count Interruptible.is_detected
     (snd (Interruptible.run es
        (fst (Interruptible.step e Interruptible.CallStop s)))) = 0%nat) /\
  (Interruptible.isActive
     (fst (Interruptible.run es
        (fst (Interruptible.onerror (lit "not-allowed") s)))) = false /\
   count Interruptible.is_recstart
     (snd (Interruptible.run es
        (fst (Interruptible.onerror (lit "not-allowed") s)))) = 0%nat) /\
  (snd (Interruptible.run
          [(e1, Interruptible.CallStart);
           (e2, Interruptible.EvUserMedia true)]
          (fst (Interruptible.step e Interruptible.CallStop s)))
   = [Interruptible.Console Interruptible.LogStartingSystem;
      Interruptible.GetUserMedia] /\
   Interruptible.mediaStream
     (fst (Interruptible.run
          [(e1, Interruptible.CallStart);
           (e2, Interruptible.EvUserMedia true)]
          (fst (Interruptible.step e Interruptible.CallStop s)))) = true).
Proof.
  change (Interruptible.step e Interruptible.CallStop s)
    with (Interruptible.stop s).
  pose proof (InterruptibleShutdown.stop_shuts s) as H.
  pose proof (InterruptibleShutdown.not_allowed_shuts s) as H'.
  split; [split; [exact H | split; [apply InterruptibleShutdown.stop_idles
                                   | exact H']]|].
  destruct (InterruptibleShutdown.shut_run es _ H) as ([_ I] & C1 & C2).
  destruct (InterruptibleShutdown.shut_run es _ H') as ([_ I'] & C1' & _).
  split; [done|]. split; [done|].
  by apply InterruptibleShutdown.restart_is_idle.
Qed.





(** X20. [stop()] of [VoiceActivityDetection] is final.  It leaves the
    service inactive and its audio context closed and forgotten, and
    nothing creates the context again: whatever events follow, the
    service never becomes active, never starts the recognizer and never
    raises the voice-start signal.  A new [start()] asks for the
    microphone and keeps the stream it is granted, and that is all. *)
Theorem X20_vad_stop_is_final
    (s : Vad.state) (e e1 e2 : Vad.env) (es : list (Vad.env * Vad.event)) :
  Vad.shut (fst (Vad.step e Vad.CallStop s)) /\
  (Vad.isActive (fst (Vad.run es (fst (Vad.step e Vad.CallStop s)))) = false /\
   count Vad.is_recstart
     (snd (Vad.run es (fst (Vad.step e Vad.CallStop s)))) = 0%nat /\
   count Vad.is_voice_start
     (snd (Vad.run es (fst (Vad.step e Vad.CallStop s)))) = 0%nat) /\
  (Vad.supported s = true ->
   snd (Vad.run [(e1, Vad.CallStart); (e2, Vad.EvUserMedia true)]
          (fst (Vad.step e Vad.CallStop s)))
   = [Vad.GetUserMedia] /\
   Vad.mediaStream
     (fst (Vad.run [(e1, Vad.CallStart); (e2, Vad.EvUserMedia true)]
             (fst (Vad.step e Vad.CallStop s)))) = true).
Proof.
  change (Vad.step e Vad.CallStop s) with (Vad.stop s).
  pose proof (VadShutdown.vad_stop_shuts s) as H.
  split; [exact H|].
  destruct (VadShutdown.vad_shut_run es _ H) as ([_ I] & C1 & C2).
  split; [done|]. intros Su.
  apply VadShutdown.vad_restart_is_idle; [exact H|].
  by apply VadShutdown.vad_supported_stop.
Qed.

(** X21. Every restart of the detection of [VoiceActivityDetection] adds
    a polling loop.  [detectVoice] always asks for the next frame, so a
    loop ends only when the service stops; the timers of
    [handleVoiceEnd] and of the end event call [startVoiceDetection],
    which starts a loop without ending one.  On an active service whose
    recognizer starts without raising, the callback of such a timer
    leaves one more frame pending than before, and the callback of a
    frame as many as before. *)
Theorem X21_every_restart_adds_a_loop
    (s : Vad.state) (e : Vad.env) (h : nat) (d : Z) (k : Vad.kind) :
  Vad.isActive s = true ->
  Vad.analyser s = true ->
  Vad.start_throws e = false ->
  rt_fresh (Vad.rt s) ->
  pending (Vad.rt s) !! h = Some (d, k) ->
  d <= Vad.now e ->
  (Vad.is_restart k = true ->
   Vad.frames_pending (fst (Vad.step e (Vad.EvTimer h) s))
   = S (Vad.frames_pending s)) /\
  (k = Vad.KFrame ->
   Vad.frames_pending (fst (Vad.step e (Vad.EvTimer h) s))
   = Vad.frames_pending s).
Proof.
  intros A An T F P D. split.
  - intros Hk.
    pose proof (VadLoops.frames_after_callback e h d k s A An T F P D
                  (or_introl Hk)) as H.
    destruct k; try done; cbn [b2n Vad.is_frame] in H; lia.
  - intros ->.
    pose proof (VadLoops.frames_after_callback e h d Vad.KFrame s A An T F P D
                  (or_intror eq_refl)) as H.
    cbn [b2n Vad.is_frame] in H. lia.
Qed.

Lemma X21_every_restart_adds_a_loop_witness :
  Vad.frames_pending
    (fst (Vad.run [(vad_loud 0, Vad.CallStart);
                   (vad_loud 0, Vad.EvUserMedia true);
                   (vad_loud 1000, Vad.EvResult 0 [final "hi"])] vad_fresh))
  = 1%nat /\
  Vad.frames_pending
    (fst (Vad.step (vad_loud 3000) (Vad.EvTimer 3)
       (fst (Vad.run [(vad_loud 0, Vad.CallStart);
                      (vad_loud 0, Vad.EvUserMedia true);
                      (vad_loud 1000, Vad.EvResult 0 [final "hi"])]
                     vad_fresh))))
  = 2%nat.
Proof.
  set (s := fst (Vad.run [(vad_loud 0, Vad.CallStart);
                          (vad_loud 0, Vad.EvUserMedia true);
                          (vad_loud 1000, Vad.EvResult 0 [final "hi"])]
                         vad_fresh)).
  assert (Vad.isActive s = true) as A by reflexivity.
  assert (Vad.analyser s = true) as An by reflexivity.
  assert (Vad.start_throws (vad_loud 3000) = false) as T by reflexivity.
  assert (rt_fresh (Vad.rt s)) as F
    by (apply (bool_decide_unpack _); by vm_compute).
  assert (pending (Vad.rt s) !! 3%nat = Some (3000, Vad.KRestartDetection))
    as P by reflexivity.
  assert (3000 <= Vad.now (vad_loud 3000)) as D by (vm_compute; discriminate).
  assert (Vad.frames_pending s = 1%nat) as One by (by vm_compute).
  split; [exact One|].
  rewrite (proj1 (X21_every_restart_adds_a_loop s (vad_loud 3000) 3%nat 3000
                    Vad.KRestartDetection A An T F P D) eq_refl).
  by rewrite One.
Defined.

(** X22. The maximum listening time of [VoiceActivityDetection] ends a
    session without a report: when its timer finds the session
    listening it stops the recognizer, clears the flag and the slot and
    calls [handleVoiceEnd] with the empty string, so [onVoiceEnd] is not
    called, and the detection is restarted 2000 ms later.  When the
    session has ended already the callback only writes its console
    line. *)
Theorem X22_max_listen_reports_nothing
    (s : Vad.state) (e : Vad.env) (h : nat) (d : Z) :
  pending (Vad.rt s) !! h = Some (d, Vad.KMaxListen) ->
  d <= Vad.now e ->
  (Vad.isListening s = true ->
   snd (Vad.step e (Vad.EvTimer h) s)
   = Vad.Console Vad.LogMaxListenTime
     :: (if Vad.recognition s then [Vad.RecStop] else [])
     ++ [Vad.Console (Vad.LogHandlingVoiceEnd [])] /\
   Vad.isListening (fst (Vad.step e (Vad.EvTimer h) s)) = false /\
   Vad.maxListenTimer (fst (Vad.step e (Vad.EvTimer h) s)) = None /\
   pending (Vad.rt (fst (Vad.step e (Vad.EvTimer h) s))) !! next_id (Vad.rt s)
   = Some (Vad.now e + 2000, Vad.KRestartDetection)) /\
  (Vad.isListening s = false ->
   snd (Vad.step e (Vad.EvTimer h) s) = [Vad.Console Vad.LogMaxListenTime] /\
   fst (Vad.step e (Vad.EvTimer h) s)
   = Vad.set_rt (rt_clear h (Vad.rt s)) s).
Proof.
  intros P D. destruct (VadLoops.vad_fire_due e h d _ s P D) as [-> ->].
  split; intros L.
  - rewrite VadLoops.max_listen_fires by exact L. cbn [fst snd].
    split; [done|]. split; [done|]. split; [done|].
    cbn [Vad.rt Vad.set_rt Vad.debounceTimer Vad.maxListenTimer].
    destruct (Vad.debounceTimer s), (Vad.maxListenTimer s); simpl;
      apply lookup_insert_eq.
  - rewrite VadLoops.max_listen_idle by exact L. by split.
Qed.

Lemma X22_max_listen_reports_nothing_witness :
  pending (Vad.rt
    (fst (Vad.run [(vad_loud 0, Vad.CallStart);
                   (vad_loud 0, Vad.EvUserMedia true)] vad_fresh))) !! 1%nat
  = Some (10000, Vad.KMaxListen) /\
  snd (Vad.step (vad_loud 10000) (Vad.EvTimer 1)
         (fst (Vad.run [(vad_loud 0, Vad.CallStart);
                        (vad_loud 0, Vad.EvUserMedia true)] vad_fresh)))
  = [Vad.Console Vad.LogMaxListenTime; Vad.RecStop;
     Vad.Console (Vad.LogHandlingVoiceEnd [])].
Proof.
  set (s := fst (Vad.run [(vad_loud 0, Vad.CallStart);
                          (vad_loud 0, Vad.EvUserMedia true)] vad_fresh)).
  assert (pending (Vad.rt s) !! 1%nat = Some (10000, Vad.KMaxListen)) as P
    by reflexivity.
  assert (10000 <= Vad.now (vad_loud 10000)) as D
    by (vm_compute; discriminate).
  split; [exact P|].
  exact (proj1 (proj1 (X22_max_listen_reports_nothing s (vad_loud 10000)
                         1%nat 10000 P D) eq_refl)).
Defined.

(** X23. Settings that nothing reads.  No handler of
    [InterruptibleVoiceInput] reads [voiceThreshold] (the detection
    compares against [interruptSensitivity] only), and no handler of
    [VoiceActivityDetection] reads [debounceTime] or [sampleRate]:
    whatever their values, every run of events has the same effects and
    ends in the same state, up to these values. *)
Theorem X23_settings_that_nothing_reads
    (q : Double.t) (es : list (Interruptible.env * Interruptible.event))
    (s : Interruptible.state)
    (d r : Z) (es' : list (Vad.env * Vad.event)) (v : Vad.state) :
  (snd (Interruptible.run es (Interruptible.with_voiceThreshold q s))
   = snd (Interruptible.run es s) /\
   fst (Interruptible.run es (Interruptible.with_voiceThreshold q s))
   = Interruptible.with_voiceThreshold q (fst (Interruptible.run es s))) /\
  (snd (Vad.run es' (Vad.with_unread d r v)) = snd (Vad.run es' v) /\
   fst (Vad.run es' (Vad.with_unread d r v))
   = Vad.with_unread d r (fst (Vad.run es' v))).
Proof.
  split.
  - pose proof (commutes_run (Interruptible.with_voiceThreshold q)
                  Interruptible.step es
                  (InterruptibleSettings.voiceThreshold_step q) s) as H.
    unfold Interruptible.run. by rewrite H.
  - pose proof (commutes_run (Vad.with_unread d r) Vad.step es'
                  (VadSettings.unread_step d r) v) as H.
    unfold Vad.run. by rewrite H.
Qed.

(** X24. The status of [InterruptibleVoiceInput] says no more than the
    flags hold.  In every state the service reaches from its
    constructor, status listening means that the listening flag is set,
    and status processing that the processing flag is set and the
    listening flag is not.  The converse fails: [setAISpeaking(true)]
    puts the status back to detecting while the recognizer goes on
    listening. *)
Theorem X24_status_says_no_more_than_the_flags
    (speech audio : bool) (c : Interruptible.config)
    (es : list (Interruptible.env * Interruptible.event)) :
  (Interruptible.currentStatus
     (fst (Interruptible.run es (Interruptible.init speech audio c)))
   = Interruptible.Listening ->
   Interruptible.isListening
     (fst (Interruptible.run es (Interruptible.init speech audio c)))
   = true) /\
  (Interruptible.currentStatus
     (fst (Interruptible.run es (Interruptible.init speech audio c)))
   = Interruptible.Processing ->
   Interruptible.isProcessing
     (fst (Interruptible.run es (Interruptible.init speech audio c)))
   = true /\
   Interruptible.isListening
     (fst (Interruptible.run es (Interruptible.init speech audio c)))
   = false) /\
  (Interruptible.isListening
     (fst (Interruptible.step (inter_at 500)
             (Interruptible.CallSetAISpeaking true) inter_listening))
   = true /\
   Interruptible.currentStatus
     (fst (Interruptible.step (inter_at 500)
             (Interruptible.CallSetAISpeaking true) inter_listening))
   = Interruptible.Detecting).
Proof.
  destruct (InterruptibleStatus.sound_run es _
              (InterruptibleStatus.sound_init speech audio c)) as [H1 H2].
  split; [exact H1|]. split; [exact H2|]. by split.
Qed.

(** X25.  Whatever the replacements of formatting and abbreviations make
    of a text, [cleanTextForSpeech] returns it with normalised white
    space: nothing at either end, every white space character a plain
    space, no two of them in a row.  The other characters are those the
    replacements produced, in their order, and the result is no longer
    than what they produced. *)
Theorem X25_clean_text_is_single_spaced
    (reword : jsstring -> jsstring) (text : jsstring) :
  let out := Tts.cleanTextForSpeech reword text in
  trim out = out /\
  Tts.spaced false out = true /\
  Tts.visible out = Tts.visible (reword text) /\
  (length out <= length (reword text))%nat.
Proof.
  cbv zeta. unfold Tts.cleanTextForSpeech, Tts.collapse_ws.
  split; [apply TextFacts.trim_idem|].
  split; [apply (CleanFacts.spaced_trim false), CleanFacts.collapse_spaced|].
  split.
  - by rewrite TextFacts.visible_trim, CleanFacts.collapse_visible.
  - etrans; [|apply (CleanFacts.collapse_length false)].
    apply TtsFacts.trim_length.
Qed.

(** X26. A silence timeout of 2^31 ms or more does not wait.
    [setTimeout] reads its delay as a signed 32-bit integer, so that a
    [silenceTimeout] from 2^31 to 2^32 - 1 counts as 0: the silence timer
    that a result event sets, in [InterruptibleVoiceInput] and in
    [SimpleVoiceInput], is due at the time of the event itself, and its
    callback, run at that time, enters the finalize path of a turn that
    is still open. *)
Theorem X26_a_huge_silence_timeout_does_not_wait
    (i : Interruptible.state) (e : Interruptible.env)
    (resultIndex : nat) (results : list SpeechResult)
    (s : Simple.state) (e' : Simple.env) :
  Interruptible.wf i ->
  Interruptible.recognition i = true ->
  2 ^ 31 <= Interruptible.silenceTimeout (Interruptible.cfg i) < 2 ^ 32 ->
  Simple.wf s ->
  2 ^ 31 <= Simple.silenceTimeout (Simple.cfg s) < 2 ^ 32 ->
  (Interruptible.silence_due
     (fst (Interruptible.step e (Interruptible.EvResult resultIndex results) i))
   = Some (Interruptible.now e) /\
   (forall h,
       Interruptible.silenceTimer
         (fst (Interruptible.step e
                 (Interruptible.EvResult resultIndex results) i))
       = Some h ->
       Interruptible.isProcessing i = false ->
       count Interruptible.is_finalize
         (snd (Interruptible.step e (Interruptible.EvTimer h)
            (fst (Interruptible.step e
                    (Interruptible.EvResult resultIndex results) i))))
       = 1%nat)) /\
  (Simple.silence_due (fst (Simple.resetSilenceTimer (Simple.now e') s))
   = Some (Simple.now e') /\
   (forall h,
       Simple.silenceTimer (fst (Simple.resetSilenceTimer (Simple.now e') s))
       = Some h ->
       Simple.isListening s = true ->
       count Simple.is_finalize
         (snd (Simple.step e' (Simple.EvTimer h)
            (fst (Simple.resetSilenceTimer (Simple.now e') s))))
       = 1%nat)).
Proof.
  intros W R Hr W' Hr'. split.
  - unfold Interruptible.step at 1 2 4. unfold when. rewrite R.
    destruct (InterruptibleFacts.iv_onresult_restarts
                (Interruptible.now e) resultIndex results i W)
      as (_ & D1 & _).
    rewrite (timer_delay_wraps _ Hr), Z.add_0_r in D1.
    split; [exact D1|]. intros h Hs P.
    destruct (InterruptibleFacts.iv_silence_fires e h _ _ Hs D1
                ltac:(lia)) as [_ F].
    apply F.
    (* a result event does not touch [isProcessing] *)
    clear -P. unfold Interruptible.onresult, Interruptible.resetSilenceTimer,
      Interruptible.clearSlot, Interruptible.setTimeout, seq, reading, emit,
      modify, skip.
    destruct (truthy _); exact P.
  - destruct (SimpleFacts.resetSilenceTimer_due (Simple.now e') s W')
      as (_ & D1 & _).
    rewrite (timer_delay_wraps _ Hr'), Z.add_0_r in D1.
    split; [exact D1|]. intros h Hs L.
    destruct (SimpleFacts.silence_fires e' h _ _ Hs D1 ltac:(lia)) as [_ F].
    apply F. exact L.
Qed.

Lemma X26_a_huge_silence_timeout_does_not_wait_witness :
  Interruptible.wf inter_huge_timeout /\
  Interruptible.recognition inter_huge_timeout = true /\
  2 ^ 31 <= Interruptible.silenceTimeout (Interruptible.cfg inter_huge_timeout)
  < 2 ^ 32 /\
  Simple.wf simple_huge_timeout /\
  2 ^ 31 <= Simple.silenceTimeout (Simple.cfg simple_huge_timeout) < 2 ^ 32 /\
  Interruptible.silence_due
    (fst (Interruptible.step (inter_at 500)
            (Interruptible.EvResult 0 [interim "he"]) inter_huge_timeout))
  = Some 500 /\
  Simple.silence_due
    (fst (Simple.resetSilenceTimer 500 simple_huge_timeout))
  = Some 500.
Proof.
  assert (Interruptible.wf inter_huge_timeout) as W
    by (apply (bool_decide_unpack _); by vm_compute).
  assert (Interruptible.recognition inter_huge_timeout = true) as R
    by reflexivity.
  assert (2 ^ 31
          <= Interruptible.silenceTimeout (Interruptible.cfg inter_huge_timeout)
          < 2 ^ 32) as Hr
    by (vm_compute; split; [discriminate | reflexivity]).
  assert (Simple.wf simple_huge_timeout) as W'
    by (apply (bool_decide_unpack _); by vm_compute).
  assert (2 ^ 31 <= Simple.silenceTimeout (Simple.cfg simple_huge_timeout)
          < 2 ^ 32) as Hr'
    by (vm_compute; split; [discriminate | reflexivity]).
  destruct (X26_a_huge_silence_timeout_does_not_wait
              inter_huge_timeout (inter_at 500) 0 [interim "he"]
              simple_huge_timeout (simple_at 500) W R Hr W' Hr')
    as ((D & _) & (D' & _)).
  split; [exact W|]. split; [exact R|]. split; [exact Hr|].
  split; [exact W'|]. split; [exact Hr'|]. split; [exact D | exact D'].
Defined.
